(** * gowsdl: schema decoding, external resolution and type mapping

    A shallow embedding of the decoder of [xsd.go], of the external
    reference resolver and of the type mapper of [gowsdl.go], with the
    properties their specification states about them. *)

From Stdlib Require Import ZArith List String Ascii Bool Lia.
From stdpp Require Import base option list strings gmap.

Open Scope string_scope.
Open Scope Z_scope.
Open Scope list_scope.

(** ** Go strings and the text functions of the standard library

    A Go [string] is a sequence of bytes, here [string]; a [rune] is a
    code point.  The conversions between the two and the Unicode tables
    belong to Go's standard library, not to this repository: they are the
    operations of the class [GoText], whose laws fix them on ASCII, where
    a byte is a rune. *)

Definition rune := Z.

Definition rune_of_byte (a : ascii) : rune := Z.of_N (N_of_ascii a).
Definition byte_of_rune (r : rune) : ascii := ascii_of_N (Z.to_N r).

Definition ascii_lower (r : rune) : bool := (97 <=? r) && (r <=? 122).
Definition ascii_upper (r : rune) : bool := (65 <=? r) && (r <=? 90).
Definition ascii_digit (r : rune) : bool := (48 <=? r) && (r <=? 57).

Class GoText := {
  (** [[]rune(s)] *)
  runes_of : string -> list rune;
  (** [string(rs)] for a slice of runes *)
  string_of : list rune -> string;
  strings_ToLower : string -> string;
  unicode_IsLetter : rune -> bool;
  unicode_IsDigit : rune -> bool;
  unicode_IsUpper : rune -> bool;
  unicode_ToUpper : rune -> rune;
  runes_of_ascii : forall a s,
    rune_of_byte a < 128 ->
    runes_of (String a s) = rune_of_byte a :: runes_of s;
  string_of_ascii : forall r rs,
    0 <= r < 128 ->
    string_of (r :: rs) = String (byte_of_rune r) (string_of rs);
  unicode_ToUpper_ascii : forall r,
    0 <= r < 128 -> unicode_ToUpper r = if ascii_lower r then r - 32 else r;
  unicode_IsUpper_ascii : forall r,
    0 <= r < 128 -> unicode_IsUpper r = ascii_upper r
}.

(** The functions of [GoText] on strings of ASCII bytes, where Go's
    conversions are the identity on bytes; used to run the embedding on
    ASCII inputs. *)
Definition ascii_ToLower_byte (a : ascii) : ascii :=
  let r := rune_of_byte a in
  if ascii_upper r then byte_of_rune (r + 32) else a.

Fixpoint ascii_string_map (f : ascii -> ascii) (s : string) : string :=
  match s with
  | EmptyString => EmptyString
  | String a s' => String (f a) (ascii_string_map f s')
  end.

Definition ascii_runes_of (s : string) : list rune :=
  map rune_of_byte (list_ascii_of_string s).

Definition ascii_string_of (rs : list rune) : string :=
  string_of_list_ascii (map byte_of_rune rs).

Definition ascii_ToUpper (r : rune) : rune :=
  if ascii_lower r then r - 32 else r.

Definition ascii_IsLetter (r : rune) : bool := ascii_lower r || ascii_upper r.

(** ** [strings.Split], [strings.ReplaceAll], [strings.Map] *)

(** [strings.Split(s, sep)] for a separator of one byte, as the source
    calls it (with [":"]). The result is never empty. *)
Fixpoint strings_Split (s : string) (sep : ascii) : list string :=
  match s with
  | EmptyString => [EmptyString]
  | String c s' =>
      if Ascii.eqb c sep then EmptyString :: strings_Split s' sep
      else match strings_Split s' sep with
           | [] => [String c EmptyString]
           | h :: t => String c h :: t
           end
  end.

Definition colon : ascii := ":"%char.

(** [strings.HasPrefix] *)
Fixpoint strings_HasPrefix (s pre : string) {struct pre} : bool :=
  match pre with
  | EmptyString => true
  | String a pre' =>
      match s with
      | EmptyString => false
      | String b s' => Ascii.eqb a b && strings_HasPrefix s' pre'
      end
  end.

(** [strings.ReplaceAll(s, old, new)] for a non-empty [old]: the matches
    are taken from left to right and do not overlap; [skip] counts the
    bytes of a match still to be dropped. *)
Fixpoint replace_from (old new : string) (skip : nat) (s : string) : string :=
  match s with
  | EmptyString => EmptyString
  | String c s' =>
      match skip with
      | S k => replace_from old new k s'
      | O =>
          if strings_HasPrefix s old
          then new +:+ replace_from old new (Nat.pred (String.length old)) s'
          else String c (replace_from old new O s')
      end
  end.

Definition strings_ReplaceAll (s old new : string) : string :=
  replace_from old new O s.

(** [strings.Map(mapping, s)]: a rune mapped to a negative value is
    dropped. *)
Definition strings_Map `{GoText} (mapping : rune -> rune) (s : string)
    : string :=
  string_of (filter (fun r => 0 <= r) (map mapping (runes_of s))).

(** A Go map literal with string keys, read with [m[k]]: the zero value
    [""] for a missing key. *)
Definition table := list (string * string).

Fixpoint table_get (m : table) (k : string) : string :=
  match m with
  | [] => ""
  | (k', v) :: m' => if String.eqb k' k then v else table_get m' k
  end.

Fixpoint table_has (m : table) (k : string) : bool :=
  match m with
  | [] => false
  | (k', _) :: m' => String.eqb k' k || table_has m' k
  end.

(** ** The identifier sanitizer ([gowsdl.go]) *)

Definition reservedWords : table :=
  [ ("break", "break_"); ("default", "default_"); ("func", "func_");
    ("interface", "interface_"); ("select", "select_"); ("case", "case_");
    ("defer", "defer_"); ("go", "go_"); ("map", "map_");
    ("struct", "struct_"); ("chan", "chan_"); ("else", "else_");
    ("goto", "goto_"); ("package", "package_"); ("switch", "switch_");
    ("const", "const_"); ("fallthrough", "fallthrough_"); ("if", "if_");
    ("range", "range_"); ("type", "type_"); ("continue", "continue_");
    ("for", "for_"); ("import", "import_"); ("return", "return_");
    ("var", "var_") ].

Definition reservedWordsInAttr : table :=
  reservedWords ++ [ ("string", "astring") ].

Definition specialCharacterMapping : table :=
  [ ("+", "Plus"); ("@", "At") ].

Definition normalize_mapping `{GoText} (r : rune) : rune :=
  if (r =? 46) || (r =? 45) then 95
  else if unicode_IsLetter r || unicode_IsDigit r || (r =? 95) then r
  else -1.

(** [normalize]: the loop over [specialCharacterMapping] is run in the
    order of the literal; Go leaves the order of a map's iteration open,
    and [normalize_order] below shows that it does not matter here. *)
Definition normalize `{GoText} (value : string) : string :=
  let value :=
    fold_left (fun value kv => strings_ReplaceAll value (fst kv) (snd kv))
              specialCharacterMapping value in
  strings_Map normalize_mapping value.

Definition replaceReservedWords `{GoText} (identifier : string) : string :=
  let value := table_get reservedWords identifier in
  if negb (String.eqb value "") then value else normalize identifier.

Definition replaceAttrReservedWords `{GoText} (identifier : string) : string :=
  let value := table_get reservedWordsInAttr identifier in
  if negb (String.eqb value "") then value else normalize identifier.

Definition basicTypes : table :=
  [ ("string", "string"); ("float32", "float32"); ("float64", "float64");
    ("int", "int"); ("int8", "int8"); ("int16", "int16"); ("int32", "int32");
    ("int64", "int64"); ("bool", "bool"); ("time.Time", "time.Time");
    ("[]byte", "[]byte"); ("byte", "byte"); ("uint16", "uint16");
    ("uint32", "uint32"); ("uinit64", "uint64");
    ("interface{}", "interface{}") ].

Definition isBasicType (identifier : string) : bool :=
  if table_has basicTypes identifier then true else false.

Definition makePublic `{GoText} (identifier : string) : string :=
  if isBasicType identifier then identifier
  else if String.eqb identifier "" then "EmptyString"
  else
    let field := runes_of identifier in
    match field with
    | [] => identifier
    | r :: rest => string_of (unicode_ToUpper r :: rest)
    end.

(** [makePublicFn], as [NewGoWSDL] chooses it from [exportAllTypes]. *)
Definition makePublicFn `{GoText} (exportAllTypes : bool) (id : string)
    : string :=
  if exportAllTypes then makePublic id else id.

(** The sanitizer of a type name, as the templates chain it:
    [replaceReservedWords .Name | makePublic]. *)
Definition sanitizeTypeName `{GoText} (exportAllTypes : bool)
    (name : string) : string :=
  makePublicFn exportAllTypes (replaceReservedWords name).

Definition xsd2GoTypes : table :=
  [ ("string", "string"); ("token", "string"); ("float", "float32");
    ("double", "float64"); ("decimal", "float64"); ("integer", "int32");
    ("int", "int32"); ("short", "int16"); ("byte", "int8");
    ("long", "int64"); ("boolean", "bool");
    ("datetime", "soap.XSDDateTime"); ("date", "soap.XSDDate");
    ("time", "soap.XSDTime"); ("base64binary", "[]byte");
    ("hexbinary", "[]byte"); ("unsignedint", "uint32");
    ("nonnegativeinteger", "uint32"); ("unsignedshort", "uint16");
    ("unsignedbyte", "byte"); ("unsignedlong", "uint64");
    ("anytype", "AnyType"); ("ncname", "NCName"); ("anyuri", "AnyURI") ].

Definition getNSPrefix (xsdType : string) : string :=
  match strings_Split xsdType colon with
  | [p; _] => p
  | _ => ""
  end.

Definition stripns (xsdType : string) : string :=
  match strings_Split xsdType colon with
  | [_; r1] => r1
  | r0 :: _ => r0
  | [] => ""
  end.

(** Whether the first rune of an identifier is an upper-case letter
    ([unicode.IsUpper]). *)
Definition leading_upper `{GoText} (s : string) : bool :=
  match runes_of s with
  | r :: _ => unicode_IsUpper r
  | [] => false
  end.

Definition removeNS (xsdType : string) : string :=
  match strings_Split xsdType colon with
  | [_; l] => l
  | r0 :: _ => r0
  | [] => ""
  end.

(** ** The tokens of [encoding/xml] *)

Record Name := { Space : string; Local : string }.

Record Attr := { attr_Name : Name; attr_Value : string }.

Record StartElement := { se_Name : Name; se_Attr : list Attr }.

Inductive Token :=
| TStartElement (t : StartElement)
| TEndElement (n : Name)
| TCharData (data : string)
| TComment (data : string)
| TProcInst (target inst : string)
| TDirective (data : string).

Definition zero_Name : Name := {| Space := ""; Local := "" |}.

(** ** The schema model ([xsd.go]) *)

Definition xmlschema11 : string := "http://www.w3.org/2001/XMLSchema".

Record XSDInclude := { incl_SchemaLocation : string }.

Record XSDImport := {
  imp_XMLName : Name;
  imp_SchemaLocation : string;
  imp_Namespace : string }.

Record XSDAny := {
  any_XMLName : Name;
  any_Doc : string;
  any_MinOccurs : string;
  any_MaxOccurs : string;
  any_Namespace : string;
  any_ProcessContents : string }.

Record XSDRestrictionValue := { rv_Doc : string; rv_Value : string }.

Record XSDRestriction := {
  res_Base : string;
  res_Enumeration : list XSDRestrictionValue;
  res_Pattern : XSDRestrictionValue;
  res_MinInclusive : XSDRestrictionValue;
  res_MaxInclusive : XSDRestrictionValue;
  res_WhiteSpace : XSDRestrictionValue;
  res_Length : XSDRestrictionValue;
  res_MinLength : XSDRestrictionValue;
  res_MaxLength : XSDRestrictionValue }.

(** The structs that refer to one another; a Go pointer that may be
    [nil] is an [option]. *)
Inductive XSDElement := Build_XSDElement {
  el_XMLName : Name;
  el_Name : string;
  el_Doc : string;
  el_Nillable : bool;
  el_Type : string;
  el_Ref : string;
  el_MinOccurs : string;
  el_MaxOccurs : string;
  el_ComplexType : option XSDComplexType;
  el_SimpleType : option XSDSimpleType;
  el_Groups : list XSDGroup }
with XSDComplexType := Build_XSDComplexType {
  ct_XMLName : Name;
  ct_Abstract : bool;
  ct_Name : string;
  ct_Mixed : bool;
  ct_Sequence : list XSDElement;
  ct_Choice : list XSDElement;
  ct_All : list XSDElement;
  ct_ComplexContent : XSDComplexContent;
  ct_SimpleContent : XSDSimpleContent;
  ct_Attributes : list XSDAttribute;
  ct_Any : list XSDAny }
with XSDGroup := Build_XSDGroup {
  gr_Name : string;
  gr_Ref : string;
  gr_Sequence : list XSDElement;
  gr_Choice : list XSDElement;
  gr_All : list XSDElement }
with XSDComplexContent := Build_XSDComplexContent {
  cc_XMLName : Name;
  cc_Extension : XSDExtension }
with XSDSimpleContent := Build_XSDSimpleContent {
  sc_XMLName : Name;
  sc_Extension : XSDExtension }
with XSDExtension := Build_XSDExtension {
  ext_XMLName : Name;
  ext_Base : string;
  ext_Attributes : list XSDAttribute;
  ext_Sequence : list XSDElement;
  ext_Choice : list XSDElement;
  ext_SequenceChoice : list XSDElement }
with XSDAttribute := Build_XSDAttribute {
  at_Doc : string;
  at_Name : string;
  at_Ref : string;
  at_Type : string;
  at_Use : string;
  at_Fixed : string;
  at_SimpleType : option XSDSimpleType }
with XSDSimpleType := Build_XSDSimpleType {
  st_Name : string;
  st_Doc : string;
  st_Restriction : XSDRestriction;
  st_List : XSDList;
  st_Union : XSDUnion;
  st_Final : string }
with XSDList := Build_XSDList {
  li_Doc : string;
  li_ItemType : string;
  li_SimpleType : option XSDSimpleType }
with XSDUnion := Build_XSDUnion {
  un_SimpleType : list XSDSimpleType;
  un_MemberTypes : string }.

Record XSDChoiceType := {
  ch_XMLName : Name;
  ch_Name : string;
  ch_MinOccurs : string;
  ch_Elements : list XSDElement }.

Record XSDAllType := {
  all_XMLName : Name;
  all_Elements : list XSDElement }.

Record XSDSchema := {
  XMLName : Name;
  Xmlns : gmap string string;
  Tns : string;
  Xs : string;
  Version : string;
  TargetNamespace : string;
  ElementFormDefault : string;
  Includes : list XSDInclude;
  Imports : list XSDImport;
  Elements : list XSDElement;
  Attributes : list XSDAttribute;
  ComplexTypes : list XSDComplexType;
  SimpleType : list XSDSimpleType }.

(** The zero values that [new(T)] allocates. *)
Definition zero_XSDExtension : XSDExtension :=
  Build_XSDExtension zero_Name "" [] [] [] [].

Definition new_XSDComplexType : XSDComplexType :=
  Build_XSDComplexType zero_Name false "" false [] [] []
    (Build_XSDComplexContent zero_Name zero_XSDExtension)
    (Build_XSDSimpleContent zero_Name zero_XSDExtension) [] [].

Definition new_XSDElement : XSDElement :=
  Build_XSDElement zero_Name "" "" false "" "" "" "" None None [].

Definition new_XSDChoiceType : XSDChoiceType :=
  {| ch_XMLName := zero_Name; ch_Name := ""; ch_MinOccurs := "";
     ch_Elements := [] |}.

Definition new_XSDAllType : XSDAllType :=
  {| all_XMLName := zero_Name; all_Elements := [] |}.

Definition new_XSDSchema : XSDSchema :=
  {| XMLName := zero_Name; Xmlns := ∅; Tns := ""; Xs := ""; Version := "";
     TargetNamespace := ""; ElementFormDefault := ""; Includes := [];
     Imports := []; Elements := []; Attributes := []; ComplexTypes := [];
     SimpleType := [] |}.

(** Assignments to one field of a struct. *)
Definition el_set_MinOccurs (v : string) (x : XSDElement) : XSDElement :=
  Build_XSDElement (el_XMLName x) (el_Name x) (el_Doc x) (el_Nillable x)
    (el_Type x) (el_Ref x) v (el_MaxOccurs x) (el_ComplexType x)
    (el_SimpleType x) (el_Groups x).

Definition ct_set_XMLName (v : Name) (ct : XSDComplexType)
    : XSDComplexType :=
  Build_XSDComplexType v (ct_Abstract ct) (ct_Name ct) (ct_Mixed ct)
    (ct_Sequence ct) (ct_Choice ct) (ct_All ct) (ct_ComplexContent ct)
    (ct_SimpleContent ct) (ct_Attributes ct) (ct_Any ct).

Definition ct_set_Abstract (v : bool) (ct : XSDComplexType)
    : XSDComplexType :=
  Build_XSDComplexType (ct_XMLName ct) v (ct_Name ct) (ct_Mixed ct)
    (ct_Sequence ct) (ct_Choice ct) (ct_All ct) (ct_ComplexContent ct)
    (ct_SimpleContent ct) (ct_Attributes ct) (ct_Any ct).

Definition ct_set_Name (v : string) (ct : XSDComplexType)
    : XSDComplexType :=
  Build_XSDComplexType (ct_XMLName ct) (ct_Abstract ct) v (ct_Mixed ct)
    (ct_Sequence ct) (ct_Choice ct) (ct_All ct) (ct_ComplexContent ct)
    (ct_SimpleContent ct) (ct_Attributes ct) (ct_Any ct).

Definition ct_set_Mixed (v : bool) (ct : XSDComplexType)
    : XSDComplexType :=
  Build_XSDComplexType (ct_XMLName ct) (ct_Abstract ct) (ct_Name ct) v
    (ct_Sequence ct) (ct_Choice ct) (ct_All ct) (ct_ComplexContent ct)
    (ct_SimpleContent ct) (ct_Attributes ct) (ct_Any ct).

Definition ct_set_Sequence (v : list XSDElement) (ct : XSDComplexType)
    : XSDComplexType :=
  Build_XSDComplexType (ct_XMLName ct) (ct_Abstract ct) (ct_Name ct)
    (ct_Mixed ct)
    v (ct_Choice ct) (ct_All ct) (ct_ComplexContent ct)
    (ct_SimpleContent ct) (ct_Attributes ct) (ct_Any ct).

Definition ct_set_Choice (v : list XSDElement) (ct : XSDComplexType)
    : XSDComplexType :=
  Build_XSDComplexType (ct_XMLName ct) (ct_Abstract ct) (ct_Name ct)
    (ct_Mixed ct)
    (ct_Sequence ct) v (ct_All ct) (ct_ComplexContent ct)
    (ct_SimpleContent ct) (ct_Attributes ct) (ct_Any ct).

Definition ct_set_All (v : list XSDElement) (ct : XSDComplexType)
    : XSDComplexType :=
  Build_XSDComplexType (ct_XMLName ct) (ct_Abstract ct) (ct_Name ct)
    (ct_Mixed ct)
    (ct_Sequence ct) (ct_Choice ct) v (ct_ComplexContent ct)
    (ct_SimpleContent ct) (ct_Attributes ct) (ct_Any ct).

Definition ct_set_ComplexContent (v : XSDComplexContent) (ct : XSDComplexType)
    : XSDComplexType :=
  Build_XSDComplexType (ct_XMLName ct) (ct_Abstract ct) (ct_Name ct)
    (ct_Mixed ct)
    (ct_Sequence ct) (ct_Choice ct) (ct_All ct) v
    (ct_SimpleContent ct) (ct_Attributes ct) (ct_Any ct).

Definition ct_set_SimpleContent (v : XSDSimpleContent) (ct : XSDComplexType)
    : XSDComplexType :=
  Build_XSDComplexType (ct_XMLName ct) (ct_Abstract ct) (ct_Name ct)
    (ct_Mixed ct)
    (ct_Sequence ct) (ct_Choice ct) (ct_All ct) (ct_ComplexContent ct)
    v (ct_Attributes ct) (ct_Any ct).

Definition ct_set_Attributes (v : list XSDAttribute) (ct : XSDComplexType)
    : XSDComplexType :=
  Build_XSDComplexType (ct_XMLName ct) (ct_Abstract ct) (ct_Name ct)
    (ct_Mixed ct)
    (ct_Sequence ct) (ct_Choice ct) (ct_All ct) (ct_ComplexContent ct)
    (ct_SimpleContent ct) v (ct_Any ct).

Definition ct_set_Any (v : list XSDAny) (ct : XSDComplexType)
    : XSDComplexType :=
  Build_XSDComplexType (ct_XMLName ct) (ct_Abstract ct) (ct_Name ct)
    (ct_Mixed ct)
    (ct_Sequence ct) (ct_Choice ct) (ct_All ct) (ct_ComplexContent ct)
    (ct_SimpleContent ct) (ct_Attributes ct) v.

Definition set_XMLName (v : Name) (s : XSDSchema)
    : XSDSchema :=
  {| XMLName := v; Xmlns := Xmlns s; Tns := Tns s; Xs := Xs s;
     Version := Version s; TargetNamespace := TargetNamespace s;
     ElementFormDefault := ElementFormDefault s; Includes := Includes s;
     Imports := Imports s; Elements := Elements s; Attributes := Attributes s;
     ComplexTypes := ComplexTypes s; SimpleType := SimpleType s |}.

Definition set_Xmlns (v : gmap string string) (s : XSDSchema)
    : XSDSchema :=
  {| XMLName := XMLName s; Xmlns := v; Tns := Tns s; Xs := Xs s;
     Version := Version s; TargetNamespace := TargetNamespace s;
     ElementFormDefault := ElementFormDefault s; Includes := Includes s;
     Imports := Imports s; Elements := Elements s; Attributes := Attributes s;
     ComplexTypes := ComplexTypes s; SimpleType := SimpleType s |}.

Definition set_Version (v : string) (s : XSDSchema)
    : XSDSchema :=
  {| XMLName := XMLName s; Xmlns := Xmlns s; Tns := Tns s; Xs := Xs s;
     Version := v; TargetNamespace := TargetNamespace s;
     ElementFormDefault := ElementFormDefault s; Includes := Includes s;
     Imports := Imports s; Elements := Elements s; Attributes := Attributes s;
     ComplexTypes := ComplexTypes s; SimpleType := SimpleType s |}.

Definition set_TargetNamespace (v : string) (s : XSDSchema)
    : XSDSchema :=
  {| XMLName := XMLName s; Xmlns := Xmlns s; Tns := Tns s; Xs := Xs s;
     Version := Version s; TargetNamespace := v;
     ElementFormDefault := ElementFormDefault s; Includes := Includes s;
     Imports := Imports s; Elements := Elements s; Attributes := Attributes s;
     ComplexTypes := ComplexTypes s; SimpleType := SimpleType s |}.

Definition set_ElementFormDefault (v : string) (s : XSDSchema)
    : XSDSchema :=
  {| XMLName := XMLName s; Xmlns := Xmlns s; Tns := Tns s; Xs := Xs s;
     Version := Version s; TargetNamespace := TargetNamespace s;
     ElementFormDefault := v; Includes := Includes s;
     Imports := Imports s; Elements := Elements s; Attributes := Attributes s;
     ComplexTypes := ComplexTypes s; SimpleType := SimpleType s |}.

Definition set_Includes (v : list XSDInclude) (s : XSDSchema)
    : XSDSchema :=
  {| XMLName := XMLName s; Xmlns := Xmlns s; Tns := Tns s; Xs := Xs s;
     Version := Version s; TargetNamespace := TargetNamespace s;
     ElementFormDefault := ElementFormDefault s; Includes := v;
     Imports := Imports s; Elements := Elements s; Attributes := Attributes s;
     ComplexTypes := ComplexTypes s; SimpleType := SimpleType s |}.

Definition set_Imports (v : list XSDImport) (s : XSDSchema)
    : XSDSchema :=
  {| XMLName := XMLName s; Xmlns := Xmlns s; Tns := Tns s; Xs := Xs s;
     Version := Version s; TargetNamespace := TargetNamespace s;
     ElementFormDefault := ElementFormDefault s; Includes := Includes s;
     Imports := v; Elements := Elements s; Attributes := Attributes s;
     ComplexTypes := ComplexTypes s; SimpleType := SimpleType s |}.

Definition set_Elements (v : list XSDElement) (s : XSDSchema)
    : XSDSchema :=
  {| XMLName := XMLName s; Xmlns := Xmlns s; Tns := Tns s; Xs := Xs s;
     Version := Version s; TargetNamespace := TargetNamespace s;
     ElementFormDefault := ElementFormDefault s; Includes := Includes s;
     Imports := Imports s; Elements := v; Attributes := Attributes s;
     ComplexTypes := ComplexTypes s; SimpleType := SimpleType s |}.

Definition set_Attributes (v : list XSDAttribute) (s : XSDSchema)
    : XSDSchema :=
  {| XMLName := XMLName s; Xmlns := Xmlns s; Tns := Tns s; Xs := Xs s;
     Version := Version s; TargetNamespace := TargetNamespace s;
     ElementFormDefault := ElementFormDefault s; Includes := Includes s;
     Imports := Imports s; Elements := Elements s; Attributes := v;
     ComplexTypes := ComplexTypes s; SimpleType := SimpleType s |}.

Definition set_ComplexTypes (v : list XSDComplexType) (s : XSDSchema)
    : XSDSchema :=
  {| XMLName := XMLName s; Xmlns := Xmlns s; Tns := Tns s; Xs := Xs s;
     Version := Version s; TargetNamespace := TargetNamespace s;
     ElementFormDefault := ElementFormDefault s; Includes := Includes s;
     Imports := Imports s; Elements := Elements s; Attributes := Attributes s;
     ComplexTypes := v; SimpleType := SimpleType s |}.

Definition set_SimpleType (v : list XSDSimpleType) (s : XSDSchema)
    : XSDSchema :=
  {| XMLName := XMLName s; Xmlns := Xmlns s; Tns := Tns s; Xs := Xs s;
     Version := Version s; TargetNamespace := TargetNamespace s;
     ElementFormDefault := ElementFormDefault s; Includes := Includes s;
     Imports := Imports s; Elements := Elements s; Attributes := Attributes s;
     ComplexTypes := ComplexTypes s; SimpleType := v |}.

(** ** Errors and results *)

Inductive error :=
| io_EOF
| SyntaxError (msg : string)
| UnmarshalError (msg : string)
| IOError (msg : string)
| Errorf (msg : string).

(** The outcome of a Go function that returns [(value, error)].  The loops
    of the source have no bound of their own: the embedding gives them
    fuel, and [OutOfFuel] is the embedding's outcome, not a Go error. *)
Inductive result (A : Type) :=
| Ok (a : A)
| Err (e : error)
| OutOfFuel.

Arguments Ok {A} a.
Arguments Err {A} e.
Arguments OutOfFuel {A}.

(** ** [xml.Decoder] as the source drives it

    The decoder is the tokens still to be read and the error [Token]
    returns once they are used up: [io.EOF] at the end of a document, a
    syntax error where the bytes stop being well-formed.  Name spaces are
    already resolved in the tokens, as [Token] does. *)
Record Decoder := { d_toks : list Token; d_err : error }.

Definition Token_ (d : Decoder) : result (Token * Decoder) :=
  match d_toks d with
  | [] => Err (d_err d)
  | t :: r => Ok (t, {| d_toks := r; d_err := d_err d |})
  end.

(** [Skip]: read tokens up to the end element that closes the start
    element read last. *)
Fixpoint skip_toks (depth : nat) (toks : list Token) : option (list Token) :=
  match toks with
  | [] => None
  | TStartElement _ :: r => skip_toks (S depth) r
  | TEndElement _ :: r =>
      match depth with
      | O => Some r
      | S k => skip_toks k r
      end
  | _ :: r => skip_toks depth r
  end.

Definition Skip (d : Decoder) : option error * Decoder :=
  match skip_toks O (d_toks d) with
  | Some r => (None, {| d_toks := r; d_err := d_err d |})
  | None => (Some (d_err d), {| d_toks := []; d_err := d_err d |})
  end.

(** The decoder that goes on with the tokens [r]. *)
Definition unread (d : Decoder) (r : list Token) : Decoder :=
  {| d_toks := r; d_err := d_err d |}.

(** [d.DecodeElement(new(T), &t)] for the structs that [encoding/xml]
    fills in by reflection from their field tags.  That decoder is the
    standard library's; the hand-written decoders below call it through
    this interface: from the start element and the decoder, the value
    and the tokens left unread. *)
Class ReflectDecoders := {
  decode_XSDInclude :
    StartElement -> Decoder -> result (XSDInclude * list Token);
  decode_XSDImport :
    StartElement -> Decoder -> result (XSDImport * list Token);
  decode_XSDElement :
    StartElement -> Decoder -> result (XSDElement * list Token);
  decode_XSDAttribute :
    StartElement -> Decoder -> result (XSDAttribute * list Token);
  decode_XSDSimpleType :
    StartElement -> Decoder -> result (XSDSimpleType * list Token);
  decode_XSDAny :
    StartElement -> Decoder -> result (XSDAny * list Token);
  decode_XSDComplexContent :
    StartElement -> Decoder -> result (XSDComplexContent * list Token);
  decode_XSDSimpleContent :
    StartElement -> Decoder -> result (XSDSimpleContent * list Token)
}.

Section Decoding.
Context `{ReflectDecoders}.

(** The reflection decoder on [XSDChoiceType] and [XSDAllType], whose one
    element field is [Elements []*XSDElement `xml:"element"`]: a child
    whose local name is [element] is decoded and appended, any other
    child is skipped, character data and comments are dropped. *)
Fixpoint decode_element_children (fuel : nat) (acc : list XSDElement)
    (d : Decoder) : result (list XSDElement * Decoder) :=
  match fuel with
  | O => OutOfFuel
  | S fuel =>
      match Token_ d with
      | Err e => Err e
      | OutOfFuel => OutOfFuel
      | Ok (TStartElement t, d) =>
          if String.eqb (Local (se_Name t)) "element" then
            match decode_XSDElement t d with
            | Ok (x, r) =>
                decode_element_children fuel (acc ++ [x]) (unread d r)
            | Err e => Err e
            | OutOfFuel => OutOfFuel
            end
          else
            match Skip d with
            | (Some e, _) => Err e
            | (None, d) => decode_element_children fuel acc d
            end
      | Ok (TEndElement _, d) => Ok (acc, d)
      | Ok (_, d) => decode_element_children fuel acc d
      end
  end.

(** The name check of the reflection decoder on a struct whose [XMLName]
    field carries a name in its tag. *)
Definition check_XMLName (expected : string) (start : StartElement)
    : option error :=
  if String.eqb expected (Local (se_Name start)) then None
  else Some (UnmarshalError
               ("expected element type <" +:+ expected +:+ "> but have <"
                +:+ Local (se_Name start) +:+ ">")).

Definition choice_attr (x : XSDChoiceType) (a : Attr) : XSDChoiceType :=
  let x :=
    if String.eqb (Local (attr_Name a)) "name"
    then {| ch_XMLName := ch_XMLName x; ch_Name := attr_Value a;
            ch_MinOccurs := ch_MinOccurs x; ch_Elements := ch_Elements x |}
    else x in
  if String.eqb (Local (attr_Name a)) "minOccurs"
  then {| ch_XMLName := ch_XMLName x; ch_Name := ch_Name x;
          ch_MinOccurs := attr_Value a; ch_Elements := ch_Elements x |}
  else x.

Definition DecodeElement_XSDChoiceType (fuel : nat) (start : StartElement)
    (d : Decoder) : result (XSDChoiceType * Decoder) :=
  match check_XMLName "choice" start with
  | Some e => Err e
  | None =>
      let x :=
        {| ch_XMLName := se_Name start; ch_Name := ""; ch_MinOccurs := "";
           ch_Elements := [] |} in
      let x := fold_left choice_attr (se_Attr start) x in
      match decode_element_children fuel [] d with
      | Ok (els, d) =>
          Ok ({| ch_XMLName := ch_XMLName x; ch_Name := ch_Name x;
                 ch_MinOccurs := ch_MinOccurs x; ch_Elements := els |}, d)
      | Err e => Err e
      | OutOfFuel => OutOfFuel
      end
  end.

Definition DecodeElement_XSDAllType (fuel : nat) (start : StartElement)
    (d : Decoder) : result (XSDAllType * Decoder) :=
  match check_XMLName "all" start with
  | Some e => Err e
  | None =>
      match decode_element_children fuel [] d with
      | Ok (els, d) =>
          Ok ({| all_XMLName := se_Name start; all_Elements := els |}, d)
      | Err e => Err e
      | OutOfFuel => OutOfFuel
      end
  end.

(** *** [unmarshalChoice] *)
Definition unmarshalChoice (fuel : nat) (start : StartElement) (d : Decoder)
    : result (list XSDElement * Decoder) :=
  match DecodeElement_XSDChoiceType fuel start d with
  | Err e => Err e
  | OutOfFuel => OutOfFuel
  | Ok (x, d) =>
      let elements :=
        if negb (String.eqb (ch_MinOccurs x) "")
        then map (el_set_MinOccurs (ch_MinOccurs x)) (ch_Elements x)
        else ch_Elements x in
      Ok (elements, d)
  end.

(** *** [unmarshalSequence] *)
Fixpoint unmarshalSequence (fuel : nat) (start : StartElement)
    (ct : XSDComplexType) (d : Decoder) : result (XSDComplexType * Decoder) :=
  match fuel with
  | O => OutOfFuel
  | S fuel =>
      match Token_ d with
      | Err e => Err e
      | OutOfFuel => OutOfFuel
      | Ok (TStartElement t, d) =>
          if negb (String.eqb (Space (se_Name t)) xmlschema11) then
            unmarshalSequence fuel start ct (snd (Skip d))
          else if String.eqb (Local (se_Name t)) "element" then
            match decode_XSDElement t d with
            | Err e => Err e
            | OutOfFuel => OutOfFuel
            | Ok (x, r) =>
                unmarshalSequence fuel start
                  (ct_set_Sequence (ct_Sequence ct ++ [x]) ct) (unread d r)
            end
          else if String.eqb (Local (se_Name t)) "choice" then
            match unmarshalChoice fuel t d with
            | Err e => Err e
            | OutOfFuel => OutOfFuel
            | Ok (choiceElements, d) =>
                unmarshalSequence fuel start
                  (ct_set_Sequence (ct_Sequence ct ++ choiceElements) ct) d
            end
          else if String.eqb (Local (se_Name t)) "any" then
            match decode_XSDAny t d with
            | Err e => Err e
            | OutOfFuel => OutOfFuel
            | Ok (x, r) =>
                unmarshalSequence fuel start (ct_set_Any (ct_Any ct ++ [x]) ct)
                  (unread d r)
            end
          else unmarshalSequence fuel start ct (snd (Skip d))
      | Ok (TEndElement _, d) => Ok (ct, d)
      | Ok (_, d) => unmarshalSequence fuel start ct d
      end
  end.

(** *** [XSDComplexType.UnmarshalXML] *)
Definition complexType_attr (ct : XSDComplexType) (a : Attr) : XSDComplexType :=
  if String.eqb (Local (attr_Name a)) "mixed"
  then ct_set_Mixed (String.eqb (attr_Value a) "true") ct
  else if String.eqb (Local (attr_Name a)) "name"
  then ct_set_Name (attr_Value a) ct
  else if String.eqb (Local (attr_Name a)) "abstract"
  then ct_set_Abstract (String.eqb (attr_Value a) "true") ct
  else ct.

(** The loop of [UnmarshalXML]; [start] is the start element the method
    was called with, which the branch for [all] hands to [DecodeElement]. *)
Fixpoint complexType_loop (fuel : nat) (start : StartElement)
    (ct : XSDComplexType) (d : Decoder) : result (XSDComplexType * Decoder) :=
  match fuel with
  | O => OutOfFuel
  | S fuel =>
      match Token_ d with
      | Err e => Err e
      | OutOfFuel => OutOfFuel
      | Ok (TStartElement t, d) =>
          if negb (String.eqb (Space (se_Name t)) xmlschema11) then
            complexType_loop fuel start ct (snd (Skip d))
          else if String.eqb (Local (se_Name t)) "attribute" then
            match decode_XSDAttribute t d with
            | Err e => Err e
            | OutOfFuel => OutOfFuel
            | Ok (x, r) =>
                complexType_loop fuel start
                  (ct_set_Attributes (ct_Attributes ct ++ [x]) ct) (unread d r)
            end
          else if String.eqb (Local (se_Name t)) "sequence" then
            match unmarshalSequence fuel t ct d with
            | Err e => Err e
            | OutOfFuel => OutOfFuel
            | Ok (ct, d) => complexType_loop fuel start ct d
            end
          else if String.eqb (Local (se_Name t)) "choice" then
            match unmarshalChoice fuel t d with
            | Err e => Err e
            | OutOfFuel => OutOfFuel
            | Ok (choiceElements, d) =>
                complexType_loop fuel start
                  (ct_set_Choice (ct_Choice ct ++ choiceElements) ct) d
            end
          else if String.eqb (Local (se_Name t)) "all" then
            match DecodeElement_XSDAllType fuel start d with
            | Err e => Err e
            | OutOfFuel => OutOfFuel
            | Ok (x, d) =>
                complexType_loop fuel start
                  (ct_set_All (ct_All ct ++ all_Elements x) ct) d
            end
          else if String.eqb (Local (se_Name t)) "complexContent" then
            match decode_XSDComplexContent t d with
            | Err e => Err e
            | OutOfFuel => OutOfFuel
            | Ok (x, r) =>
                complexType_loop fuel start (ct_set_ComplexContent x ct)
                  (unread d r)
            end
          else if String.eqb (Local (se_Name t)) "simpleContent" then
            match decode_XSDSimpleContent t d with
            | Err e => Err e
            | OutOfFuel => OutOfFuel
            | Ok (x, r) =>
                complexType_loop fuel start (ct_set_SimpleContent x ct)
                  (unread d r)
            end
          else complexType_loop fuel start ct (snd (Skip d))
      | Ok (TEndElement _, d) => Ok (ct, d)
      | Ok (_, d) => complexType_loop fuel start ct d
      end
  end.

Definition XSDComplexType_UnmarshalXML (fuel : nat) (ct : XSDComplexType)
    (start : StartElement) (d : Decoder) : result (XSDComplexType * Decoder) :=
  let ct := ct_set_XMLName (se_Name start) ct in
  let ct := fold_left complexType_attr (se_Attr start) ct in
  complexType_loop fuel start ct d.

(** [d.DecodeElement(new(XSDComplexType), &t)]: the type has its own
    [UnmarshalXML], which the library calls.  (The library also checks,
    after the call, that the method read the whole element; the method
    returns [nil] only from the end element that its loop meets, which
    is the one of its element whenever the children were read whole.) *)
Definition DecodeElement_XSDComplexType (fuel : nat) (t : StartElement)
    (d : Decoder) : result (XSDComplexType * Decoder) :=
  XSDComplexType_UnmarshalXML fuel new_XSDComplexType t d.

(** *** [XSDSchema.UnmarshalXML] *)
Definition schema_attr (s : XSDSchema) (a : Attr) : XSDSchema :=
  if String.eqb (Space (attr_Name a)) "xmlns"
  then set_Xmlns (<[Local (attr_Name a) := attr_Value a]> (Xmlns s)) s
  else if String.eqb (Local (attr_Name a)) "version"
  then set_Version (attr_Value a) s
  else if String.eqb (Local (attr_Name a)) "targetNamespace"
  then set_TargetNamespace (attr_Value a) s
  else if String.eqb (Local (attr_Name a)) "elementFormDefault"
  then set_ElementFormDefault (attr_Value a) s
  else s.

Fixpoint schema_loop (fuel : nat) (s : XSDSchema) (d : Decoder)
    : result (XSDSchema * Decoder) :=
  match fuel with
  | O => OutOfFuel
  | S fuel =>
      match Token_ d with
      | Err e => Err e
      | OutOfFuel => OutOfFuel
      | Ok (TStartElement t, d) =>
          if negb (String.eqb (Space (se_Name t)) xmlschema11) then
            schema_loop fuel s (snd (Skip d))
          else if String.eqb (Local (se_Name t)) "include" then
            match decode_XSDInclude t d with
            | Err e => Err e
            | OutOfFuel => OutOfFuel
            | Ok (x, r) =>
                schema_loop fuel (set_Includes (Includes s ++ [x]) s) (unread d r)
            end
          else if String.eqb (Local (se_Name t)) "import" then
            match decode_XSDImport t d with
            | Err e => Err e
            | OutOfFuel => OutOfFuel
            | Ok (x, r) =>
                schema_loop fuel (set_Imports (Imports s ++ [x]) s) (unread d r)
            end
          else if String.eqb (Local (se_Name t)) "element" then
            match decode_XSDElement t d with
            | Err e => Err e
            | OutOfFuel => OutOfFuel
            | Ok (x, r) =>
                schema_loop fuel (set_Elements (Elements s ++ [x]) s) (unread d r)
            end
          else if String.eqb (Local (se_Name t)) "attribute" then
            match decode_XSDAttribute t d with
            | Err e => Err e
            | OutOfFuel => OutOfFuel
            | Ok (x, r) =>
                schema_loop fuel (set_Attributes (Attributes s ++ [x]) s)
                  (unread d r)
            end
          else if String.eqb (Local (se_Name t)) "complexType" then
            match DecodeElement_XSDComplexType fuel t d with
            | Err e => Err e
            | OutOfFuel => OutOfFuel
            | Ok (x, d) =>
                schema_loop fuel (set_ComplexTypes (ComplexTypes s ++ [x]) s) d
            end
          else if String.eqb (Local (se_Name t)) "simpleType" then
            match decode_XSDSimpleType t d with
            | Err e => Err e
            | OutOfFuel => OutOfFuel
            | Ok (x, r) =>
                schema_loop fuel (set_SimpleType (SimpleType s ++ [x]) s)
                  (unread d r)
            end
          else schema_loop fuel s (snd (Skip d))
      | Ok (TEndElement _, d) => Ok (s, d)
      | Ok (_, d) => schema_loop fuel s d
      end
  end.

Definition XSDSchema_UnmarshalXML (fuel : nat) (s : XSDSchema)
    (start : StartElement) (d : Decoder) : result (XSDSchema * Decoder) :=
  let s := set_Xmlns ∅ s in
  let s := set_XMLName (se_Name start) s in
  let s := fold_left schema_attr (se_Attr start) s in
  schema_loop fuel s d.

(** [xml.Unmarshal(data, new(XSDSchema))], on the tokens of [data]: the
    first start element is handed to [UnmarshalXML]. *)
Fixpoint Unmarshal_XSDSchema_from (fuel : nat) (toks : list Token) (err : error)
    : result XSDSchema :=
  match toks with
  | [] => Err err
  | TStartElement t :: r =>
      match XSDSchema_UnmarshalXML fuel new_XSDSchema t
              {| d_toks := r; d_err := err |} with
      | Ok (s, _) => Ok s
      | Err e => Err e
      | OutOfFuel => OutOfFuel
      end
  | _ :: r => Unmarshal_XSDSchema_from fuel r err
  end.

Definition xml_Unmarshal_XSDSchema (d : Decoder) : result XSDSchema :=
  Unmarshal_XSDSchema_from (S (List.length (d_toks d))) (d_toks d) (d_err d).

End Decoding.

(** A [ReflectDecoders] for elements without element content, on which
    the reflection decoder reads the attributes named in the field tags
    and then reads up to the end element; used to run the decoders on
    such documents.  [nillable] is a [bool] field: the library parses it
    with [strconv.ParseBool]. *)
Definition attr_of (attrs : list Attr) (local : string) : string :=
  fold_left (fun v a => if String.eqb (Local (attr_Name a)) local
                        then attr_Value a else v) attrs "".

Definition ParseBool (s : string) : option bool :=
  if existsb (String.eqb s) ["1"; "t"; "T"; "TRUE"; "true"; "True"]
  then Some true
  else if existsb (String.eqb s) ["0"; "f"; "F"; "FALSE"; "false"; "False"]
  then Some false
  else None.

Definition to_end {A : Type} (x : A) (d : Decoder) : result (A * list Token) :=
  match Skip d with
  | (None, d) => Ok (x, d_toks d)
  | (Some e, _) => Err e
  end.

Definition leaf_XSDElement (t : StartElement) (d : Decoder)
    : result (XSDElement * list Token) :=
  let a := attr_of (se_Attr t) in
  let nillable :=
    if String.eqb (a "nillable") "" then Some false
    else ParseBool (a "nillable") in
  match nillable with
  | None => Err (Errorf "strconv.ParseBool: invalid syntax")
  | Some b =>
      to_end (Build_XSDElement (se_Name t) (a "name") "" b (a "type") (a "ref")
                (a "minOccurs") (a "maxOccurs") None None []) d
  end.

Definition empty_value : XSDRestrictionValue :=
  {| rv_Doc := ""; rv_Value := "" |}.

Definition leaf_decoders : ReflectDecoders := {|
  decode_XSDInclude t d :=
    to_end {| incl_SchemaLocation := attr_of (se_Attr t) "schemaLocation" |} d;
  decode_XSDImport t d :=
    to_end {| imp_XMLName := se_Name t;
              imp_SchemaLocation := attr_of (se_Attr t) "schemaLocation";
              imp_Namespace := attr_of (se_Attr t) "namespace" |} d;
  decode_XSDElement := leaf_XSDElement;
  decode_XSDAttribute t d :=
    let a := attr_of (se_Attr t) in
    to_end (Build_XSDAttribute "" (a "name") (a "ref") (a "type") (a "use")
              (a "fixed") None) d;
  decode_XSDSimpleType t d :=
    to_end (Build_XSDSimpleType (attr_of (se_Attr t) "name") ""
              {| res_Base := ""; res_Enumeration := [];
                 res_Pattern := empty_value; res_MinInclusive := empty_value;
                 res_MaxInclusive := empty_value; res_WhiteSpace := empty_value;
                 res_Length := empty_value; res_MinLength := empty_value;
                 res_MaxLength := empty_value |}
              (Build_XSDList "" "" None) (Build_XSDUnion [] "") "") d;
  decode_XSDAny t d :=
    let a := attr_of (se_Attr t) in
    to_end {| any_XMLName := se_Name t; any_Doc := "";
              any_MinOccurs := a "minOccurs"; any_MaxOccurs := a "maxOccurs";
              any_Namespace := a "namespace";
              any_ProcessContents := a "processContents" |} d;
  decode_XSDComplexContent t d :=
    to_end (Build_XSDComplexContent (se_Name t) zero_XSDExtension) d;
  decode_XSDSimpleContent t d :=
    to_end (Build_XSDSimpleContent (se_Name t) zero_XSDExtension) d
|}.

(** ** The generator ([gowsdl.go]) *)

Definition bytes := string.

(** Modelled from the spec: [Location], whose declaration ([location.go])
    is not among the sources; "an opaque reference to a schema document,
    either a local path or a URL".  [fetchFile] reads its fields [f], the
    path, empty for a URL, and [u], here the text [loc.u.String()]. *)
Record Location := { loc_f : string; loc_u : string }.

(** Modelled from the spec: [WSDL], whose declaration ([wsdl.go]) is not
    among the sources; of the decoded service description the functions
    below use [Types.Schemas], the schema documents of the working set. *)
Record WSDL := { Types_Schemas : list XSDSchema }.

Definition maxRecursion : Z := 20.

(** [currentRecursionLevel] is a [uint8]; [makePublicFn] is the function
    [NewGoWSDL] chooses from [exportAllTypes], kept here as that flag. *)
Record GoWSDL := {
  loc : Location;
  rawWSDL : bytes;
  pkg : string;
  ignoreTLS : bool;
  exportAllTypes : bool;
  wsdl : option WSDL;
  resolvedXSDExternals : option (gmap string bool);
  currentRecursionLevel : Z;
  currentNamespace : string;
  currentNamespaceMap : gmap string string;
  nsToPkg : gmap string string;
  pkgBaseURL : string;
  imports : gmap string (list string) }.

Definition set_rawWSDL (v : bytes) (g : GoWSDL) : GoWSDL :=
  {| loc := loc g; rawWSDL := v; pkg := pkg g; ignoreTLS := ignoreTLS g;
     exportAllTypes := exportAllTypes g; wsdl := wsdl g;
     resolvedXSDExternals := resolvedXSDExternals g;
     currentRecursionLevel := currentRecursionLevel g;
     currentNamespace := currentNamespace g;
     currentNamespaceMap := currentNamespaceMap g; nsToPkg := nsToPkg g;
     pkgBaseURL := pkgBaseURL g; imports := imports g |}.

Definition set_wsdl (v : option WSDL) (g : GoWSDL) : GoWSDL :=
  {| loc := loc g; rawWSDL := rawWSDL g; pkg := pkg g; ignoreTLS := ignoreTLS g;
     exportAllTypes := exportAllTypes g; wsdl := v;
     resolvedXSDExternals := resolvedXSDExternals g;
     currentRecursionLevel := currentRecursionLevel g;
     currentNamespace := currentNamespace g;
     currentNamespaceMap := currentNamespaceMap g; nsToPkg := nsToPkg g;
     pkgBaseURL := pkgBaseURL g; imports := imports g |}.

Definition set_resolvedXSDExternals (v : option (gmap string bool)) (g : GoWSDL)
    : GoWSDL :=
  {| loc := loc g; rawWSDL := rawWSDL g; pkg := pkg g; ignoreTLS := ignoreTLS g;
     exportAllTypes := exportAllTypes g; wsdl := wsdl g;
     resolvedXSDExternals := v;
     currentRecursionLevel := currentRecursionLevel g;
     currentNamespace := currentNamespace g;
     currentNamespaceMap := currentNamespaceMap g; nsToPkg := nsToPkg g;
     pkgBaseURL := pkgBaseURL g; imports := imports g |}.

Definition set_currentRecursionLevel (v : Z) (g : GoWSDL) : GoWSDL :=
  {| loc := loc g; rawWSDL := rawWSDL g; pkg := pkg g; ignoreTLS := ignoreTLS g;
     exportAllTypes := exportAllTypes g; wsdl := wsdl g;
     resolvedXSDExternals := resolvedXSDExternals g;
     currentRecursionLevel := v;
     currentNamespace := currentNamespace g;
     currentNamespaceMap := currentNamespaceMap g; nsToPkg := nsToPkg g;
     pkgBaseURL := pkgBaseURL g; imports := imports g |}.

Definition set_currentNamespace (v : string) (g : GoWSDL) : GoWSDL :=
  {| loc := loc g; rawWSDL := rawWSDL g; pkg := pkg g; ignoreTLS := ignoreTLS g;
     exportAllTypes := exportAllTypes g; wsdl := wsdl g;
     resolvedXSDExternals := resolvedXSDExternals g;
     currentRecursionLevel := currentRecursionLevel g;
     currentNamespace := v;
     currentNamespaceMap := currentNamespaceMap g; nsToPkg := nsToPkg g;
     pkgBaseURL := pkgBaseURL g; imports := imports g |}.

Definition set_currentNamespaceMap (v : gmap string string) (g : GoWSDL) : GoWSDL :=
  {| loc := loc g; rawWSDL := rawWSDL g; pkg := pkg g; ignoreTLS := ignoreTLS g;
     exportAllTypes := exportAllTypes g; wsdl := wsdl g;
     resolvedXSDExternals := resolvedXSDExternals g;
     currentRecursionLevel := currentRecursionLevel g;
     currentNamespace := currentNamespace g;
     currentNamespaceMap := v; nsToPkg := nsToPkg g;
     pkgBaseURL := pkgBaseURL g; imports := imports g |}.

Definition set_imports (v : gmap string (list string)) (g : GoWSDL) : GoWSDL :=
  {| loc := loc g; rawWSDL := rawWSDL g; pkg := pkg g; ignoreTLS := ignoreTLS g;
     exportAllTypes := exportAllTypes g; wsdl := wsdl g;
     resolvedXSDExternals := resolvedXSDExternals g;
     currentRecursionLevel := currentRecursionLevel g;
     currentNamespace := currentNamespace g;
     currentNamespaceMap := currentNamespaceMap g; nsToPkg := nsToPkg g;
     pkgBaseURL := pkgBaseURL g; imports := v |}.

(** The generator [NewGoWSDL] returns, for a location already parsed and
    a package name already trimmed and defaulted. *)
Definition NewGoWSDL (r : Location) (pkg : string) (nsToPkg : gmap string string)
    (pkgBaseURL : string) (ignoreTLS exportAllTypes : bool) : GoWSDL :=
  {| loc := r; rawWSDL := ""; pkg := pkg; ignoreTLS := ignoreTLS;
     exportAllTypes := exportAllTypes; wsdl := None;
     resolvedXSDExternals := None; currentRecursionLevel := 0;
     currentNamespace := ""; currentNamespaceMap := ∅; nsToPkg := nsToPkg;
     pkgBaseURL := pkgBaseURL; imports := ∅ |}.

Definition setNS (g : GoWSDL) (ns : string) : string * GoWSDL :=
  (ns, set_currentNamespace ns g).

Definition getNS (g : GoWSDL) : string := currentNamespace g.

Definition setNSMap (g : GoWSDL) (nsMap : gmap string string)
    : gmap string string * GoWSDL :=
  (nsMap, set_currentNamespaceMap nsMap g).

Definition getNSFromMap (g : GoWSDL) (prefix : string) : string :=
  match currentNamespaceMap g !! prefix with
  | Some result => result
  | None => ""
  end.

Definition getNSPackage (g : GoWSDL) (ns : string) : string :=
  match nsToPkg g !! ns with
  | Some result => result
  | None => ""
  end.

(** [len(g.nsToPkg) > 0 && g.getNSPackage(ns) == ""] *)
Definition unmapped (g : GoWSDL) (ns : string) : bool :=
  (0 <? Z.of_nat (size (nsToPkg g))) && String.eqb (getNSPackage g ns) "".

Definition no_package_mapping (ns : string) : error :=
  Errorf ("no package mapping for namespace " +:+ ns).

(** *** What a run prints and does

    The lines the resolver writes with [log], in order, and, for the
    properties that count them, two marks the program does not print:
    [Decoded], after [xml.Unmarshal] filled in the schema fetched under a
    key, and [Recursed], at a call of [resolveXSDExternals] from within
    [download]. *)
Inductive Event :=
| LogReading (file : string)
| LogDownloading (url : string)
| LogResolving (ns : string)
| LogWarnNoLocation (ns : string)
| LogAdding (ns : string)
| Decoded (key : string) (s : XSDSchema)
| Recursed (key : string).

(** A computation on the generator: its state and what was logged. *)
Definition state : Type := GoWSDL * list Event.

Definition M (A : Type) : Type := state -> result A * state.

Definition ret {A} (a : A) : M A := fun st => (Ok a, st).
Definition fail {A} (e : error) : M A := fun st => (Err e, st).
Definition out_of_fuel {A} : M A := fun st => (OutOfFuel, st).

Definition bind {A B} (c : M A) (k : A -> M B) : M B :=
  fun st =>
    match c st with
    | (Ok a, st) => k a st
    | (Err e, st) => (Err e, st)
    | (OutOfFuel, st) => (OutOfFuel, st)
    end.

Notation "x <- c ;; k" := (bind c (fun x => k))
  (at level 100, c at next level, right associativity).
Notation "c ;;; k" := (bind c (fun _ => k))
  (at level 100, right associativity).

Definition get : M GoWSDL := fun st => (Ok (fst st), st).
Definition modify (f : GoWSDL -> GoWSDL) : M unit :=
  fun st => (Ok tt, (f (fst st), snd st)).
Definition emit (e : Event) : M unit :=
  fun st => (Ok tt, (fst st, snd st ++ [e])).
Definition lift {A} (r : A + error) : M A :=
  match r with
  | inl a => ret a
  | inr e => fail e
  end.

Section Resolver.

(** [Location.Parse] and [Location.String] ([location.go], not among the
    sources), the file system and the network behind [fetchFile], and
    [xml.Unmarshal] on the bytes of a document. *)
Variable Location_Parse : Location -> string -> Location + error.
Variable Location_String : Location -> string.
Variable ioutil_ReadFile : string -> bytes + error.
Variable downloadFile : string -> bool -> bytes + error.
Variable Unmarshal_WSDL : bytes -> WSDL + error.
Variable Unmarshal_XSDSchema : bytes -> XSDSchema + error.

Definition fetchFile (l : Location) : M bytes :=
  if negb (String.eqb (loc_f l) "") then
    emit (LogReading (loc_f l)) ;;;
    lift (ioutil_ReadFile (loc_f l))
  else
    emit (LogDownloading (loc_u l)) ;;;
    g <- get ;;
    lift (downloadFile (loc_u l) (ignoreTLS g)).

(** [g.resolvedXSDExternals[key]], also on the [nil] map *)
Definition resolved (g : GoWSDL) (key : string) : bool :=
  match resolvedXSDExternals g with
  | Some m => match m !! key with Some b => b | None => false end
  | None => false
  end.

Definition mark_resolved (key : string) (g : GoWSDL) : GoWSDL :=
  let m := match resolvedXSDExternals g with
           | None => ∅
           | Some m => m
           end in
  set_resolvedXSDExternals (Some (<[key := true]> m)) g.

(** [g.currentRecursionLevel++] on a [uint8] *)
Definition incr_level (g : GoWSDL) : GoWSDL :=
  set_currentRecursionLevel ((currentRecursionLevel g + 1) mod 256) g.

(** The closure [download] of [resolveXSDExternals]; [rec] is
    [g.resolveXSDExternals] itself. *)
Definition download (rec : XSDSchema -> Location -> M (list XSDSchema))
    (base : Location) (ref : string) : M (list XSDSchema) :=
  location <- lift (Location_Parse base ref) ;;
  let schemaKey := Location_String location in
  g <- get ;;
  if resolved g (Location_String location) then ret []
  else
    modify (mark_resolved schemaKey) ;;;
    data <- fetchFile location ;;
    newschema <- lift (Unmarshal_XSDSchema data) ;;
    emit (Decoded schemaKey newschema) ;;;
    g <- get ;;
    downloadResult <-
      (if ((0 <? Z.of_nat (List.length (Includes newschema)))
           || (0 <? Z.of_nat (List.length (Imports newschema))))
          && (maxRecursion >? currentRecursionLevel g)
       then
         modify incr_level ;;;
         emit (Recursed schemaKey) ;;;
         schemas <- rec newschema location ;;
         ret ([] ++ schemas)
       else ret []) ;;
    emit (LogAdding (TargetNamespace newschema)) ;;;
    g <- get ;;
    if unmapped g (TargetNamespace newschema)
    then fail (no_package_mapping (TargetNamespace newschema))
    else ret (downloadResult ++ [newschema]).

Fixpoint imports_loop (dl : Location -> string -> M (list XSDSchema))
    (l : Location) (impts : list XSDImport) (result : list XSDSchema)
    : M (list XSDSchema) :=
  match impts with
  | [] => ret result
  | impt :: impts =>
      if String.eqb (imp_SchemaLocation impt) "" then
        emit (LogWarnNoLocation (imp_Namespace impt)) ;;;
        imports_loop dl l impts result
      else
        newSchemas <- dl l (imp_SchemaLocation impt) ;;
        imports_loop dl l impts (result ++ newSchemas)
  end.

Fixpoint includes_loop (dl : Location -> string -> M (list XSDSchema))
    (l : Location) (incls : list XSDInclude) (result : list XSDSchema)
    : M (list XSDSchema) :=
  match incls with
  | [] => ret result
  | incl :: incls =>
      newSchemas <- dl l (incl_SchemaLocation incl) ;;
      includes_loop dl l incls (result ++ newSchemas)
  end.

Fixpoint resolveXSDExternals (fuel : nat) (schema : XSDSchema) (l : Location)
    : M (list XSDSchema) :=
  match fuel with
  | O => out_of_fuel
  | S fuel =>
      let dl := download (resolveXSDExternals fuel) in
      result <- imports_loop dl l (Imports schema) [] ;;
      includes_loop dl l (Includes schema) result
  end.

Fixpoint unmarshal_loop (fuel : nat) (schemas : list XSDSchema)
    (newSchemas : list XSDSchema) : M (list XSDSchema) :=
  match schemas with
  | [] => ret newSchemas
  | schema :: schemas =>
      emit (LogResolving (TargetNamespace schema)) ;;;
      g <- get ;;
      if unmapped g (TargetNamespace schema)
      then fail (no_package_mapping (TargetNamespace schema))
      else
        resolvedSchemas <- resolveXSDExternals fuel schema (loc g) ;;
        unmarshal_loop fuel schemas (newSchemas ++ resolvedSchemas)
  end.

(** [unmarshal]: the whole resolution pass.  On success [g.wsdl] holds
    the root's schemas followed by the resolved ones. *)
Definition unmarshal (fuel : nat) : M unit :=
  g <- get ;;
  data <- fetchFile (loc g) ;;
  w <- lift (Unmarshal_WSDL data) ;;
  modify (set_wsdl (Some w)) ;;;
  modify (set_rawWSDL data) ;;;
  newSchemas <- unmarshal_loop fuel (Types_Schemas w) [] ;;
  modify (set_wsdl (Some {| Types_Schemas := Types_Schemas w ++ newSchemas |})).

End Resolver.

(** ** The type mapper ([gowsdl.go]) *)

(** [slices.Contains] *)
Definition slices_Contains (l : list string) (x : string) : bool :=
  existsb (String.eqb x) l.

(** [toGoType] returns the Go type and may record an import: the result
    comes with the generator as the call leaves it. *)
Definition toGoType `{GoText} (g : GoWSDL) (xsdType : string) (nillable : bool)
    (minOccurs : string) : string * GoWSDL :=
  let r := strings_Split xsdType colon in
  let gotype :=
    match r with
    | [_; r1] => r1
    | r0 :: _ => r0
    | [] => ""
    end in
  let value := table_get xsd2GoTypes (strings_ToLower gotype) in
  let '(value, g) :=
    if String.eqb value "" then
      let value := replaceReservedWords (makePublic gotype) in
      match r with
      | [r0; _] =>
          let ns := getNSFromMap g r0 in
          if negb (String.eqb ns (currentNamespace g)) then
            let pkg := getNSPackage g ns in
            if negb (String.eqb pkg "") then
              let value := pkg +:+ "." +:+ value in
              match imports g !! currentNamespace g with
              | Some pkgList =>
                  if negb (slices_Contains pkgList pkg)
                  then (value,
                        set_imports
                          (<[currentNamespace g := pkgList ++ [pkg]]> (imports g)) g)
                  else (value, g)
              | None =>
                  (value,
                   set_imports (<[currentNamespace g := [pkg]]> (imports g)) g)
              end
            else (value, g)
          else (value, g)
      | _ => (value, g)
      end
    else (value, g) in
  let value :=
    if nillable || String.eqb minOccurs "0" then "*" +:+ value else value in
  (value, g).

(** [g.imports[ns]], as [genHeader] reads it: [nil] for a name space
    without an entry. *)
Definition imports_of (g : GoWSDL) (ns : string) : list string :=
  match imports g !! ns with
  | Some pkgList => pkgList
  | None => []
  end.

(** What a template does to the generator while it is rendered. *)
Inductive Call :=
| CallToGoType (xsdType : string) (nillable : bool) (minOccurs : string)
| CallSetNS (ns : string)
| CallSetNSMap (nsMap : gmap string string).

Definition call `{GoText} (g : GoWSDL) (c : Call) : GoWSDL :=
  match c with
  | CallToGoType xsdType nillable minOccurs =>
      snd (toGoType g xsdType nillable minOccurs)
  | CallSetNS ns => snd (setNS g ns)
  | CallSetNSMap nsMap => snd (setNSMap g nsMap)
  end.

Definition calls `{GoText} (g : GoWSDL) (cs : list Call) : GoWSDL :=
  fold_left call cs g.

(** [GoText] on ASCII strings. *)
Definition ascii_text : GoText.
Proof.
  refine {|
    runes_of := ascii_runes_of;
    string_of := ascii_string_of;
    strings_ToLower := ascii_string_map ascii_ToLower_byte;
    unicode_IsLetter := ascii_IsLetter;
    unicode_IsDigit := ascii_digit;
    unicode_IsUpper := ascii_upper;
    unicode_ToUpper := ascii_ToUpper |}.
  - reflexivity.
  - reflexivity.
  - reflexivity.
  - reflexivity.
Defined.

(** ** Vocabulary of the properties *)

(** The type [toGoType] names before it decides on the pointer, and the
    generator as the call leaves it. *)
Definition mapped `{GoText} (g : GoWSDL) (xsdType : string) : string * GoWSDL :=
  toGoType g xsdType false "".

(** The invariant of the imports table: no package is listed twice under
    a name space. *)
Definition imports_once (g : GoWSDL) : Prop :=
  forall (ns : string) (pkgList : list string),
    imports g !! ns = Some pkgList -> NoDup pkgList.

(** The claim C9 as the specification states it. *)
Definition exported_names_are_capitalized : Prop :=
  forall (T : GoText) (identifier : string),
    identifier <> "" ->
    table_get reservedWords identifier = "" ->
    table_get reservedWordsInAttr identifier = "" ->
    leading_upper (sanitizeTypeName true identifier) = true.

Definition level (st : state) : Z := currentRecursionLevel (fst st).

(** How often [resolveXSDExternals] was entered from [download]. *)
Fixpoint recursions (evs : list Event) : Z :=
  match evs with
  | [] => 0
  | Recursed _ :: evs => 1 + recursions evs
  | _ :: evs => recursions evs
  end.

(** The keys of the documents fetched and decoded, and the documents. *)
Fixpoint decoded_keys (evs : list Event) : list string :=
  match evs with
  | [] => []
  | Decoded key _ :: evs => key :: decoded_keys evs
  | _ :: evs => decoded_keys evs
  end.

Fixpoint decoded_schemas (evs : list Event) : list XSDSchema :=
  match evs with
  | [] => []
  | Decoded _ s :: evs => s :: decoded_schemas evs
  | _ :: evs => decoded_schemas evs
  end.

(** The files read, in order. *)
Fixpoint files_read (evs : list Event) : list string :=
  match evs with
  | [] => []
  | LogReading file :: evs => file :: files_read evs
  | _ :: evs => files_read evs
  end.

(** The resolver does not touch the configuration. *)
Definition same_config (g g' : GoWSDL) : Prop :=
  nsToPkg g' = nsToPkg g /\ loc g' = loc g /\ ignoreTLS g' = ignoreTLS g /\
  imports g' = imports g.

(** A step of the resolver from [st] to [st']: the log grows and the
    configuration stays; for a counter that is a [uint8], the counter
    grows by the number of entries into [resolveXSDExternals] and does
    not pass the ceiling. *)
Definition extends (st st' : state) : Prop :=
  exists evs,
    snd st' = snd st ++ evs /\
    same_config (fst st) (fst st') /\
    (0 <= level st < 256 ->
     level st' = level st + recursions evs /\
     level st' <= Z.max (level st) maxRecursion).

(** A line of the log, as opposed to the two marks. *)
Definition log_line (e : Event) : bool :=
  match e with
  | Decoded _ _ | Recursed _ => false
  | _ => true
  end.

(** An assignment that leaves configuration, counter and resolved set. *)
Definition untouched (g g' : GoWSDL) : Prop :=
  same_config g g' /\
  currentRecursionLevel g' = currentRecursionLevel g /\
  resolvedXSDExternals g' = resolvedXSDExternals g.

(** A step from [st] to [st'] in which every document decoded was not
    yet resolved, and is resolved afterwards: no key is fetched and
    decoded twice. *)
Definition once (st st' : state) : Prop :=
  exists evs,
    snd st' = snd st ++ evs /\
    NoDup (decoded_keys evs) /\
    (forall key, In key (decoded_keys evs) ->
                 resolved (fst st) key = false /\ resolved (fst st') key = true) /\
    (forall key, resolved (fst st) key = true -> resolved (fst st') key = true).

(** A computation all of whose runs are steps of the relation [R]. *)
Definition preserves (R : state -> state -> Prop) {A} (c : M A) : Prop :=
  forall st, R st (snd (c st)).

(** A computation that does not run out of fuel from a counter of at
    least [L] (and at most the ceiling). *)
Definition fueled (L : Z) {A} (c : M A) : Prop :=
  forall st, 0 <= level st <= maxRecursion -> L <= level st ->
             fst (c st) <> OutOfFuel.

(** In multi-package mode, the name space of a schema has a package. *)
Definition mapped_schema (g : GoWSDL) (s : XSDSchema) : Prop :=
  unmapped g (TargetNamespace s) = false.

(** A computation whose result, when it succeeds, is the documents it
    decoded, each with a package for its name space. *)
Definition sound (c : M (list XSDSchema)) : Prop :=
  forall st res st',
    c st = (Ok res, st') ->
    exists evs,
      snd st' = snd st ++ evs /\
      Permutation res (decoded_schemas evs) /\
      Forall (mapped_schema (fst st)) res.

(** ** Sample documents

    A small file system to run the resolver on: every reference is a
    path in one directory, which [Location.Parse] resolves to itself and
    [Location.String] prints; nothing is reachable by URL. *)
Definition file (path : string) : Location := {| loc_f := path; loc_u := "" |}.

Definition sample_Parse (base : Location) (ref : string) : Location + error :=
  inl (file ref).

Definition sample_String (l : Location) : string := loc_f l.

Definition sample_download (url : string) (ignoreTLS : bool) : bytes + error :=
  inr (IOError "no network").

Definition sample_schema (ns : string) (imps : list (string * string))
    (incls : list string) : XSDSchema :=
  set_Includes (map (fun l => {| incl_SchemaLocation := l |}) incls)
    (set_Imports
       (map (fun nl => {| imp_XMLName := zero_Name;
                          imp_SchemaLocation := snd nl;
                          imp_Namespace := fst nl |}) imps)
       (set_TargetNamespace ns new_XSDSchema)).

(** A files table: the bytes of each file, and what [xml.Unmarshal]
    makes of the bytes. *)
Fixpoint sample_read (files : list (string * bytes)) (path : string)
    : bytes + error :=
  match files with
  | [] => inr (IOError ("open " +:+ path +:+ ": no such file or directory"))
  | (p, data) :: files =>
      if String.eqb p path then inl data else sample_read files path
  end.

Fixpoint sample_decode {A} (docs : list (bytes * A)) (data : bytes) : A + error :=
  match docs with
  | [] => inr (SyntaxError "unexpected EOF")
  | (d, a) :: docs => if String.eqb d data then inl a else sample_decode docs data
  end.

(** A includes B, B includes A: [a.wsdl] holds schema A, whose include
    names [b.xsd]; [b.xsd] holds schema B, whose include names [a.wsdl]. *)
Definition cycle_A : XSDSchema := sample_schema "urn:a" [] ["b.xsd"].
Definition cycle_B : XSDSchema := sample_schema "urn:a" [] ["a.wsdl"].

Definition cycle_files : list (string * bytes) :=
  [("a.wsdl", "<A>"); ("b.xsd", "<B>")].

Definition cycle_pass : result unit * state :=
  unmarshal sample_Parse sample_String (sample_read cycle_files) sample_download
    (sample_decode [("<A>", {| Types_Schemas := [cycle_A] |})])
    (sample_decode [("<A>", cycle_A); ("<B>", cycle_B)])
    21 (NewGoWSDL (file "a.wsdl") "myservice" ∅ "" false true, []).

(** The same cycle away from the root: [root.wsdl] holds a schema that
    imports [a.xsd]; [a.xsd] includes [b.xsd], which includes [a.xsd]. *)
Definition outer_root : XSDSchema := sample_schema "urn:r" [("urn:a", "a.xsd")] [].
Definition outer_A : XSDSchema := sample_schema "urn:a" [] ["b.xsd"].
Definition outer_B : XSDSchema := sample_schema "urn:a" [] ["a.xsd"].

Definition outer_pass : result unit * state :=
  unmarshal sample_Parse sample_String
    (sample_read [("root.wsdl", "<R>"); ("a.xsd", "<A>"); ("b.xsd", "<B>")])
    sample_download
    (sample_decode [("<R>", {| Types_Schemas := [outer_root] |})])
    (sample_decode [("<A>", outer_A); ("<B>", outer_B)])
    21 (NewGoWSDL (file "root.wsdl") "myservice" ∅ "" false true, []).

(** Multi-package mode with a package for [urn:a] only: the root schema
    imports [x.xsd], of name space [urn:x], which imports [y.xsd], a
    file that does not exist. *)
Definition fatal_root : XSDSchema := sample_schema "urn:a" [("urn:x", "x.xsd")] [].
Definition fatal_X : XSDSchema := sample_schema "urn:x" [("urn:y", "y.xsd")] [].

Definition fatal_generator : GoWSDL :=
  NewGoWSDL (file "a.wsdl") "myservice" {[ "urn:a" := "pkga" ]} "example.org/gen"
    false true.

Definition fatal_pass : result unit * state :=
  unmarshal sample_Parse sample_String
    (sample_read [("a.wsdl", "<A>"); ("x.xsd", "<X>")]) sample_download
    (sample_decode [("<A>", {| Types_Schemas := [fatal_root] |})])
    (sample_decode [("<X>", fatal_X)])
    21 (fatal_generator, []).

(** The same root with a package for [urn:b] only; with [x.xsd] without
    imports; and with [y.xsd] in place, of a name space with a package. *)
Definition run_pass (n2p : gmap string string) (files : list (string * bytes))
    (root : XSDSchema) (docs : list (bytes * XSDSchema)) : result unit * state :=
  unmarshal sample_Parse sample_String (sample_read files) sample_download
    (sample_decode [("<A>", {| Types_Schemas := [root] |})])
    (sample_decode docs)
    21 (NewGoWSDL (file "a.wsdl") "myservice" n2p "example.org/gen" false true,
        []).

Definition fatal_Y : XSDSchema := sample_schema "urn:y" [] [].

Definition fatal_pass_root : result unit * state :=
  run_pass {[ "urn:b" := "pkgb" ]} [("a.wsdl", "<A>"); ("x.xsd", "<X>")]
    fatal_root [("<X>", sample_schema "urn:x" [] [])].

Definition fatal_pass_leaf : result unit * state :=
  run_pass {[ "urn:a" := "pkga" ]} [("a.wsdl", "<A>"); ("x.xsd", "<X>")]
    fatal_root [("<X>", sample_schema "urn:x" [] [])].

Definition fatal_pass_nested : result unit * state :=
  run_pass {[ "urn:a" := "pkga"; "urn:y" := "pkgy" ]}
    [("a.wsdl", "<A>"); ("x.xsd", "<X>"); ("y.xsd", "<Y>")]
    fatal_root [("<X>", fatal_X); ("<Y>", fatal_Y)].

(** The claim C7 as the specification states it: in a pass over any
    documents, once a schema without a package for its name space has
    been decoded, the pass ends with the error for that name space. *)
Definition unmapped_schema_ends_pass : Prop :=
  forall (Location_Parse : Location -> string -> Location + error)
         (Location_String : Location -> string)
         (ioutil_ReadFile : string -> bytes + error)
         (downloadFile : string -> bool -> bytes + error)
         (Unmarshal_WSDL : bytes -> WSDL + error)
         (Unmarshal_XSDSchema : bytes -> XSDSchema + error)
         (g : GoWSDL) (key : string) (s : XSDSchema),
    let r := unmarshal Location_Parse Location_String ioutil_ReadFile
               downloadFile Unmarshal_WSDL Unmarshal_XSDSchema 21 (g, []) in
    currentRecursionLevel g = 0 ->
    In (Decoded key s) (snd (snd r)) ->
    unmapped g (TargetNamespace s) = true ->
    fst r = Err (no_package_mapping (TargetNamespace s)).

(** ** Vocabulary of the decoder's properties *)

(** A token that is neither a start nor an end element. *)
Definition plain (tok : Token) : bool :=
  match tok with
  | TStartElement _ | TEndElement _ => false
  | _ => true
  end.

(** Well-nested content: what a well-formed document has between a start
    element and the end element that closes it. *)
Inductive nested : list Token -> Prop :=
| nested_nil : nested []
| nested_element (t : StartElement) (body : list Token) (n : Name)
    (rest : list Token) :
    nested body -> nested rest ->
    nested (TStartElement t :: body ++ TEndElement n :: rest)
| nested_plain (tok : Token) (rest : list Token) :
    plain tok = true -> nested rest -> nested (tok :: rest).

(** A child of a [choice] (or [all]) element, as the reflection decoder
    reads it: an element child with the tokens after its start element,
    up to and with its end element, and the value decoded from it;
    another element, with its content and end; character data, a comment
    and the like. *)
Inductive Child :=
| ElementChild (t : StartElement) (toks : list Token) (x : XSDElement)
| OtherChild (t : StartElement) (body : list Token) (n : Name)
| PlainChild (tok : Token).

Definition child_tokens (c : Child) : list Token :=
  match c with
  | ElementChild t toks _ => TStartElement t :: toks
  | OtherChild t body n => TStartElement t :: body ++ [TEndElement n]
  | PlainChild tok => [tok]
  end.

Definition child_elements (c : Child) : list XSDElement :=
  match c with
  | ElementChild _ _ x => [x]
  | _ => []
  end.

Definition well_read `{ReflectDecoders} (err : error) (c : Child) : Prop :=
  match c with
  | ElementChild t toks x =>
      Local (se_Name t) = "element" /\
      forall rest,
        decode_XSDElement t {| d_toks := toks ++ rest; d_err := err |}
        = Ok (x, rest)
  | OtherChild t body n => Local (se_Name t) <> "element" /\ nested body
  | PlainChild tok => plain tok = true
  end.

(** An error that a reflection decoder returned, on a decoder whose
    stream ends with [eof]. *)
Definition child_failure `{ReflectDecoders} (eof e : error) : Prop :=
  exists (t : StartElement) (d : Decoder),
    d_err d = eof /\
    (decode_XSDInclude t d = Err e \/ decode_XSDImport t d = Err e \/
     decode_XSDElement t d = Err e \/ decode_XSDAttribute t d = Err e \/
     decode_XSDSimpleType t d = Err e \/ decode_XSDAny t d = Err e \/
     decode_XSDComplexContent t d = Err e \/
     decode_XSDSimpleContent t d = Err e).

(** The children that [XSDSchema.UnmarshalXML] and
    [XSDComplexType.UnmarshalXML] decode. *)
Definition schema_children : list string :=
  ["include"; "import"; "element"; "attribute"; "complexType"; "simpleType"].

Definition complexType_children : list string :=
  ["attribute"; "sequence"; "choice"; "all"; "complexContent"; "simpleContent"].

(** A child that the loops skip. *)
Definition skipped (known : list string) (t : StartElement) : Prop :=
  Space (se_Name t) <> xmlschema11 \/ ~ In (Local (se_Name t)) known.

(** ** Sample schema documents, as tokens *)
Definition xs (local : string) : Name := {| Space := xmlschema11; Local := local |}.

Definition attribute (local value : string) : Attr :=
  {| attr_Name := {| Space := ""; Local := local |}; attr_Value := value |}.

Definition open_xs (local : string) (attrs : list Attr) : StartElement :=
  {| se_Name := xs local; se_Attr := attrs |}.

(** <schema targetNamespace="urn:a"><complexType name="T">
      <all><element name="a" type="xs:string"/></all>
    </complexType></schema> *)
Definition all_document : list Token :=
  [ TStartElement (open_xs "schema" [attribute "targetNamespace" "urn:a"]);
    TStartElement (open_xs "complexType" [attribute "name" "T"]);
    TStartElement (open_xs "all" []);
    TStartElement (open_xs "element"
                     [attribute "name" "a"; attribute "type" "xs:string"]);
    TEndElement (xs "element");
    TEndElement (xs "all");
    TEndElement (xs "complexType");
    TEndElement (xs "schema") ].

(** <schema targetNamespace="urn:a"><doc:note xmlns:doc="urn:doc"><doc:p/>
    </doc:note><redefine/><element name="e" type="xs:int"/></schema>
    and the same document without its first two children. *)
Definition foreign_document : list Token :=
  [ TStartElement (open_xs "schema" [attribute "targetNamespace" "urn:a"]);
    TStartElement {| se_Name := {| Space := "urn:doc"; Local := "note" |};
                     se_Attr := [] |};
    TStartElement {| se_Name := {| Space := "urn:doc"; Local := "p" |};
                     se_Attr := [] |};
    TEndElement {| Space := "urn:doc"; Local := "p" |};
    TEndElement {| Space := "urn:doc"; Local := "note" |};
    TStartElement (open_xs "redefine" []);
    TEndElement (xs "redefine");
    TStartElement (open_xs "element"
                     [attribute "name" "e"; attribute "type" "xs:int"]);
    TEndElement (xs "element");
    TEndElement (xs "schema") ].

Definition plain_document : list Token :=
  [ TStartElement (open_xs "schema" [attribute "targetNamespace" "urn:a"]);
    TStartElement (open_xs "element"
                     [attribute "name" "e"; attribute "type" "xs:int"]);
    TEndElement (xs "element");
    TEndElement (xs "schema") ].

(** The children of <choice minOccurs="0">: two elements with character
    data between them. *)
Definition sample_b : XSDElement :=
  Build_XSDElement (xs "element") "b" "" false "" "" "" "" None None [].

Definition sample_c : XSDElement :=
  Build_XSDElement (xs "element") "c" "" false "" "" "1" "" None None [].

Definition sample_children : list Child :=
  [ ElementChild (open_xs "element" [attribute "name" "b"])
      [TEndElement (xs "element")] sample_b;
    PlainChild (TCharData " ");
    ElementChild (open_xs "element" [attribute "name" "c"; attribute "minOccurs" "1"])
      [TEndElement (xs "element")] sample_c ].

(** An element with its content and end, as tokens. *)
Definition element_tokens (c : StartElement * list Token * Name) : list Token :=
  TStartElement (fst (fst c)) :: snd (fst c) ++ [TEndElement (snd c)].

(** A well-nested element that the loop over [known] children skips. *)
Definition skipped_element (known : list string)
    (c : StartElement * list Token * Name) : Prop :=
  nested (snd (fst c)) /\ skipped known (fst (fst c)).

(** ** More of the helpers of [gowsdl.go]

    The functions that the templates call besides the type mapper, and
    the text functions of Go's standard library behind them. *)

(** A string of ASCII bytes. *)
Fixpoint is_ascii (s : string) : bool :=
  match s with
  | EmptyString => true
  | String a s' => (rune_of_byte a <? 128) && is_ascii s'
  end.

(** White space in ASCII: tab, line feed, vertical tab, form feed,
    carriage return and the space. *)
Definition ascii_space (r : rune) : bool :=
  ((9 <=? r) && (r <=? 13)) || (r =? 32).

Fixpoint drop_while (f : ascii -> bool) (s : string) : string :=
  match s with
  | EmptyString => EmptyString
  | String a s' => if f a then drop_while f s' else s
  end.

Fixpoint drop_while_end (f : ascii -> bool) (s : string) : string :=
  match s with
  | EmptyString => EmptyString
  | String a s' =>
      match drop_while_end f s' with
      | EmptyString => if f a then EmptyString else String a EmptyString
      | t => String a t
      end
  end.

(** What the functions below need of [unicode] and [strings] beyond
    [GoText]; the laws fix the operations on ASCII, as Go has them. *)
Class GoUnicode `{GoText} := {
  unicode_ToLower : rune -> rune;
  unicode_IsSpace : rune -> bool;
  strings_TrimSpace : string -> string;
  strings_TrimLeftFunc : string -> (rune -> bool) -> string;
  runes_of_empty : runes_of "" = [];
  string_of_empty : string_of [] = "";
  unicode_ToLower_ascii : forall r,
    0 <= r < 128 -> unicode_ToLower r = if ascii_upper r then r + 32 else r;
  unicode_IsLetter_ascii : forall r,
    0 <= r < 128 -> unicode_IsLetter r = ascii_lower r || ascii_upper r;
  unicode_IsDigit_ascii : forall r,
    0 <= r < 128 -> unicode_IsDigit r = ascii_digit r;
  unicode_IsSpace_ascii : forall r,
    0 <= r < 128 -> unicode_IsSpace r = ascii_space r;
  strings_TrimSpace_ascii : forall s,
    is_ascii s = true ->
    strings_TrimSpace s =
    drop_while_end (fun a => ascii_space (rune_of_byte a))
      (drop_while (fun a => ascii_space (rune_of_byte a)) s);
  strings_TrimLeftFunc_ascii : forall s f,
    is_ascii s = true ->
    strings_TrimLeftFunc s f = drop_while (fun a => f (rune_of_byte a)) s
}.

(** [GoUnicode] on ASCII strings. *)
Definition ascii_ToLower (r : rune) : rune :=
  if ascii_upper r then r + 32 else r.

Definition ascii_TrimSpace (s : string) : string :=
  drop_while_end (fun a => ascii_space (rune_of_byte a))
    (drop_while (fun a => ascii_space (rune_of_byte a)) s).

Definition ascii_TrimLeftFunc (s : string) (f : rune -> bool) : string :=
  drop_while (fun a => f (rune_of_byte a)) s.

Definition ascii_unicode : @GoUnicode ascii_text.
Proof.
  refine {|
    unicode_ToLower := ascii_ToLower;
    unicode_IsSpace := ascii_space;
    strings_TrimSpace := ascii_TrimSpace;
    strings_TrimLeftFunc := ascii_TrimLeftFunc |};
    reflexivity.
Defined.

Definition quote : ascii := "034"%char.
Definition backslash : ascii := "\"%char.
Definition newline : ascii := "010"%char.

(** [goString]: [strings.ReplaceAll] with a double quote as the old text
    and a backslash followed by a double quote as the new one. *)
Definition goString (s : string) : string :=
  strings_ReplaceAll s (String quote "") (String backslash (String quote "")).

Definition addBlank (s : string) : string :=
  if String.eqb s "" then "" else s +:+ " ".

Definition makePrivate `{GoUnicode} (identifier : string) : string :=
  let field := runes_of identifier in
  match field with
  | [] => identifier
  | r :: rest => string_of (unicode_ToLower r :: rest)
  end.

(** [comment]: the loop carries [output] and [hasComment]. *)
Definition comment_line `{GoUnicode} (acc : string * bool) (line : string)
    : string * bool :=
  let line := strings_TrimLeftFunc line unicode_IsSpace in
  (fst acc +:+ String newline "// " +:+ line,
   if negb (String.eqb line "") then true else snd acc).

Definition comment `{GoUnicode} (text : string) : string :=
  let lines := strings_Split text newline in
  if Nat.eqb (List.length lines) 1 && String.eqb (nth 0 lines "") "" then ""
  else
    let acc := fold_left comment_line lines ("", false) in
    if snd acc then fst acc else "".

(** *** [removePointerFromType]

    The pattern is the raw string literal of eight characters
    [^ \ \ s * \ \ *].  [regexp] reads it as: the beginning of the text;
    [\\], a backslash; [s*], any number of the letter s; [\\*], any
    number of backslashes.  Such a pattern is a sequence of the items
    below; a starred item takes as many characters as the rest of the
    pattern allows, the most first. *)
Inductive Item :=
| BeginText
| Literal (c : ascii)
| Star (c : ascii).

Definition pointer_pattern : list Item :=
  [BeginText; Literal backslash; Star "s"%char; Star backslash].

(** The match of the items at the head of [s], of which [at_begin] says
    whether it is the beginning of the text: what is left of [s] after
    the match. *)
Fixpoint match_here (items : list Item) (at_begin : bool) (s : string)
    {struct items} : option string :=
  match items with
  | [] => Some s
  | BeginText :: items => if at_begin then match_here items at_begin s else None
  | Literal c :: items =>
      match s with
      | String a s' => if Ascii.eqb a c then match_here items false s' else None
      | EmptyString => None
      end
  | Star c :: items =>
      (fix star (at_begin : bool) (s : string) {struct s} : option string :=
         match s with
         | String a s' =>
             if Ascii.eqb a c then
               match star false s' with
               | Some r => Some r
               | None => match_here items at_begin s
               end
             else match_here items at_begin s
         | EmptyString => match_here items at_begin s
         end) at_begin s
  end.

(** [ReplaceAllLiteralString]: the matches are looked for from left to
    right; [skip] counts the characters of a match still to be passed,
    [after_match] says that a match ended where the search is, where an
    empty match is not replaced again. *)
Fixpoint replace_matches (items : list Item) (repl : string)
    (at_begin after_match : bool) (skip : nat) (s : string) : string :=
  match skip with
  | S k =>
      match s with
      | String _ s' => replace_matches items repl false true k s'
      | EmptyString => EmptyString
      end
  | O =>
      match match_here items at_begin s with
      | Some r =>
          match (String.length s - String.length r)%nat with
          | O =>
              (if after_match then "" else repl) +:+
              match s with
              | String a s' =>
                  String a (replace_matches items repl false false O s')
              | EmptyString => EmptyString
              end
          | S k =>
              repl +:+
              match s with
              | String _ s' => replace_matches items repl false true k s'
              | EmptyString => EmptyString
              end
          end
      | None =>
          match s with
          | String a s' =>
              String a (replace_matches items repl false false O s')
          | EmptyString => EmptyString
          end
      end
  end.

Definition regexp_ReplaceAllLiteralString (items : list Item) (src repl : string)
    : string :=
  replace_matches items repl true false O src.

Definition removePointerFromType (goType : string) : string :=
  regexp_ReplaceAllLiteralString pointer_pattern goType "".

(** ** The mapping of name spaces to packages ([gowsdl.go])

    [NamespaceMapping] is the map behind the flag [-pkg]; the generator
    keeps it as [nsToPkg]. *)
Definition NamespaceMapping := gmap string string.

Definition equals_sign : ascii := "="%char.

(** [Set]: the error and the map as the call leaves it. *)
Definition NamespaceMapping_Set (i : NamespaceMapping) (value : string)
    : option error * NamespaceMapping :=
  match strings_Split value equals_sign with
  | [p0; p1] => (None, <[p1 := p0]> i)
  | _ => (Some (Errorf "expected format pkg=ns"), i)
  end.

(** ** The command ([cmd/gowsdl/main.go])

    What a run of [main] does to the world is the list of its actions:
    the lines it logs, the calls it makes to the file system with what
    they returned, and how it ends.  [log.Fatalln] prints and exits with
    status 1; a deferred [Close] runs when [main] returns, not when the
    process exits. *)
Inductive Action :=
| Println (args : list string)
| Fatalln (args : list string)
| Fatalln_error (err : option error)
| Usage
| Exit (code : Z)
| Mkdir (name : string) (err : option error)
| Create (name : string) (err : option error)
| Write (name : string) (b : bytes)
| Close (name : string).

(** A step of the process: from the actions so far, a value, or [None]
    when the process has exited, and the actions after the step. *)
Definition Proc (A : Type) : Type := list Action -> option A * list Action.

Definition pret {A} (a : A) : Proc A := fun tr => (Some a, tr).

Definition pbind {A B} (c : Proc A) (k : A -> Proc B) : Proc B :=
  fun tr =>
    match c tr with
    | (Some a, tr) => k a tr
    | (None, tr) => (None, tr)
    end.

Notation "'let!' x ':=' c 'in' k" := (pbind c (fun x => k))
  (at level 10, x name, c at level 100, k at level 200).

Definition act (a : Action) : Proc unit := fun tr => (Some tt, tr ++ [a]).

(** The action with which the process exits. *)
Definition stop {A} (a : Action) : Proc A := fun tr => (None, tr ++ [a]).

Definition pwhen (b : bool) (c : Proc unit) : Proc unit :=
  if b then c else pret tt.

(** The values of the flags after [flag.Parse]. *)
Record Flags := {
  f_vers : bool;
  f_pkg : string;
  f_pkgBaseUrl : string;
  f_outFile : string;
  f_dir : string;
  f_insecure : bool;
  f_makePublic : bool;
  f_nsToPkg : NamespaceMapping }.

Record GenerationResult := {
  gr_Types : gmap string bytes;
  gr_Header : gmap string bytes;
  gr_Operations : bytes;
  gr_Server : bytes;
  gr_ServerHeader : bytes;
  gr_ServerWSDL : bytes }.

(** [m[k]] on a map of byte slices: [nil] for a missing key. *)
Definition bytes_at (m : gmap string bytes) (k : string) : bytes :=
  match m !! k with
  | Some b => b
  | None => ""
  end.

Section Command.
Context `{GoUnicode}.

(** The world of the command: the version set at build time,
    [ParseLocation] ([location.go], not among the sources), the
    generator's [Start], [os.Mkdir] and [os.Create] with what they
    return after the actions so far, [format.Source], [filepath.Join],
    whether [errors.Is(err, fs.ErrExist)] holds of an error, and the
    order in which a [range] over the mapping yields its entries. *)
Variable Version : string.
Variable ParseLocation : string -> Location + error.
Variable Start : GoWSDL -> GenerationResult + error.
Variable os_Mkdir : list Action -> string -> option error.
Variable os_Create : list Action -> string -> option error.
Variable format_Source : bytes -> bytes + error.
Variable filepath_Join : list string -> string.
Variable is_ErrExist : error -> bool.
Variable map_range : list Action -> NamespaceMapping -> list (string * string).

(** [NewGoWSDL], as [main] calls it. *)
Definition gen_NewGoWSDL (file pkg : string) (nsToPkg : NamespaceMapping)
    (pkgBaseURL : string) (ignoreTLS exportAllTypes : bool) : GoWSDL + error :=
  let file := strings_TrimSpace file in
  if String.eqb file "" then
    inr (Errorf "WSDL file is required to generate Go proxy")
  else
    let pkg := strings_TrimSpace pkg in
    let pkg := if String.eqb pkg "" then "myservice" else pkg in
    match ParseLocation file with
    | inr err => inr err
    | inl r => inl (NewGoWSDL r pkg nsToPkg pkgBaseURL ignoreTLS exportAllTypes)
    end.

(** [GetPackages]: the packages of the mapping, in the order of the
    [range]. *)
Definition NamespaceMapping_GetPackages (i : NamespaceMapping)
    : Proc (list string) :=
  fun tr => (Some (map snd (map_range tr i)), tr).

(** [errors.Is(err, fs.ErrExist)], which is false of [nil]. *)
Definition errors_Is_ErrExist (err : option error) : bool :=
  match err with
  | Some e => is_ErrExist e
  | None => false
  end.

Definition mkdir (name : string) : Proc (option error) :=
  fun tr => let err := os_Mkdir tr name in (Some err, tr ++ [Mkdir name err]).

Definition create (name : string) : Proc (option error) :=
  fun tr => let err := os_Create tr name in (Some err, tr ++ [Create name err]).

(** The first loop over the packages. *)
Fixpoint mkdir_packages (pkgPath : string) (subPkgs : list string) : Proc unit :=
  match subPkgs with
  | [] => pret tt
  | subPkg :: subPkgs =>
      let! err := mkdir (filepath_Join [pkgPath; subPkg]) in
      let! _ := pwhen (negb (errors_Is_ErrExist err))
                  (stop (Fatalln_error err)) in
      mkdir_packages pkgPath subPkgs
  end.

(** "go fmt the generated code" and write it; the bytes as they are,
    and the end of the run, when they do not format. *)
Definition write_source (name : string) (data : bytes) : Proc unit :=
  match format_Source data with
  | inr err =>
      let! _ := act (Write name data) in stop (Fatalln_error (Some err))
  | inl source => act (Write name source)
  end.

(** The second loop over the packages; the result is the files whose
    [Close] was deferred, the last first. *)
Fixpoint write_packages (pkgPath : string) (generationResult : GenerationResult)
    (subPkgs : list string) (deferred : list string) : Proc (list string) :=
  match subPkgs with
  | [] => pret deferred
  | subPkg :: subPkgs =>
      let name := filepath_Join [pkgPath; subPkg; subPkg +:+ ".go"] in
      let! _ := act (Println ["subPkg"; subPkg]) in
      let! _ := act (Println ["pkg"; pkgPath]) in
      let! _ := act (Println ["Generating"; name]) in
      let! err := create name in
      match err with
      | Some e => stop (Fatalln_error (Some e))
      | None =>
          let! _ := write_source name
               (bytes_at (gr_Header generationResult) subPkg
                +:+ bytes_at (gr_Types generationResult) subPkg) in
          write_packages pkgPath generationResult subPkgs (name :: deferred)
      end
  end.

Fixpoint close_all (names : list string) : Proc unit :=
  match names with
  | [] => pret tt
  | name :: names => let! _ := act (Close name) in close_all names
  end.

Definition main (flags : Flags) (os_Args : list string) : Proc unit :=
  let! _ := pwhen ((0 <? Z.of_nat (size (f_nsToPkg flags)))
            && String.eqb (f_pkgBaseUrl flags) "")
       (stop (Fatalln ["pkgBaseUrl is required when using pkg"])) in
  let! _ := pwhen (f_vers flags)
              (let! _ := act (Println [Version]) in stop (Exit 0)) in
  let! _ := pwhen (Z.of_nat (List.length os_Args) <? 2)
              (let! _ := act Usage in stop (Exit 0)) in
  let wsdlPath := List.last os_Args "" in
  let! _ := pwhen (String.eqb (f_outFile flags) wsdlPath)
       (stop (Fatalln ["Output file cannot be the same WSDL file"])) in
  match gen_NewGoWSDL wsdlPath (f_pkg flags) (f_nsToPkg flags)
          (f_pkgBaseUrl flags) (f_insecure flags) (f_makePublic flags) with
  | inr err => stop (Fatalln_error (Some err))
  | inl gowsdl =>
  match Start gowsdl with
  | inr err => stop (Fatalln_error (Some err))
  | inl generationResult =>
      let pkgPath := filepath_Join [f_dir flags; f_pkg flags] in
      let! err := mkdir pkgPath in
      let! _ := pwhen (negb (errors_Is_ErrExist err)) (stop (Fatalln_error err)) in
      let! subPkgs := NamespaceMapping_GetPackages (f_nsToPkg flags) in
      let! _ := mkdir_packages pkgPath subPkgs in
      let name := filepath_Join [pkgPath; f_outFile flags] in
      let! err := create name in
      match err with
      | Some e => stop (Fatalln_error (Some e))
      | None =>
          let! _ := write_source name
               (bytes_at (gr_Header generationResult) ""
                +:+ bytes_at (gr_Types generationResult) ""
                +:+ gr_Operations generationResult) in
          let! subPkgs := NamespaceMapping_GetPackages (f_nsToPkg flags) in
          let! deferred :=
            write_packages pkgPath generationResult subPkgs [name] in
          let serverName :=
            filepath_Join [pkgPath; "server" +:+ f_outFile flags] in
          let! err := create serverName in
          match err with
          | Some e => stop (Fatalln_error (Some e))
          | None =>
              let! _ := write_source serverName
                   (gr_ServerHeader generationResult
                    +:+ gr_ServerWSDL generationResult
                    +:+ gr_Server generationResult) in
              let! _ := act (Println ["Done 👍"]) in
              close_all (serverName :: deferred)
          end
      end
  end
  end.

(** A call of [os.Mkdir] that found the directory in place. *)
Definition mkdir_found (a : Action) : bool :=
  match a with
  | Mkdir _ err => errors_Is_ErrExist err
  | _ => false
  end.

(** A [Write] of bytes that [format.Source] returned. *)
Definition formatted (a : Action) : Prop :=
  match a with
  | Write _ b => exists data, format_Source data = inl b
  | _ => True
  end.

(** What a step may add to the actions: nothing but formatted writes
    and other actions; or, at the end of the run, a write of bytes that
    did not format and the [log.Fatalln] of the error. *)
Definition writes_checked (res : bool) (rest : list Action) : Prop :=
  List.Forall formatted rest \/
  (res = false /\
   exists before name b err,
     rest = before ++ [Write name b; Fatalln_error (Some err)] /\
     format_Source b = inr err /\ List.Forall formatted before).

Definition careful {A} (c : Proc A) : Prop :=
  forall tr, exists rest,
    snd (c tr) = tr ++ rest /\
    writes_checked (match fst (c tr) with Some _ => true | None => false end)
      rest.

End Command.

Definition is_mkdir (a : Action) : bool :=
  match a with
  | Mkdir _ _ => true
  | _ => false
  end.


(** The files that [os.Create] opened, and the files closed, in the
    order of the actions. *)
Fixpoint created (tr : list Action) : list string :=
  match tr with
  | [] => []
  | Create name None :: tr => name :: created tr
  | _ :: tr => created tr
  end.

Fixpoint closed (tr : list Action) : list string :=
  match tr with
  | [] => []
  | Close name :: tr => name :: closed tr
  | _ :: tr => closed tr
  end.

(** A step that only adds actions of which [P] holds. *)
Definition adds (P : Action -> Prop) {A} (c : Proc A) : Prop :=
  forall tr, exists rest, snd (c tr) = tr ++ rest /\ List.Forall P rest.

(** ** Vocabulary of the further properties *)

(** How often a byte occurs in a string. *)
Fixpoint count_byte (c : ascii) (s : string) : nat :=
  match s with
  | EmptyString => O
  | String a s' => if Ascii.eqb a c then S (count_byte c s') else count_byte c s'
  end.

(** The strings joined with a separator of one byte between them. *)
Fixpoint join_with (sep : ascii) (l : list string) : string :=
  match l with
  | [] => EmptyString
  | [x] => x
  | x :: l' => x +:+ String sep (join_with sep l')
  end.

(** A byte that may stand in a Go identifier: an ASCII letter, a digit
    or the underscore. *)
Definition ident_byte (a : ascii) : bool :=
  let r := rune_of_byte a in
  ascii_lower r || ascii_upper r || ascii_digit r || (r =? 95).

Fixpoint all_bytes (f : ascii -> bool) (s : string) : bool :=
  match s with
  | EmptyString => true
  | String a s' => f a && all_bytes f s'
  end.

(** The bytes of a string, each replaced by a string. *)
Fixpoint concat_map_bytes (f : ascii -> string) (s : string) : string :=
  match s with
  | EmptyString => EmptyString
  | String a s' => f a +:+ concat_map_bytes f s'
  end.

(** What [normalize] makes of one ASCII byte. *)
Definition normalize_byte (a : ascii) : string :=
  let r := rune_of_byte a in
  if r =? 43 then "Plus"
  else if r =? 64 then "At"
  else if (r =? 46) || (r =? 45) then "_"
  else if ident_byte a then String a EmptyString
  else EmptyString.

(** A string without its first [n] bytes. *)
Fixpoint string_drop (n : nat) (s : string) : string :=
  match n, s with
  | O, _ => s
  | S k, String _ s' => string_drop k s'
  | S k, EmptyString => EmptyString
  end.

(** The lines, each after a separator. *)
Fixpoint lines_after (sep : ascii) (ls : list string) : string :=
  match ls with
  | [] => EmptyString
  | l :: ls => String sep l +:+ lines_after sep ls
  end.

(** A byte of ASCII white space. *)
Definition space_byte (a : ascii) : bool := ascii_space (rune_of_byte a).

(** The line of a Go comment that [comment] makes of a line of text. *)
Definition comment_text (line : string) : string :=
  "// " +:+ drop_while space_byte line.

(** ** A sample world for the command

    The command run as [gowsdl -d out service.wsdl] in a world in which
    the generator succeeds, every file can be created, and every call of
    [os.Mkdir] returns [made]. *)
Definition sample_Join (elem : list string) : string :=
  join_with "/"%char elem.

Definition file_exists : error := IOError "file exists".

Definition sample_is_ErrExist (e : error) : bool :=
  match e with
  | IOError msg => String.eqb msg "file exists"
  | _ => false
  end.

Definition sample_flags : Flags :=
  {| f_vers := false; f_pkg := "myservice"; f_pkgBaseUrl := "";
     f_outFile := "myservice.go"; f_dir := "out"; f_insecure := false;
     f_makePublic := true; f_nsToPkg := ∅ |}.

Definition sample_generated : GenerationResult :=
  {| gr_Types := {[ "" := "type T struct{}" ]};
     gr_Header := {[ "" := "package myservice;" ]};
     gr_Operations := ""; gr_Server := ""; gr_ServerHeader := "package myservice;";
     gr_ServerWSDL := "" |}.

Definition sample_main (made : option error) (format : bytes -> bytes + error)
    : option unit * list Action :=
  main (H0 := ascii_unicode) "v0" (fun f => inl (file f))
    (fun _ => inl sample_generated) (fun _ _ => made) (fun _ _ => None)
    format sample_Join sample_is_ErrExist (fun _ m => map_to_list m)
    sample_flags ["gowsdl"; "service.wsdl"] [].



(** ** Documents as trees

    The content of a [sequence], of a [complexType] and of a [schema]
    element, child by child: for each child the tokens that the decoder
    reads and what it decodes from them.  The values of the children
    that [encoding/xml] decodes by reflection come with the child. *)

(** The elements that a [choice] hands to its complex type. *)
Definition choice_elements (t : StartElement) (cs : list Child)
    : list XSDElement :=
  let minOccurs := attr_of (se_Attr t) "minOccurs" in
  if negb (String.eqb minOccurs "")
  then map (el_set_MinOccurs minOccurs) (flat_map child_elements cs)
  else flat_map child_elements cs.

Inductive SeqChild :=
| SeqElement (t : StartElement) (toks : list Token) (x : XSDElement)
| SeqChoice (t : StartElement) (cs : list Child) (n : Name)
| SeqAny (t : StartElement) (toks : list Token) (x : XSDAny)
| SeqOther (t : StartElement) (body : list Token) (n : Name)
| SeqPlain (tok : Token).

Definition seq_tokens (c : SeqChild) : list Token :=
  match c with
  | SeqElement t toks _ | SeqAny t toks _ => TStartElement t :: toks
  | SeqChoice t cs n =>
      TStartElement t :: flat_map child_tokens cs ++ [TEndElement n]
  | SeqOther t body n => TStartElement t :: body ++ [TEndElement n]
  | SeqPlain tok => [tok]
  end.

Definition seq_elements (c : SeqChild) : list XSDElement :=
  match c with
  | SeqElement _ _ x => [x]
  | SeqChoice t cs _ => choice_elements t cs
  | _ => []
  end.

Definition seq_anys (c : SeqChild) : list XSDAny :=
  match c with
  | SeqAny _ _ x => [x]
  | _ => []
  end.

Definition sequence_children : list string := ["element"; "choice"; "any"].

Definition well_read_seq `{ReflectDecoders} (err : error) (c : SeqChild)
    : Prop :=
  match c with
  | SeqElement t toks x =>
      Space (se_Name t) = xmlschema11 /\ Local (se_Name t) = "element" /\
      forall rest,
        decode_XSDElement t {| d_toks := toks ++ rest; d_err := err |}
        = Ok (x, rest)
  | SeqChoice t cs _ =>
      Space (se_Name t) = xmlschema11 /\ Local (se_Name t) = "choice" /\
      Forall (well_read err) cs
  | SeqAny t toks x =>
      Space (se_Name t) = xmlschema11 /\ Local (se_Name t) = "any" /\
      forall rest,
        decode_XSDAny t {| d_toks := toks ++ rest; d_err := err |}
        = Ok (x, rest)
  | SeqOther t body _ => skipped sequence_children t /\ nested body
  | SeqPlain tok => plain tok = true
  end.

(** The complex type after a sequence with these children. *)
Definition sequence_added (cs : list SeqChild) (ct : XSDComplexType)
    : XSDComplexType :=
  ct_set_Any (ct_Any ct ++ flat_map seq_anys cs)
    (ct_set_Sequence (ct_Sequence ct ++ flat_map seq_elements cs) ct).

Inductive TypeChild :=
| TypeAttribute (t : StartElement) (toks : list Token) (x : XSDAttribute)
| TypeSequence (t : StartElement) (cs : list SeqChild) (n : Name)
| TypeChoice (t : StartElement) (cs : list Child) (n : Name)
| TypeComplexContent (t : StartElement) (toks : list Token)
    (x : XSDComplexContent)
| TypeSimpleContent (t : StartElement) (toks : list Token)
    (x : XSDSimpleContent)
| TypeOther (t : StartElement) (body : list Token) (n : Name)
| TypePlain (tok : Token).

Definition type_tokens (c : TypeChild) : list Token :=
  match c with
  | TypeAttribute t toks _ | TypeComplexContent t toks _
  | TypeSimpleContent t toks _ => TStartElement t :: toks
  | TypeSequence t cs n =>
      TStartElement t :: flat_map seq_tokens cs ++ [TEndElement n]
  | TypeChoice t cs n =>
      TStartElement t :: flat_map child_tokens cs ++ [TEndElement n]
  | TypeOther t body n => TStartElement t :: body ++ [TEndElement n]
  | TypePlain tok => [tok]
  end.

Definition well_read_type `{ReflectDecoders} (err : error) (c : TypeChild)
    : Prop :=
  match c with
  | TypeAttribute t toks x =>
      Space (se_Name t) = xmlschema11 /\ Local (se_Name t) = "attribute" /\
      forall rest,
        decode_XSDAttribute t {| d_toks := toks ++ rest; d_err := err |}
        = Ok (x, rest)
  | TypeSequence t cs _ =>
      Space (se_Name t) = xmlschema11 /\ Local (se_Name t) = "sequence" /\
      Forall (well_read_seq err) cs
  | TypeChoice t cs _ =>
      Space (se_Name t) = xmlschema11 /\ Local (se_Name t) = "choice" /\
      Forall (well_read err) cs
  | TypeComplexContent t toks x =>
      Space (se_Name t) = xmlschema11 /\
      Local (se_Name t) = "complexContent" /\
      forall rest,
        decode_XSDComplexContent t {| d_toks := toks ++ rest; d_err := err |}
        = Ok (x, rest)
  | TypeSimpleContent t toks x =>
      Space (se_Name t) = xmlschema11 /\
      Local (se_Name t) = "simpleContent" /\
      forall rest,
        decode_XSDSimpleContent t {| d_toks := toks ++ rest; d_err := err |}
        = Ok (x, rest)
  | TypeOther t body _ => skipped complexType_children t /\ nested body
  | TypePlain tok => plain tok = true
  end.

(** The complex type after one more child. *)
Definition type_added (ct : XSDComplexType) (c : TypeChild) : XSDComplexType :=
  match c with
  | TypeAttribute _ _ x => ct_set_Attributes (ct_Attributes ct ++ [x]) ct
  | TypeSequence _ cs _ => sequence_added cs ct
  | TypeChoice t cs _ => ct_set_Choice (ct_Choice ct ++ choice_elements t cs) ct
  | TypeComplexContent _ _ x => ct_set_ComplexContent x ct
  | TypeSimpleContent _ _ x => ct_set_SimpleContent x ct
  | TypeOther _ _ _ | TypePlain _ => ct
  end.

(** The complex type that an element with these attributes and children
    decodes to. *)
Definition complexType_of (t : StartElement) (cs : list TypeChild)
    : XSDComplexType :=
  fold_left type_added cs
    (fold_left complexType_attr (se_Attr t)
       (ct_set_XMLName (se_Name t) new_XSDComplexType)).

Inductive SchemaChild :=
| SchemaInclude (t : StartElement) (toks : list Token) (x : XSDInclude)
| SchemaImport (t : StartElement) (toks : list Token) (x : XSDImport)
| SchemaElement (t : StartElement) (toks : list Token) (x : XSDElement)
| SchemaAttribute (t : StartElement) (toks : list Token) (x : XSDAttribute)
| SchemaComplexType (t : StartElement) (cs : list TypeChild) (n : Name)
| SchemaSimpleType (t : StartElement) (toks : list Token) (x : XSDSimpleType)
| SchemaOther (t : StartElement) (body : list Token) (n : Name)
| SchemaPlain (tok : Token).

Definition schema_tokens (c : SchemaChild) : list Token :=
  match c with
  | SchemaInclude t toks _ | SchemaImport t toks _ | SchemaElement t toks _
  | SchemaAttribute t toks _ | SchemaSimpleType t toks _ =>
      TStartElement t :: toks
  | SchemaComplexType t cs n =>
      TStartElement t :: flat_map type_tokens cs ++ [TEndElement n]
  | SchemaOther t body n => TStartElement t :: body ++ [TEndElement n]
  | SchemaPlain tok => [tok]
  end.

Definition well_read_schema `{ReflectDecoders} (err : error) (c : SchemaChild)
    : Prop :=
  match c with
  | SchemaInclude t toks x =>
      Space (se_Name t) = xmlschema11 /\ Local (se_Name t) = "include" /\
      forall rest,
        decode_XSDInclude t {| d_toks := toks ++ rest; d_err := err |}
        = Ok (x, rest)
  | SchemaImport t toks x =>
      Space (se_Name t) = xmlschema11 /\ Local (se_Name t) = "import" /\
      forall rest,
        decode_XSDImport t {| d_toks := toks ++ rest; d_err := err |}
        = Ok (x, rest)
  | SchemaElement t toks x =>
      Space (se_Name t) = xmlschema11 /\ Local (se_Name t) = "element" /\
      forall rest,
        decode_XSDElement t {| d_toks := toks ++ rest; d_err := err |}
        = Ok (x, rest)
  | SchemaAttribute t toks x =>
      Space (se_Name t) = xmlschema11 /\ Local (se_Name t) = "attribute" /\
      forall rest,
        decode_XSDAttribute t {| d_toks := toks ++ rest; d_err := err |}
        = Ok (x, rest)
  | SchemaComplexType t cs _ =>
      Space (se_Name t) = xmlschema11 /\ Local (se_Name t) = "complexType" /\
      Forall (well_read_type err) cs
  | SchemaSimpleType t toks x =>
      Space (se_Name t) = xmlschema11 /\ Local (se_Name t) = "simpleType" /\
      forall rest,
        decode_XSDSimpleType t {| d_toks := toks ++ rest; d_err := err |}
        = Ok (x, rest)
  | SchemaOther t body _ => skipped schema_children t /\ nested body
  | SchemaPlain tok => plain tok = true
  end.

Definition schema_added (s : XSDSchema) (c : SchemaChild) : XSDSchema :=
  match c with
  | SchemaInclude _ _ x => set_Includes (Includes s ++ [x]) s
  | SchemaImport _ _ x => set_Imports (Imports s ++ [x]) s
  | SchemaElement _ _ x => set_Elements (Elements s ++ [x]) s
  | SchemaAttribute _ _ x => set_Attributes (Attributes s ++ [x]) s
  | SchemaComplexType t cs _ =>
      set_ComplexTypes (ComplexTypes s ++ [complexType_of t cs]) s
  | SchemaSimpleType _ _ x => set_SimpleType (SimpleType s ++ [x]) s
  | SchemaOther _ _ _ | SchemaPlain _ => s
  end.

(** The schema that a [schema] element with these attributes and
    children decodes to. *)
Definition schema_of (t : StartElement) (cs : list SchemaChild) : XSDSchema :=
  fold_left schema_added cs
    (fold_left schema_attr (se_Attr t)
       (set_XMLName (se_Name t) (set_Xmlns ∅ new_XSDSchema))).

(** The values of one kind among the children, in their order. *)
Definition schema_includes (c : SchemaChild) : list XSDInclude :=
  match c with SchemaInclude _ _ x => [x] | _ => [] end.
Definition schema_imports (c : SchemaChild) : list XSDImport :=
  match c with SchemaImport _ _ x => [x] | _ => [] end.
Definition schema_elements (c : SchemaChild) : list XSDElement :=
  match c with SchemaElement _ _ x => [x] | _ => [] end.
Definition schema_attributes (c : SchemaChild) : list XSDAttribute :=
  match c with SchemaAttribute _ _ x => [x] | _ => [] end.
Definition schema_complexTypes (c : SchemaChild) : list XSDComplexType :=
  match c with SchemaComplexType t cs _ => [complexType_of t cs] | _ => [] end.
Definition schema_simpleTypes (c : SchemaChild) : list XSDSimpleType :=
  match c with SchemaSimpleType _ _ x => [x] | _ => [] end.

Definition type_attributes (c : TypeChild) : list XSDAttribute :=
  match c with TypeAttribute _ _ x => [x] | _ => [] end.
Definition type_sequence (c : TypeChild) : list XSDElement :=
  match c with TypeSequence _ cs _ => flat_map seq_elements cs | _ => [] end.
Definition type_anys (c : TypeChild) : list XSDAny :=
  match c with TypeSequence _ cs _ => flat_map seq_anys cs | _ => [] end.
Definition type_choice (c : TypeChild) : list XSDElement :=
  match c with TypeChoice t cs _ => choice_elements t cs | _ => [] end.

(** A token that does not open an element. *)
Definition not_start (tok : Token) : bool :=
  match tok with
  | TStartElement _ => false
  | _ => true
  end.

(** What the attributes of a [schema] element declare: the name space
    of a prefix, from the attributes [xmlns:prefix], and the value of a
    plain attribute; the last of several wins. *)
Definition xmlns_decl (attrs : list Attr) (prefix : string) : option string :=
  fold_left
    (fun v a =>
       if String.eqb (Space (attr_Name a)) "xmlns"
          && String.eqb (Local (attr_Name a)) prefix
       then Some (attr_Value a) else v)
    attrs None.

Definition schema_attribute (attrs : list Attr) (local default : string)
    : string :=
  fold_left
    (fun v a =>
       if negb (String.eqb (Space (attr_Name a)) "xmlns")
          && String.eqb (Local (attr_Name a)) local
       then attr_Value a else v)
    attrs default.

(** The last [complexContent] and [simpleContent] among the children. *)
Definition type_complexContent (cs : list TypeChild)
    (default : XSDComplexContent) : XSDComplexContent :=
  fold_left (fun v c => match c with
                        | TypeComplexContent _ _ x => x
                        | _ => v
                        end) cs default.

Definition type_simpleContent (cs : list TypeChild)
    (default : XSDSimpleContent) : XSDSimpleContent :=
  fold_left (fun v c => match c with
                        | TypeSimpleContent _ _ x => x
                        | _ => v
                        end) cs default.

(** A list that goes on from another. *)
Definition extends_list {A} (l l' : list A) : Prop := exists more, l' = l ++ more.

(** The schema [s'] has the attributes of [s]; its lists go on from
    those of [s]. *)
Definition schema_grown (s s' : XSDSchema) : Prop :=
  XMLName s' = XMLName s /\ Xmlns s' = Xmlns s /\ Tns s' = Tns s /\
  Xs s' = Xs s /\ Version s' = Version s /\
  TargetNamespace s' = TargetNamespace s /\
  ElementFormDefault s' = ElementFormDefault s /\
  extends_list (Includes s) (Includes s') /\
  extends_list (Imports s) (Imports s') /\
  extends_list (Elements s) (Elements s') /\
  extends_list (Attributes s) (Attributes s') /\
  extends_list (ComplexTypes s) (ComplexTypes s') /\
  extends_list (SimpleType s) (SimpleType s').

(** Sample children of a sequence: an element, a wildcard, an element;
    and the same with the wildcard first. *)
Definition sample_any : XSDAny :=
  {| any_XMLName := xs "any"; any_Doc := ""; any_MinOccurs := "";
     any_MaxOccurs := ""; any_Namespace := ""; any_ProcessContents := "lax" |}.

Definition seq_b : SeqChild :=
  SeqElement (open_xs "element" [attribute "name" "b"])
    [TEndElement (xs "element")] sample_b.

Definition seq_c : SeqChild :=
  SeqElement (open_xs "element" [attribute "name" "c"; attribute "minOccurs" "1"])
    [TEndElement (xs "element")] sample_c.

Definition seq_any : SeqChild :=
  SeqAny (open_xs "any" [attribute "processContents" "lax"])
    [TEndElement (xs "any")] sample_any.

Definition sample_sequence : list SeqChild := [seq_b; seq_any; seq_c].

(** <complexType name="T" mixed="1"><sequence>...</sequence>
    <attribute name="id"/></complexType> *)
Definition sample_attribute : XSDAttribute :=
  Build_XSDAttribute "" "id" "" "" "" "" None.

Definition sample_type_children : list TypeChild :=
  [ TypeSequence (open_xs "sequence" []) sample_sequence (xs "sequence");
    TypePlain (TCharData " ");
    TypeAttribute (open_xs "attribute" [attribute "name" "id"])
      [TEndElement (xs "attribute")] sample_attribute ].

Definition sample_type_start : StartElement :=
  open_xs "complexType" [attribute "name" "T"; attribute "mixed" "1"].

(** <schema targetNamespace="urn:a" xmlns:tns="urn:a" xmlns="urn:d">
      <import namespace="urn:b" schemaLocation="b.xsd"/>
      <complexType .../> <element name="e" type="xs:int"/></schema> *)
Definition sample_import : XSDImport :=
  {| imp_XMLName := xs "import"; imp_SchemaLocation := "b.xsd";
     imp_Namespace := "urn:b" |}.

Definition sample_e : XSDElement :=
  Build_XSDElement (xs "element") "e" "" false "xs:int" "" "" "" None None [].

Definition sample_schema_children : list SchemaChild :=
  [ SchemaImport
      (open_xs "import"
         [attribute "namespace" "urn:b"; attribute "schemaLocation" "b.xsd"])
      [TEndElement (xs "import")] sample_import;
    SchemaComplexType sample_type_start sample_type_children (xs "complexType");
    SchemaElement
      (open_xs "element" [attribute "name" "e"; attribute "type" "xs:int"])
      [TEndElement (xs "element")] sample_e ].

Definition sample_schema_start : StartElement :=
  open_xs "schema"
    [ attribute "targetNamespace" "urn:a";
      {| attr_Name := {| Space := "xmlns"; Local := "tns" |};
         attr_Value := "urn:a" |};
      {| attr_Name := {| Space := ""; Local := "xmlns" |};
         attr_Value := "urn:d" |} ].

Definition sample_document : list Token :=
  TProcInst "xml" "version=1.0" :: TStartElement sample_schema_start
  :: flat_map schema_tokens sample_schema_children ++ [TEndElement (xs "schema")].

(** ** The resolver, called again *)

(** The warnings for the imports that name no location, in their order. *)
Definition no_location_warnings (impts : list XSDImport) : list Event :=
  map (fun impt => LogWarnNoLocation (imp_Namespace impt))
    (List.filter (fun impt => String.eqb (imp_SchemaLocation impt) "") impts).

(** The marks of [g] are among those of [g']. *)
Definition marks_kept (g g' : GoWSDL) : Prop :=
  forall key, resolved g key = true -> resolved g' key = true.

(** The references of a schema that a generator has marked: an import
    that names a location, and an include, whose location parses to a
    key marked resolved. *)
Definition import_marked (Location_Parse : Location -> string -> Location + error)
    (Location_String : Location -> string) (l : Location) (g : GoWSDL)
    (impt : XSDImport) : Prop :=
  imp_SchemaLocation impt <> "" ->
  exists location,
    Location_Parse l (imp_SchemaLocation impt) = inl location /\
    resolved g (Location_String location) = true.

Definition include_marked (Location_Parse : Location -> string -> Location + error)
    (Location_String : Location -> string) (l : Location) (g : GoWSDL)
    (incl : XSDInclude) : Prop :=
  exists location,
    Location_Parse l (incl_SchemaLocation incl) = inl location /\
    resolved g (Location_String location) = true.

(** A schema that imports a name space without a location and [a.xsd],
    which includes [b.xsd], which includes [a.xsd]. *)
Definition again_schema : XSDSchema :=
  sample_schema "urn:r" [("urn:n", ""); ("urn:a", "a.xsd")] [].

Definition again_resolve (st : state) : result (list XSDSchema) * state :=
  resolveXSDExternals sample_Parse sample_String
    (sample_read [("a.xsd", "<A>"); ("b.xsd", "<B>")]) sample_download
    (sample_decode [("<A>", outer_A); ("<B>", outer_B)])
    21 again_schema (file "root.wsdl") st.

Definition again_first : result (list XSDSchema) * state :=
  again_resolve (NewGoWSDL (file "root.wsdl") "myservice" ∅ "" false true, []).

(** * Properties *)

(** ** Text *)

Lemma rune_of_byte_range (a : ascii) : 0 <= rune_of_byte a < 256.
Proof.
  unfold rune_of_byte. pose proof (N_ascii_bounded a). lia.
Qed.

Lemma rune_of_byte_of_rune (r : rune) :
  0 <= r < 256 -> rune_of_byte (byte_of_rune r) = r.
Proof.
  intros Hr. unfold rune_of_byte, byte_of_rune.
  rewrite N_ascii_embedding by lia. lia.
Qed.

Lemma star_not_fixed (v : string) : "*" +:+ v <> v.
Proof.
  change ("*" +:+ v) with (String "*" v).
  intros Heq. apply (f_equal String.length) in Heq. simpl in Heq. lia.
Qed.

Lemma replace_plus_cons (c : ascii) (s : string) :
  strings_ReplaceAll (String c s) "+" "Plus" =
  if Ascii.eqb "+" c then "Plus" +:+ strings_ReplaceAll s "+" "Plus"
  else String c (strings_ReplaceAll s "+" "Plus").
Proof.
  unfold strings_ReplaceAll.
  cbn [replace_from strings_HasPrefix String.length Nat.pred].
  destruct (Ascii.eqb "+" c); reflexivity.
Qed.

Lemma replace_at_cons (c : ascii) (s : string) :
  strings_ReplaceAll (String c s) "@" "At" =
  if Ascii.eqb "@" c then "At" +:+ strings_ReplaceAll s "@" "At"
  else String c (strings_ReplaceAll s "@" "At").
Proof.
  unfold strings_ReplaceAll.
  cbn [replace_from strings_HasPrefix String.length Nat.pred].
  destruct (Ascii.eqb "@" c); reflexivity.
Qed.

(** The two replacements of [normalize] commute: the order in which Go
    walks [specialCharacterMapping] does not change the result. *)
Lemma normalize_order (v : string) :
  strings_ReplaceAll (strings_ReplaceAll v "+" "Plus") "@" "At" =
  strings_ReplaceAll (strings_ReplaceAll v "@" "At") "+" "Plus".
Proof.
  induction v as [| c v IH]; [reflexivity |].
  rewrite replace_plus_cons, replace_at_cons.
  destruct (Ascii.eqb_spec "+" c) as [<- | Hp].
  - change (Ascii.eqb "@" "+") with false. cbn iota.
    rewrite replace_plus_cons.
    change (Ascii.eqb "+" "+") with true. cbn iota.
    change ("Plus" +:+ strings_ReplaceAll v "+" "Plus")
      with (String "P" (String "l" (String "u" (String "s"
              (strings_ReplaceAll v "+" "Plus"))))).
    rewrite !replace_at_cons.
    change (Ascii.eqb "@" "P") with false. change (Ascii.eqb "@" "l") with false.
    change (Ascii.eqb "@" "u") with false. change (Ascii.eqb "@" "s") with false.
    cbn iota. rewrite IH. reflexivity.
  - destruct (Ascii.eqb_spec "@" c) as [<- | Ha].
    + change ("At" +:+ strings_ReplaceAll v "@" "At")
        with (String "A" (String "t" (strings_ReplaceAll v "@" "At"))).
      rewrite replace_at_cons.
      change (Ascii.eqb "@" "@") with true. cbn iota.
      change ("At" +:+ strings_ReplaceAll (strings_ReplaceAll v "+" "Plus") "@" "At")
        with (String "A" (String "t"
                (strings_ReplaceAll (strings_ReplaceAll v "+" "Plus") "@" "At"))).
      rewrite !replace_plus_cons.
      change (Ascii.eqb "+" "A") with false. change (Ascii.eqb "+" "t") with false.
      cbn iota. rewrite IH. reflexivity.
    + rewrite replace_at_cons, replace_plus_cons.
      destruct (Ascii.eqb_spec "@" c); [congruence |].
      destruct (Ascii.eqb_spec "+" c); [congruence |].
      rewrite IH. reflexivity.
Qed.

Lemma table_has_get (m : table) (k : string) :
  Forall (fun kv => snd kv <> "") m ->
  table_has m k = negb (String.eqb (table_get m k) "").
Proof.
  induction 1 as [| [k' v] m Hv _ IH]; [reflexivity |].
  simpl in *. destruct (String.eqb k' k); [| exact IH].
  simpl. destruct (String.eqb_spec v ""); [contradiction | reflexivity].
Qed.

Lemma xsd2GoTypes_values : Forall (fun kv => snd kv <> "") xsd2GoTypes.
Proof. repeat constructor; discriminate. Qed.

Lemma slices_Contains_In (l : list string) (x : string) :
  slices_Contains l x = true <-> In x l.
Proof.
  unfold slices_Contains. rewrite existsb_exists. split.
  - intros (y & Hy & Heq). apply String.eqb_eq in Heq. congruence.
  - intros Hin. exists x. split; [assumption | apply String.eqb_refl].
Qed.

(** ** The type mapper *)

Section TypeMapper.
Context `{GoText}.

Lemma toGoType_mapped (g : GoWSDL) (xsdType : string) (nillable : bool)
    (minOccurs : string) :
  toGoType g xsdType nillable minOccurs =
  ((if nillable || String.eqb minOccurs "0"
    then "*" +:+ fst (mapped g xsdType) else fst (mapped g xsdType)),
   snd (mapped g xsdType)).
Proof.
  unfold mapped, toGoType.
  match goal with
  | |- context [match ?body with (_, _) => _ end] => destruct body
  end.
  reflexivity.
Qed.

Lemma toGoType_builtin (g : GoWSDL) (xsdType : string) :
  table_has xsd2GoTypes (strings_ToLower (stripns xsdType)) = true ->
  mapped g xsdType = (table_get xsd2GoTypes (strings_ToLower (stripns xsdType)), g).
Proof.
  intros Hin. rewrite (table_has_get _ _ xsd2GoTypes_values) in Hin.
  unfold mapped, toGoType, stripns in *.
  destruct (String.eqb _ "") eqn:E; [discriminate | reflexivity].
Qed.

(** Every field but [imports] is left as it was. *)
Lemma toGoType_frame (g : GoWSDL) (xsdType : string) :
  snd (mapped g xsdType) = set_imports (imports (snd (mapped g xsdType))) g.
Proof.
  unfold mapped, toGoType.
  assert (Hg : g = set_imports (imports g) g) by (destruct g; reflexivity).
  repeat match goal with
         | |- context [if ?b then _ else _] => destruct b
         | |- context [match ?l with [] => _ | _ :: _ => _ end] => destruct l
         | |- context [match ?o with Some _ => _ | None => _ end] => destruct o
         end; simpl; try exact Hg; reflexivity.
Qed.

Lemma toGoType_imports_changed (g : GoWSDL) (xsdType : string) :
  imports (snd (mapped g xsdType)) <> imports g ->
  table_has xsd2GoTypes (strings_ToLower (stripns xsdType)) = false /\
  exists prefix name,
    strings_Split xsdType colon = [prefix; name] /\
    getNSFromMap g prefix <> currentNamespace g /\
    getNSPackage g (getNSFromMap g prefix) <> "".
Proof.
  rewrite (table_has_get _ _ xsd2GoTypes_values).
  unfold mapped, toGoType, stripns.
  destruct (String.eqb _ "") eqn:E; [| simpl; congruence].
  intros Hne. split; [reflexivity |].
  destruct (strings_Split xsdType colon) as [| r0 [| r1 [| r2 r]]];
    try (simpl in Hne; congruence).
  exists r0, r1. split; [reflexivity |].
  destruct (String.eqb_spec (getNSFromMap g r0) (currentNamespace g)) as [Heq | Hns];
    [simpl in Hne; congruence |].
  split; [assumption |].
  destruct (String.eqb_spec (getNSPackage g (getNSFromMap g r0)) "") as [Heq | Hpkg];
    [simpl in Hne; congruence | assumption].
Qed.

Lemma imports_once_new r p n2p base ign exp :
  imports_once (NewGoWSDL r p n2p base ign exp).
Proof. intros ns l Hl. simpl in Hl. rewrite lookup_empty in Hl. discriminate. Qed.

Lemma imports_once_insert (g : GoWSDL) (ns : string) (l : list string) :
  imports_once g -> NoDup l ->
  imports_once (set_imports (<[ns := l]> (imports g)) g).
Proof.
  intros Hg Hl ns' l' Hlook. simpl in Hlook.
  destruct (decide (ns = ns')) as [-> | Hne].
  - rewrite lookup_insert_eq in Hlook. congruence.
  - rewrite lookup_insert_ne in Hlook by assumption. eauto.
Qed.

Lemma imports_once_toGoType (g : GoWSDL) (xsdType : string) :
  imports_once g -> imports_once (snd (mapped g xsdType)).
Proof.
  intros Hg. unfold mapped, toGoType.
  destruct (String.eqb _ "") eqn:E; [| exact Hg].
  destruct (strings_Split xsdType colon) as [| r0 [| r1 [| r2 r]]];
    try exact Hg.
  destruct (negb (String.eqb (getNSFromMap g r0) _)); [| exact Hg].
  destruct (negb (String.eqb (getNSPackage g _) "")); [| exact Hg].
  destruct (imports g !! currentNamespace g) as [pkgList |] eqn:Hlook.
  - destruct (slices_Contains pkgList _) eqn:Hc; [exact Hg |].
    simpl. apply imports_once_insert; [assumption |].
    apply NoDup_app. split; [eauto |]. split.
    + intros x Hx Hx'. apply list_elem_of_In in Hx, Hx'.
      destruct Hx' as [<- | []].
      apply slices_Contains_In in Hx. congruence.
    + apply NoDup_singleton.
  - simpl. apply imports_once_insert; [assumption | apply NoDup_singleton].
Qed.

Lemma imports_once_call (g : GoWSDL) (c : Call) :
  imports_once g -> imports_once (call g c).
Proof.
  intros Hg. destruct c as [x n m | ns | nsMap]; simpl.
  - rewrite toGoType_mapped. simpl. apply imports_once_toGoType, Hg.
  - exact Hg.
  - exact Hg.
Qed.

Lemma imports_once_calls (cs : list Call) (g : GoWSDL) :
  imports_once g -> imports_once (calls g cs).
Proof.
  revert g. induction cs as [| c cs IH]; intros g Hg; [exact Hg |].
  simpl. apply IH, imports_once_call, Hg.
Qed.

End TypeMapper.

Lemma toGoType_records `{GoText} (g : GoWSDL) (xsdType prefix name : string) :
  table_has xsd2GoTypes (strings_ToLower (stripns xsdType)) = false ->
  strings_Split xsdType colon = [prefix; name] ->
  getNSFromMap g prefix <> currentNamespace g ->
  getNSPackage g (getNSFromMap g prefix) <> "" ->
  In (getNSPackage g (getNSFromMap g prefix))
     (imports_of (snd (mapped g xsdType)) (currentNamespace g)).
Proof.
  rewrite (table_has_get _ _ xsd2GoTypes_values).
  unfold mapped, toGoType, stripns. intros Hb Hs Hns Hpkg. rewrite Hs in *.
  destruct (String.eqb _ "") eqn:E; [| discriminate].
  destruct (String.eqb_spec (getNSFromMap g prefix) (currentNamespace g));
    [contradiction |].
  destruct (String.eqb_spec (getNSPackage g (getNSFromMap g prefix)) "");
    [contradiction |].
  cbn [negb]. unfold imports_of.
  destruct (imports g !! currentNamespace g) as [pkgList |] eqn:Hlook.
  - destruct (slices_Contains pkgList _) eqn:Hc; cbn [negb snd].
    + rewrite Hlook. apply slices_Contains_In, Hc.
    + simpl. rewrite lookup_insert_eq. apply in_or_app. right. left. reflexivity.
  - simpl. rewrite lookup_insert_eq. left. reflexivity.
Qed.

(** C1. For every type reference, nillable flag and minOccurs string,
    [toGoType] returns the pointer to the mapped type ("*" before it) if
    and only if nillable is true or minOccurs is the string "0", and the
    mapped type itself otherwise; so for minOccurs "1", "" and "5" when
    nillable is false. *)
Theorem toGoType_optional_iff `{GoText} (g : GoWSDL) (xsdType : string)
    (nillable : bool) (minOccurs : string) :
  let required := fst (toGoType g xsdType false "") in
  let value := fst (toGoType g xsdType nillable minOccurs) in
  (value = "*" +:+ required <-> nillable = true \/ minOccurs = "0") /\
  (value = required <-> ~ (nillable = true \/ minOccurs = "0")) /\
  (forall m, In m ["1"; ""; "5"] -> fst (toGoType g xsdType false m) = required).
Proof.
  cbv zeta. rewrite (toGoType_mapped g xsdType nillable minOccurs).
  fold (mapped g xsdType). cbn [fst].
  set (required := fst (mapped g xsdType)).
  assert (Hcond : nillable || String.eqb minOccurs "0" = true
                  <-> nillable = true \/ minOccurs = "0").
  { rewrite orb_true_iff, String.eqb_eq. reflexivity. }
  split; [| split].
  - destruct (nillable || String.eqb minOccurs "0").
    + split; [intros _; apply Hcond; reflexivity | reflexivity].
    + split.
      * intros Heq. symmetry in Heq. apply star_not_fixed in Heq. contradiction.
      * intros Hc. apply Hcond in Hc. discriminate.
  - destruct (nillable || String.eqb minOccurs "0").
    + split.
      * intros Heq. apply star_not_fixed in Heq. contradiction.
      * intros Hc. exfalso. apply Hc, Hcond. reflexivity.
    + split; [| reflexivity].
      intros _ Hc. apply Hcond in Hc. discriminate.
  - intros m Hm. rewrite (toGoType_mapped g xsdType false m). cbn [fst orb].
    destruct Hm as [<- | [<- | [<- | []]]]; reflexivity.
Qed.

(** C8. Whatever calls the templates make on a generator fresh from
    [NewGoWSDL], the imports table lists no package twice under a name
    space; and a reference that qualifies its type with a foreign
    package leaves that package listed under the current name space. *)
Theorem imports_recorded_once `{GoText} (r : Location) (p : string)
    (n2p : gmap string string) (base : string) (ign exp : bool)
    (cs : list Call) :
  let g := calls (NewGoWSDL r p n2p base ign exp) cs in
  (forall ns, NoDup (imports_of g ns)) /\
  (forall ns pkg, (count_occ string_dec (imports_of g ns) pkg <= 1)%nat) /\
  (forall xsdType nillable minOccurs prefix name,
     table_has xsd2GoTypes (strings_ToLower (stripns xsdType)) = false ->
     strings_Split xsdType colon = [prefix; name] ->
     getNSFromMap g prefix <> currentNamespace g ->
     getNSPackage g (getNSFromMap g prefix) <> "" ->
     count_occ string_dec
       (imports_of (call g (CallToGoType xsdType nillable minOccurs))
                   (currentNamespace g))
       (getNSPackage g (getNSFromMap g prefix)) = 1%nat).
Proof.
  cbv zeta. set (g := calls _ cs).
  assert (Hg : imports_once g).
  { apply imports_once_calls, imports_once_new. }
  assert (Hnodup : forall g', imports_once g' -> forall ns, NoDup (imports_of g' ns)).
  { intros g' Hg' ns. unfold imports_of.
    destruct (imports g' !! ns) eqn:E; [eauto | apply NoDup_nil_2]. }
  split; [| split].
  - apply Hnodup, Hg.
  - intros ns pkg.
    apply (proj1 (List.NoDup_count_occ string_dec _)).
    apply NoDup_ListNoDup, Hnodup, Hg.
  - intros x n m prefix name Hb Hs Hns Hpkg.
    apply (proj1 (List.NoDup_count_occ' string_dec _)).
    + apply NoDup_ListNoDup, Hnodup, imports_once_call, Hg.
    + simpl. rewrite toGoType_mapped. cbn [snd].
      eapply toGoType_records; eassumption.
Qed.

(** C10. A reference whose lower-cased local name is in the built-in
    table maps to the table's type, behind a pointer only by the rule of
    nillable and minOccurs, and leaves the generator as it was.  No call
    changes a field other than the imports table, and the imports table
    changes only for a reference outside the table, of the form
    prefix:name, whose prefix resolves to a name space other than the
    current one, with a package configured for it. *)
Theorem toGoType_builtin_frame `{GoText} (g : GoWSDL) (xsdType : string)
    (nillable : bool) (minOccurs : string) :
  let local := strings_ToLower (stripns xsdType) in
  let g' := snd (toGoType g xsdType nillable minOccurs) in
  (table_has xsd2GoTypes local = true ->
   toGoType g xsdType nillable minOccurs =
   ((if nillable || String.eqb minOccurs "0"
     then "*" +:+ table_get xsd2GoTypes local
     else table_get xsd2GoTypes local), g)) /\
  g' = set_imports (imports g') g /\
  (imports g' <> imports g ->
   table_has xsd2GoTypes local = false /\
   exists prefix name,
     strings_Split xsdType colon = [prefix; name] /\
     getNSFromMap g prefix <> currentNamespace g /\
     getNSPackage g (getNSFromMap g prefix) <> "").
Proof.
  cbv zeta. rewrite toGoType_mapped. cbn [snd]. split; [| split].
  - intros Hin. rewrite (toGoType_builtin g xsdType Hin). reflexivity.
  - apply toGoType_frame.
  - apply toGoType_imports_changed.
Qed.

(** ** The identifier sanitizer *)

Lemma makePublic_basic `{GoText} (identifier : string) :
  isBasicType identifier = true -> makePublic identifier = identifier.
Proof. intros Hb. unfold makePublic. rewrite Hb. reflexivity. Qed.

Lemma makePublic_empty `{GoText} : makePublic "" = "EmptyString".
Proof. reflexivity. Qed.

Lemma makePublic_ascii `{GoText} (a : ascii) (rest : string) :
  isBasicType (String a rest) = false ->
  rune_of_byte a < 128 ->
  makePublic (String a rest) =
  String (byte_of_rune (if ascii_lower (rune_of_byte a)
                        then rune_of_byte a - 32 else rune_of_byte a))
         (string_of (runes_of rest)).
Proof.
  intros Hb Ha. unfold makePublic. rewrite Hb. cbn [String.eqb].
  pose proof (rune_of_byte_range a) as Hr.
  rewrite runes_of_ascii by assumption.
  rewrite unicode_ToUpper_ascii by lia.
  apply string_of_ascii.
  unfold ascii_lower. destruct (97 <=? rune_of_byte a) eqn:E1; simpl; [| lia].
  destruct (rune_of_byte a <=? 122) eqn:E2; lia.
Qed.

Lemma leading_upper_ascii `{GoText} (r : rune) (rest : string) :
  ascii_upper r = true -> leading_upper (String (byte_of_rune r) rest) = true.
Proof.
  intros Hu. unfold leading_upper.
  assert (Hr : 0 <= r < 128).
  { unfold ascii_upper in Hu. apply andb_true_iff in Hu. lia. }
  rewrite runes_of_ascii; rewrite rune_of_byte_of_rune by lia; [| lia].
  rewrite unicode_IsUpper_ascii by lia. exact Hu.
Qed.

(** C9, refuted.  "int" is in no reserved-word table and is the name of
    a basic type, which [makePublic] returns as it is; "_tmp" starts
    with a character that has no upper case. *)
Lemma exported_names_not_always_capitalized :
  sanitizeTypeName (H := ascii_text) true "int" = "int" /\
  leading_upper (H := ascii_text) "int" = false /\
  sanitizeTypeName (H := ascii_text) true "_tmp" = "_tmp" /\
  ~ exported_names_are_capitalized.
Proof.
  repeat split; try reflexivity.
  intros Hclaim.
  specialize (Hclaim ascii_text "int").
  vm_compute in Hclaim.
  assert (Hfalse : false = true) by (apply Hclaim; [discriminate | reflexivity | reflexivity]).
  discriminate.
Qed.

(** C9, amended.  For an identifier that the reserved-word table does
    not match and a configuration that asks for exported names: when the
    normalized identifier is not the name of a basic type and is empty
    or starts with an ASCII letter, the sanitized name starts with an
    upper-case letter (the upper case of that letter, or the E of the
    placeholder "EmptyString"); when the normalized identifier is the
    name of a basic type, it is returned as it is. *)
Theorem exported_names_capitalized `{GoText} (identifier : string)
    (Hfree : table_get reservedWords identifier = "") :
  (isBasicType (normalize identifier) = false ->
   (normalize identifier = "" \/
    exists a rest, normalize identifier = String a rest /\
                   (ascii_lower (rune_of_byte a) || ascii_upper (rune_of_byte a)) = true) ->
   leading_upper (sanitizeTypeName true identifier) = true) /\
  (isBasicType (normalize identifier) = true ->
   sanitizeTypeName true identifier = normalize identifier).
Proof.
  unfold sanitizeTypeName, makePublicFn, replaceReservedWords.
  rewrite Hfree. cbn [String.eqb negb]. split.
  - intros Hb [Hempty | (a & rest & Heq & Hletter)].
    + rewrite Hempty. rewrite makePublic_empty.
      apply (leading_upper_ascii 69 "mptyString"). reflexivity.
    + rewrite Heq in *.
      assert (Ha : rune_of_byte a < 128).
      { unfold ascii_lower, ascii_upper in Hletter.
        apply orb_true_iff in Hletter.
        destruct Hletter as [Hl | Hl]; apply andb_true_iff in Hl; lia. }
      rewrite makePublic_ascii by assumption.
      apply leading_upper_ascii.
      unfold ascii_lower, ascii_upper in *.
      destruct (97 <=? rune_of_byte a) eqn:E1;
        destruct (rune_of_byte a <=? 122) eqn:E2; cbn [andb orb] in *;
        try exact Hletter;
        apply andb_true_iff; lia.
  - intros Hb. apply makePublic_basic, Hb.
Qed.

Lemma exported_names_capitalized_witness :
  table_get reservedWords "fooType" = "" /\
  leading_upper (H := ascii_text) (sanitizeTypeName (H := ascii_text) true "fooType") = true.
Proof.
  split; [reflexivity |].
  apply (proj1 (exported_names_capitalized (H := ascii_text) "fooType" eq_refl)).
  - reflexivity.
  - right. exists "f"%char, "ooType". split; reflexivity.
Defined.

(** ** The resolver *)

Lemma recursions_app (a b : list Event) :
  recursions (a ++ b) = recursions a + recursions b.
Proof.
  induction a as [| e a IH]; [reflexivity |].
  destruct e; simpl; rewrite ?IH; lia.
Qed.

Lemma recursions_nonneg (a : list Event) : 0 <= recursions a.
Proof. induction a as [| e a IH]; [simpl; lia |]. destruct e; simpl; lia. Qed.

Lemma decoded_schemas_app (a b : list Event) :
  decoded_schemas (a ++ b) = decoded_schemas a ++ decoded_schemas b.
Proof.
  induction a as [| e a IH]; [reflexivity |].
  destruct e; simpl; rewrite ?IH; reflexivity.
Qed.

Lemma decoded_keys_app (a b : list Event) :
  decoded_keys (a ++ b) = decoded_keys a ++ decoded_keys b.
Proof.
  induction a as [| e a IH]; [reflexivity |].
  destruct e; simpl; rewrite ?IH; reflexivity.
Qed.

Lemma same_config_refl (g : GoWSDL) : same_config g g.
Proof. repeat split. Qed.

Lemma same_config_trans (g1 g2 g3 : GoWSDL) :
  same_config g1 g2 -> same_config g2 g3 -> same_config g1 g3.
Proof.
  unfold same_config. intros (? & ? & ? & ?) (? & ? & ? & ?).
  repeat split; congruence.
Qed.

Lemma log_line_recursions (e : Event) : log_line e = true -> recursions [e] = 0.
Proof. destruct e; (discriminate || reflexivity). Qed.

Lemma log_line_decoded_keys (e : Event) :
  log_line e = true -> decoded_keys [e] = [].
Proof. destruct e; (discriminate || reflexivity). Qed.

Lemma log_line_decoded_schemas (e : Event) :
  log_line e = true -> decoded_schemas [e] = [].
Proof. destruct e; (discriminate || reflexivity). Qed.

Lemma resolved_mark (g : GoWSDL) (key key' : string) :
  resolved (mark_resolved key g) key' =
  if decide (key = key') then true else resolved g key'.
Proof.
  unfold resolved, mark_resolved. cbn [resolvedXSDExternals set_resolvedXSDExternals].
  rewrite lookup_insert. destruct (decide (key = key')); [reflexivity |].
  destruct (resolvedXSDExternals g); [reflexivity |].
  rewrite lookup_empty. reflexivity.
Qed.

(** *** The relation [extends] *)

Lemma extends_refl (st : state) : extends st st.
Proof.
  exists []. rewrite app_nil_r. simpl.
  repeat split; unfold maxRecursion; lia.
Qed.

Lemma extends_trans (st1 st2 st3 : state) :
  extends st1 st2 -> extends st2 st3 -> extends st1 st3.
Proof.
  intros (evs1 & Ht1 & Hc1 & Hl1) (evs2 & Ht2 & Hc2 & Hl2).
  exists (evs1 ++ evs2). rewrite recursions_app.
  split; [rewrite Ht2, Ht1, app_assoc; reflexivity |].
  split; [eapply same_config_trans; eassumption |].
  intros Hu. destruct (Hl1 Hu) as [Hl1a Hl1b].
  pose proof (recursions_nonneg evs1) as Hn1.
  assert (Hu2 : 0 <= level st2 < 256) by (unfold maxRecursion in *; lia).
  destruct (Hl2 Hu2) as [Hl2a Hl2b].
  unfold maxRecursion in *. lia.
Qed.

Lemma extends_steps (st : state) (g' : GoWSDL) (evs : list Event) :
  same_config (fst st) g' ->
  currentRecursionLevel g' = currentRecursionLevel (fst st) ->
  recursions evs = 0 ->
  extends st (g', snd st ++ evs).
Proof.
  intros Hc Hl He. exists evs. unfold level. cbn [fst snd].
  repeat split; try apply Hc; unfold maxRecursion; lia.
Qed.

Lemma extends_log (st : state) (e : Event) :
  log_line e = true -> extends st (fst st, snd st ++ [e]).
Proof.
  intros He. apply extends_steps;
    [apply same_config_refl | reflexivity | apply log_line_recursions, He].
Qed.

Lemma extends_assign (st : state) (f : GoWSDL -> GoWSDL) :
  (forall g, untouched g (f g)) -> extends st (f (fst st), snd st).
Proof.
  intros Hf. destruct (Hf (fst st)) as (Hc & Hl & _).
  pose proof (extends_steps st (f (fst st)) [] Hc Hl eq_refl) as Hs.
  rewrite app_nil_r in Hs. exact Hs.
Qed.

Lemma extends_mark (st : state) (key : string) :
  extends st (mark_resolved key (fst st), snd st).
Proof.
  pose proof (extends_steps st (mark_resolved key (fst st)) []) as Hs.
  rewrite app_nil_r in Hs. apply Hs; [repeat split | reflexivity | reflexivity].
Qed.

Lemma extends_decoded (st : state) (key : string) (e : Event) (s : XSDSchema) :
  resolved (fst st) key = false -> log_line e = true ->
  extends st (mark_resolved key (fst st), snd st ++ [e; Decoded key s]).
Proof.
  intros _ He. apply extends_steps; [repeat split | reflexivity |].
  change [e; Decoded key s] with ([e] ++ [Decoded key s]).
  rewrite recursions_app, (log_line_recursions e He). reflexivity.
Qed.

Lemma extends_recursed (st : state) (key : string) :
  (maxRecursion >? level st) = true ->
  extends st (incr_level (fst st), snd st ++ [Recursed key]).
Proof.
  intros Hlt. exists [Recursed key]. unfold level in *. simpl.
  unfold maxRecursion in *.
  assert (Hlt' : currentRecursionLevel (fst st) < 20) by lia.
  split; [reflexivity |]. split; [repeat split |].
  intros Hu. rewrite Z.mod_small by lia. lia.
Qed.

Lemma extends_level (st st' : state) :
  extends st st' -> 0 <= level st <= maxRecursion ->
  level st <= level st' <= maxRecursion.
Proof.
  intros (evs & _ & _ & Hl) Hu. unfold maxRecursion in *.
  pose proof (recursions_nonneg evs). destruct Hl; lia.
Qed.

Lemma extends_unmapped (st st' : state) (ns : string) :
  extends st st' -> unmapped (fst st') ns = unmapped (fst st) ns.
Proof.
  intros (evs & _ & (Hn & _) & _). unfold unmapped, getNSPackage.
  rewrite Hn. reflexivity.
Qed.

(** *** The relation [once] *)

Lemma once_refl (st : state) : once st st.
Proof.
  exists []. rewrite app_nil_r. cbn [decoded_keys].
  split; [reflexivity |]. split; [constructor |].
  split; [intros key [] | auto].
Qed.

Lemma once_trans (st1 st2 st3 : state) :
  once st1 st2 -> once st2 st3 -> once st1 st3.
Proof.
  intros (evs1 & Ht1 & Hn1 & Hk1 & Hm1) (evs2 & Ht2 & Hn2 & Hk2 & Hm2).
  exists (evs1 ++ evs2). rewrite decoded_keys_app.
  split; [rewrite Ht2, Ht1, app_assoc; reflexivity |].
  split.
  - apply NoDup_app. split; [exact Hn1 |]. split; [| exact Hn2].
    intros key Hin1 Hin2. apply list_elem_of_In in Hin1, Hin2.
    destruct (Hk1 key Hin1) as [_ Ht]. destruct (Hk2 key Hin2) as [Hf _].
    congruence.
  - split; [| auto].
    intros key Hin. apply in_app_or in Hin. destruct Hin as [Hin | Hin].
    + destruct (Hk1 key Hin) as [Hf Ht]. auto.
    + destruct (Hk2 key Hin) as [Hf Ht]. split; [| exact Ht].
      destruct (resolved (fst st1) key) eqn:E; [| reflexivity].
      apply Hm1 in E. congruence.
Qed.

Lemma once_steps (st : state) (g' : GoWSDL) (evs : list Event) :
  (forall key, resolved (fst st) key = true -> resolved g' key = true) ->
  decoded_keys evs = [] ->
  once st (g', snd st ++ evs).
Proof.
  intros Hm He. exists evs. rewrite He. cbn [fst snd].
  split; [reflexivity |]. split; [constructor |].
  split; [intros key [] | exact Hm].
Qed.

Lemma once_log (st : state) (e : Event) :
  log_line e = true -> once st (fst st, snd st ++ [e]).
Proof.
  intros He. apply once_steps; [auto | apply log_line_decoded_keys, He].
Qed.

Lemma once_assign (st : state) (f : GoWSDL -> GoWSDL) :
  (forall g, untouched g (f g)) -> once st (f (fst st), snd st).
Proof.
  intros Hf. destruct (Hf (fst st)) as (_ & _ & Hr).
  pose proof (once_steps st (f (fst st)) []) as Hs.
  rewrite app_nil_r in Hs. apply Hs; [| reflexivity].
  intros key. unfold resolved. rewrite Hr. auto.
Qed.

Lemma once_mark (st : state) (key : string) :
  once st (mark_resolved key (fst st), snd st).
Proof.
  pose proof (once_steps st (mark_resolved key (fst st)) []) as Hs.
  rewrite app_nil_r in Hs. apply Hs; [| reflexivity].
  intros key' Hr. rewrite resolved_mark. destruct (decide (key = key')); auto.
Qed.

Lemma once_decoded (st : state) (key : string) (e : Event) (s : XSDSchema) :
  resolved (fst st) key = false -> log_line e = true ->
  once st (mark_resolved key (fst st), snd st ++ [e; Decoded key s]).
Proof.
  intros Hres He. exists [e; Decoded key s].
  change [e; Decoded key s] with ([e] ++ [Decoded key s]).
  rewrite decoded_keys_app, (log_line_decoded_keys e He). cbn [app decoded_keys fst snd].
  split; [reflexivity |]. split; [apply NoDup_singleton |].
  split.
  - intros key' [<- | []]. split; [exact Hres |].
    rewrite resolved_mark. destruct (decide (key = key)); [reflexivity | contradiction].
  - intros key' Hr. rewrite resolved_mark. destruct (decide (key = key')); auto.
Qed.

Lemma once_recursed (st : state) (key : string) :
  (maxRecursion >? level st) = true ->
  once st (incr_level (fst st), snd st ++ [Recursed key]).
Proof. intros _. apply once_steps; [auto | reflexivity]. Qed.

Section ResolverFacts.

Variable Location_Parse : Location -> string -> Location + error.
Variable Location_String : Location -> string.
Variable ioutil_ReadFile : string -> bytes + error.
Variable downloadFile : string -> bool -> bytes + error.
Variable Unmarshal_WSDL : bytes -> WSDL + error.
Variable Unmarshal_XSDSchema : bytes -> XSDSchema + error.

#[local] Abbreviation fetch := (fetchFile ioutil_ReadFile downloadFile).
#[local] Abbreviation download1 :=
  (download Location_Parse Location_String ioutil_ReadFile downloadFile
            Unmarshal_XSDSchema).
#[local] Abbreviation resolve :=
  (resolveXSDExternals Location_Parse Location_String ioutil_ReadFile
                       downloadFile Unmarshal_XSDSchema).
#[local] Abbreviation pass_loop :=
  (unmarshal_loop Location_Parse Location_String ioutil_ReadFile
                  downloadFile Unmarshal_XSDSchema).
#[local] Abbreviation pass :=
  (unmarshal Location_Parse Location_String ioutil_ReadFile downloadFile
             Unmarshal_WSDL Unmarshal_XSDSchema).

(** [fetchFile] writes one line and leaves the generator. *)
Lemma fetchFile_run (l : Location) (st : state) :
  exists e, log_line e = true /\ snd (fetch l st) = (fst st, snd st ++ [e]).
Proof.
  unfold fetchFile. destruct (negb (String.eqb (loc_f l) "")).
  - exists (LogReading (loc_f l)). split; [reflexivity |].
    unfold bind, emit, lift. cbn [fst snd].
    destruct (ioutil_ReadFile (loc_f l)); reflexivity.
  - exists (LogDownloading (loc_u l)). split; [reflexivity |].
    unfold bind, emit, get, lift. cbn [fst snd].
    destruct (downloadFile (loc_u l) _); reflexivity.
Qed.

(** *** The resolver steps by any relation that its parts step by *)
Section Steps.

Variable R : state -> state -> Prop.
Hypothesis R_refl : forall st, R st st.
Hypothesis R_trans : forall st1 st2 st3, R st1 st2 -> R st2 st3 -> R st1 st3.
Hypothesis R_log :
  forall st e, log_line e = true -> R st (fst st, snd st ++ [e]).
Hypothesis R_assign :
  forall st f, (forall g, untouched g (f g)) -> R st (f (fst st), snd st).
Hypothesis R_mark :
  forall st key, R st (mark_resolved key (fst st), snd st).
Hypothesis R_decoded :
  forall st key e s,
    resolved (fst st) key = false -> log_line e = true ->
    R st (mark_resolved key (fst st), snd st ++ [e; Decoded key s]).
Hypothesis R_recursed :
  forall st key,
    (maxRecursion >? level st) = true ->
    R st (incr_level (fst st), snd st ++ [Recursed key]).

Lemma step_bind {A B} (c : M A) (k : A -> M B) (st : state) :
  R st (snd (c st)) ->
  (forall a, fst (c st) = Ok a -> R (snd (c st)) (snd (k a (snd (c st))))) ->
  R st (snd (bind c k st)).
Proof.
  unfold bind. destruct (c st) as [[a | e |] st1]; simpl; intros H1 H2.
  - eapply R_trans; [exact H1 | apply H2; reflexivity].
  - exact H1.
  - exact H1.
Qed.

Lemma steps_bind {A B} (c : M A) (k : A -> M B) :
  preserves R c -> (forall a, preserves R (k a)) -> preserves R (bind c k).
Proof.
  intros Hc Hk st. apply step_bind; [apply Hc |]. intros a _. apply Hk.
Qed.

Lemma steps_get_bind {B} (k : GoWSDL -> M B) :
  (forall st, R st (snd (k (fst st) st))) -> preserves R (bind get k).
Proof. intros Hk st. unfold bind, get. simpl. apply Hk. Qed.

Lemma steps_ret {A} (a : A) : preserves R (ret a).
Proof. intros st. apply R_refl. Qed.

Lemma steps_fail {A} (e : error) : preserves R (@fail A e).
Proof. intros st. apply R_refl. Qed.

Lemma steps_out_of_fuel {A} : preserves R (@out_of_fuel A).
Proof. intros st. apply R_refl. Qed.

Lemma steps_lift {A} (r : A + error) : preserves R (lift r).
Proof. destruct r; [apply steps_ret | apply steps_fail]. Qed.

Lemma steps_emit (e : Event) : log_line e = true -> preserves R (emit e).
Proof. intros He st. apply R_log, He. Qed.

Lemma steps_modify (f : GoWSDL -> GoWSDL) :
  (forall g, untouched g (f g)) -> preserves R (modify f).
Proof. intros Hf st. apply R_assign, Hf. Qed.

Lemma steps_fetchFile (l : Location) : preserves R (fetch l).
Proof.
  intros st. destruct (fetchFile_run l st) as (e & He & ->). apply R_log, He.
Qed.

(** From a key not yet resolved: mark it, fetch, decode, go on. *)
Lemma step_fetch_decode {B} (location : Location) (k : XSDSchema -> M B)
    (st : state) :
  resolved (fst st) (Location_String location) = false ->
  (forall newschema, preserves R (k newschema)) ->
  R st (snd ((modify (mark_resolved (Location_String location)) ;;;
              data <- fetch location ;;
              newschema <- lift (Unmarshal_XSDSchema data) ;;
              emit (Decoded (Location_String location) newschema) ;;;
              k newschema) st)).
Proof.
  intros Hres Hk. unfold bind at 1. cbn [modify fst snd].
  destruct (fetchFile_run location
              (mark_resolved (Location_String location) (fst st), snd st))
    as (e & He & Hst). cbn [fst snd] in Hst.
  assert (Hfail : R st (mark_resolved (Location_String location) (fst st),
                        snd st ++ [e])).
  { eapply R_trans; [apply R_mark |]. apply (R_log (_, _)), He. }
  unfold bind at 1.
  destruct (fetch location _) as [[data | e' |] st1]; cbn [snd] in Hst; subst st1;
    [| exact Hfail | exact Hfail].
  unfold bind at 1.
  destruct (Unmarshal_XSDSchema data) as [newschema | e']; cbn [lift ret fail];
    [| exact Hfail].
  unfold bind at 1. cbn [emit fst snd]. rewrite <- app_assoc. cbn [app].
  eapply R_trans; [exact (R_decoded st _ e newschema Hres He) |]. apply Hk.
Qed.

Lemma steps_download (rec : XSDSchema -> Location -> M (list XSDSchema)) :
  (forall s l, preserves R (rec s l)) ->
  forall base ref, preserves R (download1 rec base ref).
Proof.
  intros Hrec base ref. unfold download.
  apply steps_bind; [apply steps_lift |]. intros location.
  apply steps_get_bind. intros st.
  destruct (resolved (fst st) (Location_String location)) eqn:Hres;
    [apply R_refl |].
  apply step_fetch_decode; [exact Hres |]. intros newschema.
  apply steps_get_bind. intros st'.
  apply step_bind.
  - destruct (_ && (maxRecursion >? currentRecursionLevel (fst st'))) eqn:Hc;
      [| apply R_refl].
    apply andb_true_iff in Hc. destruct Hc as [_ Hc].
    unfold bind at 1. unfold modify at 1. cbn [fst snd].
    unfold bind at 1. unfold emit at 1. cbn [fst snd].
    eapply R_trans; [apply (R_recursed st'), Hc |].
    apply steps_bind; [apply Hrec |]. intros schemas. apply steps_ret.
  - intros downloadResult _.
    apply steps_bind; [apply steps_emit; reflexivity |]. intros _.
    apply steps_get_bind. intros st''.
    destruct (unmapped _ _); apply R_refl.
Qed.

Lemma steps_imports_loop (dl : Location -> string -> M (list XSDSchema)) :
  (forall base ref, preserves R (dl base ref)) ->
  forall l impts result, preserves R (imports_loop dl l impts result).
Proof.
  intros Hdl l impts. induction impts as [| impt impts IH]; intros result.
  - apply steps_ret.
  - simpl. destruct (String.eqb _ "").
    + apply steps_bind; [apply steps_emit; reflexivity |].
      intros _. apply IH.
    + apply steps_bind; [apply Hdl |]. intros newSchemas. apply IH.
Qed.

Lemma steps_includes_loop (dl : Location -> string -> M (list XSDSchema)) :
  (forall base ref, preserves R (dl base ref)) ->
  forall l incls result, preserves R (includes_loop dl l incls result).
Proof.
  intros Hdl l incls. induction incls as [| incl incls IH]; intros result.
  - apply steps_ret.
  - simpl. apply steps_bind; [apply Hdl |]. intros newSchemas. apply IH.
Qed.

Lemma steps_resolve (fuel : nat) :
  forall schema l, preserves R (resolve fuel schema l).
Proof.
  induction fuel as [| fuel IH]; intros schema l.
  - apply steps_out_of_fuel.
  - simpl. apply steps_bind.
    + apply steps_imports_loop, steps_download, IH.
    + intros result. apply steps_includes_loop, steps_download, IH.
Qed.

Lemma steps_pass_loop (fuel : nat) (schemas : list XSDSchema) :
  forall newSchemas, preserves R (pass_loop fuel schemas newSchemas).
Proof.
  induction schemas as [| schema schemas IH]; intros newSchemas.
  - apply steps_ret.
  - simpl. apply steps_bind; [apply steps_emit; reflexivity |].
    intros _. apply steps_get_bind. intros st.
    destruct (unmapped _ _); [apply R_refl |].
    apply step_bind; [apply steps_resolve |].
    intros resolvedSchemas _. apply IH.
Qed.

Lemma steps_pass (fuel : nat) : preserves R (pass fuel).
Proof.
  unfold unmarshal.
  apply steps_get_bind. intros st.
  generalize (loc (fst st)). intros l0. revert st.
  match goal with
  | |- forall st, R st (snd (?c st)) => change (preserves R c)
  end.
  apply steps_bind; [apply steps_fetchFile |]. intros data.
  apply steps_bind; [apply steps_lift |]. intros w.
  apply steps_bind; [apply steps_modify; intros g; repeat split |].
  intros _.
  apply steps_bind; [apply steps_modify; intros g; repeat split |].
  intros _.
  apply steps_bind; [apply steps_pass_loop |]. intros newSchemas.
  apply steps_modify; intros g; repeat split.
Qed.

End Steps.

(** *** The steps are steps of [extends] *)

Ltac by_extends :=
  intros;
  first [ apply extends_refl
        | eapply extends_trans; eassumption
        | apply extends_log; assumption
        | apply extends_assign; assumption
        | apply extends_mark
        | apply extends_decoded; assumption
        | apply extends_recursed; assumption ].

Ltac by_once :=
  intros;
  first [ apply once_refl
        | eapply once_trans; eassumption
        | apply once_log; assumption
        | apply once_assign; assumption
        | apply once_mark
        | apply once_decoded; assumption
        | apply once_recursed; assumption ].

Lemma preserves_bind {A B} (c : M A) (k : A -> M B) :
  preserves extends c -> (forall a, preserves extends (k a)) ->
  preserves extends (bind c k).
Proof. apply steps_bind; by_extends. Qed.

Lemma preserves_ret {A} (a : A) : preserves extends (ret a).
Proof. apply steps_ret; by_extends. Qed.

Lemma preserves_lift {A} (r : A + error) : preserves extends (lift r).
Proof. apply steps_lift; by_extends. Qed.

Lemma preserves_emit (e : Event) :
  log_line e = true -> preserves extends (emit e).
Proof. apply steps_emit; by_extends. Qed.

Lemma preserves_emit_decoded (key : string) (s : XSDSchema) :
  preserves extends (emit (Decoded key s)).
Proof.
  intros st. apply extends_steps; [apply same_config_refl | reflexivity | reflexivity].
Qed.

Lemma preserves_modify (f : GoWSDL -> GoWSDL) :
  (forall g, untouched g (f g)) -> preserves extends (modify f).
Proof. apply steps_modify; by_extends. Qed.

Lemma preserves_mark (key : string) :
  preserves extends (modify (mark_resolved key)).
Proof. intros st. apply extends_mark. Qed.

Lemma preserves_fetchFile (l : Location) : preserves extends (fetch l).
Proof. apply steps_fetchFile; by_extends. Qed.

Lemma preserves_download (rec : XSDSchema -> Location -> M (list XSDSchema)) :
  (forall s l, preserves extends (rec s l)) ->
  forall base ref, preserves extends (download1 rec base ref).
Proof.
  apply steps_download; by_extends.
Qed.

Lemma preserves_imports_loop (dl : Location -> string -> M (list XSDSchema)) :
  (forall base ref, preserves extends (dl base ref)) ->
  forall l impts result, preserves extends (imports_loop dl l impts result).
Proof. apply steps_imports_loop; by_extends. Qed.

Lemma preserves_includes_loop (dl : Location -> string -> M (list XSDSchema)) :
  (forall base ref, preserves extends (dl base ref)) ->
  forall l incls result, preserves extends (includes_loop dl l incls result).
Proof. apply steps_includes_loop; by_extends. Qed.

Lemma preserves_resolve (fuel : nat) :
  forall schema l, preserves extends (resolve fuel schema l).
Proof.
  apply steps_resolve; by_extends.
Qed.

Lemma preserves_pass_loop (fuel : nat) (schemas : list XSDSchema) :
  forall newSchemas, preserves extends (pass_loop fuel schemas newSchemas).
Proof.
  apply steps_pass_loop; by_extends.
Qed.

Lemma preserves_pass (fuel : nat) : preserves extends (pass fuel).
Proof.
  apply steps_pass; by_extends.
Qed.

(** *** The steps are steps of [once] *)

Lemma once_resolve (fuel : nat) :
  forall schema l, preserves once (resolve fuel schema l).
Proof.
  apply steps_resolve; by_once.
Qed.

Lemma once_pass (fuel : nat) : preserves once (pass fuel).
Proof.
  apply steps_pass; by_once.
Qed.

(** *** Enough fuel *)

Lemma fueled_at_bind {A B} (L : Z) (c : M A) (k : A -> M B) (st : state) :
  0 <= level st <= maxRecursion -> L <= level st ->
  fst (c st) <> OutOfFuel -> extends st (snd (c st)) ->
  (forall a, fueled L (k a)) ->
  fst (bind c k st) <> OutOfFuel.
Proof.
  intros Hu HL Hc He Hk. unfold bind.
  destruct (c st) as [[a | e |] st1] eqn:E; simpl in *.
  - pose proof (extends_level _ _ He Hu). apply Hk; lia.
  - discriminate.
  - contradiction.
Qed.

Lemma fueled_bind {A B} (L : Z) (c : M A) (k : A -> M B) :
  fueled L c -> preserves extends c -> (forall a, fueled L (k a)) ->
  fueled L (bind c k).
Proof.
  intros Hc Hp Hk st Hu HL.
  apply (fueled_at_bind L); auto.
Qed.

Lemma fueled_get_bind {B} (L : Z) (k : GoWSDL -> M B) :
  (forall st, 0 <= level st <= maxRecursion -> L <= level st ->
              fst (k (fst st) st) <> OutOfFuel) ->
  fueled L (bind get k).
Proof. intros Hk st Hu HL. unfold bind, get. simpl. apply Hk; assumption. Qed.

Lemma fueled_ret {A} (L : Z) (a : A) : fueled L (ret a).
Proof. intros st _ _. discriminate. Qed.

Lemma fueled_fail {A} (L : Z) (e : error) : fueled L (@fail A e).
Proof. intros st _ _. discriminate. Qed.

Lemma fueled_lift {A} (L : Z) (r : A + error) : fueled L (lift r).
Proof. destruct r; [apply fueled_ret | apply fueled_fail]. Qed.

Lemma fueled_emit (L : Z) (e : Event) : fueled L (emit e).
Proof. intros st _ _. discriminate. Qed.

Lemma fueled_modify (L : Z) (f : GoWSDL -> GoWSDL) : fueled L (modify f).
Proof. intros st _ _. discriminate. Qed.

Lemma fueled_fetchFile (L : Z) (l : Location) : fueled L (fetch l).
Proof.
  unfold fetchFile. destruct (negb (String.eqb (loc_f l) "")).
  - apply fueled_bind;
      [apply fueled_emit | apply preserves_emit; reflexivity |].
    intros _. apply fueled_lift.
  - apply fueled_bind;
      [apply fueled_emit | apply preserves_emit; reflexivity |].
    intros _. apply fueled_get_bind. intros st _ _.
    destruct (downloadFile _ _); discriminate.
Qed.

Lemma fueled_download (L : Z)
    (rec : XSDSchema -> Location -> M (list XSDSchema)) :
  (forall s l, preserves extends (rec s l)) ->
  (forall s l, fueled (L + 1) (rec s l)) ->
  forall base ref, fueled L (download1 rec base ref).
Proof.
  intros Hp Hrec base ref. unfold download.
  apply fueled_bind; [apply fueled_lift | apply preserves_lift |].
  intros location. apply fueled_get_bind. intros st Hu HL.
  destruct (resolved (fst st) (Location_String location)); [discriminate |].
  revert st Hu HL.
  match goal with
  | |- forall st, _ -> _ -> fst (?c st) <> OutOfFuel => change (fueled L c)
  end.
  apply fueled_bind; [apply fueled_modify | apply preserves_mark |]. intros _.
  apply fueled_bind; [apply fueled_fetchFile | apply preserves_fetchFile |].
  intros data.
  apply fueled_bind; [apply fueled_lift | apply preserves_lift |].
  intros newschema.
  apply fueled_bind; [apply fueled_emit | apply preserves_emit_decoded |].
  intros _. apply fueled_get_bind. intros st Hu HL.
  assert (Hstep :
    forall key,
      (maxRecursion >? currentRecursionLevel (fst st)) = true ->
      let st2 := (incr_level (fst st), snd st ++ [Recursed key]) in
      extends st st2 /\ 0 <= level st2 <= maxRecursion /\ L + 1 <= level st2).
  { intros key Hc. pose proof (extends_recursed st key Hc) as He.
    split; [exact He |]. destruct He as (evs & Hevs & _ & Hl).
    simpl in Hevs. apply app_inv_head in Hevs. subst evs.
    unfold maxRecursion in *. destruct Hl as [Hl _]; [lia |].
    change (recursions [Recursed key]) with 1 in Hl.
    unfold level in *. cbn [fst] in *. lia. }
  apply (fueled_at_bind L); try assumption.
  - destruct (_ && (maxRecursion >? currentRecursionLevel (fst st))) eqn:Hc;
      [| discriminate].
    apply andb_true_iff in Hc. destruct Hc as [_ Hc].
    destruct (Hstep (Location_String location) Hc) as (He & Hu2 & HL2).
    unfold bind at 1. unfold modify at 1. cbn [fst snd].
    unfold bind at 1. unfold emit at 1. cbn [fst snd].
    apply (fueled_at_bind (L + 1)); try assumption.
    + apply Hrec; assumption.
    + apply Hp.
    + intros schemas. apply fueled_ret.
  - destruct (_ && (maxRecursion >? currentRecursionLevel (fst st))) eqn:Hc;
      [| apply extends_refl].
    apply andb_true_iff in Hc. destruct Hc as [_ Hc].
    destruct (Hstep (Location_String location) Hc) as (He & Hu2 & HL2).
    unfold bind at 1. unfold modify at 1. cbn [fst snd].
    unfold bind at 1. unfold emit at 1. cbn [fst snd].
    eapply extends_trans; [exact He |].
    apply preserves_bind; [apply Hp |]. intros schemas. apply preserves_ret.
  - intros downloadResult.
    apply fueled_bind; [apply fueled_emit | apply preserves_emit; reflexivity |].
    intros _. apply fueled_get_bind. intros st' _ _.
    destruct (unmapped _ _); discriminate.
Qed.

Lemma fueled_imports_loop (L : Z) (dl : Location -> string -> M (list XSDSchema)) :
  (forall base ref, preserves extends (dl base ref)) ->
  (forall base ref, fueled L (dl base ref)) ->
  forall l impts result, fueled L (imports_loop dl l impts result).
Proof.
  intros Hp Hdl l impts. induction impts as [| impt impts IH]; intros result.
  - apply fueled_ret.
  - simpl. destruct (String.eqb _ "").
    + apply fueled_bind;
        [apply fueled_emit | apply preserves_emit; reflexivity |].
      intros _. apply IH.
    + apply fueled_bind; [apply Hdl | apply Hp |]. intros newSchemas. apply IH.
Qed.

Lemma fueled_includes_loop (L : Z) (dl : Location -> string -> M (list XSDSchema)) :
  (forall base ref, preserves extends (dl base ref)) ->
  (forall base ref, fueled L (dl base ref)) ->
  forall l incls result, fueled L (includes_loop dl l incls result).
Proof.
  intros Hp Hdl l incls. induction incls as [| incl incls IH]; intros result.
  - apply fueled_ret.
  - simpl. apply fueled_bind; [apply Hdl | apply Hp |].
    intros newSchemas. apply IH.
Qed.

Lemma fueled_resolve (fuel : nat) :
  forall schema l,
    fueled (maxRecursion + 1 - Z.of_nat fuel) (resolve fuel schema l).
Proof.
  induction fuel as [| fuel IH]; intros schema l.
  - intros st Hu HL. unfold maxRecursion in *. simpl in HL. lia.
  - assert (Hdl : forall base ref,
               fueled (maxRecursion + 1 - Z.of_nat (S fuel))
                      (download1 (resolve fuel) base ref)).
    { apply fueled_download; [apply preserves_resolve |].
      intros s l'.
      replace (maxRecursion + 1 - Z.of_nat (S fuel) + 1)
        with (maxRecursion + 1 - Z.of_nat fuel) by lia.
      apply IH. }
    simpl. apply fueled_bind.
    + apply fueled_imports_loop; [| exact Hdl].
      apply preserves_download, preserves_resolve.
    + apply preserves_imports_loop, preserves_download, preserves_resolve.
    + intros result. apply fueled_includes_loop; [| exact Hdl].
      apply preserves_download, preserves_resolve.
Qed.

Lemma fueled_pass_loop (fuel : nat) (schemas : list XSDSchema) :
  forall newSchemas,
    fueled (maxRecursion + 1 - Z.of_nat fuel) (pass_loop fuel schemas newSchemas).
Proof.
  induction schemas as [| schema schemas IH]; intros newSchemas.
  - apply fueled_ret.
  - simpl.
    apply fueled_bind; [apply fueled_emit | apply preserves_emit; reflexivity |].
    intros _. apply fueled_get_bind. intros st Hu HL.
    destruct (unmapped _ _); [discriminate |].
    apply (fueled_at_bind (maxRecursion + 1 - Z.of_nat fuel)); try assumption.
    + apply fueled_resolve; assumption.
    + apply preserves_resolve.
    + intros resolvedSchemas. apply IH.
Qed.

Lemma fueled_pass (fuel : nat) :
  fueled (maxRecursion + 1 - Z.of_nat fuel) (pass fuel).
Proof.
  unfold unmarshal. apply fueled_get_bind. intros st Hu HL.
  generalize (loc (fst st)). intros l0. revert st Hu HL.
  match goal with
  | |- forall st, _ -> _ -> fst (?c st) <> OutOfFuel =>
      change (fueled (maxRecursion + 1 - Z.of_nat fuel) c)
  end.
  apply fueled_bind; [apply fueled_fetchFile | apply preserves_fetchFile |].
  intros data.
  apply fueled_bind; [apply fueled_lift | apply preserves_lift |]. intros w.
  apply fueled_bind;
    [apply fueled_modify
    | apply preserves_modify; intros g; repeat split |].
  intros _.
  apply fueled_bind;
    [apply fueled_modify
    | apply preserves_modify; intros g; repeat split |].
  intros _.
  apply fueled_bind; [apply fueled_pass_loop | apply preserves_pass_loop |].
  intros newSchemas. apply fueled_modify.
Qed.

(** *** What a successful pass returns *)

Lemma bind_inv {A B} (c : M A) (k : A -> M B) (st : state) (b : B) (st' : state) :
  bind c k st = (Ok b, st') ->
  exists a st1, c st = (Ok a, st1) /\ k a st1 = (Ok b, st').
Proof.
  unfold bind. destruct (c st) as [[a | e |] st1]; intros Hk;
    [eauto | discriminate | discriminate].
Qed.

Lemma lift_inv {A} (r : A + error) (st : state) (a : A) (st1 : state) :
  lift r st = (Ok a, st1) -> r = inl a /\ st1 = st.
Proof.
  destruct r as [a' | e]; unfold lift, ret, fail; intros Heq;
    inversion Heq; subst; auto.
Qed.

Lemma fetchFile_inv (l : Location) (st : state) (data : bytes) (st1 : state) :
  fetch l st = (Ok data, st1) ->
  exists e, st1 = (fst st, snd st ++ [e]) /\
            (e = LogReading (loc_f l) \/ e = LogDownloading (loc_u l)).
Proof.
  unfold fetchFile. destruct (negb (String.eqb (loc_f l) "")); intros Hf.
  - apply bind_inv in Hf as ([] & st2 & H2 & Hf).
    unfold emit in H2. injection H2 as <-.
    apply lift_inv in Hf as [_ ->]. eauto.
  - apply bind_inv in Hf as ([] & st2 & H2 & Hf).
    unfold emit in H2. injection H2 as <-.
    apply bind_inv in Hf as (g & st3 & H3 & Hf).
    unfold get in H3. injection H3 as <- <-.
    apply lift_inv in Hf as [_ ->]. eauto.
Qed.

Lemma mapped_schema_config (g g' : GoWSDL) (s : XSDSchema) :
  nsToPkg g' = nsToPkg g -> mapped_schema g s -> mapped_schema g' s.
Proof.
  unfold mapped_schema, unmapped, getNSPackage. intros ->. auto.
Qed.

Lemma sound_download (rec : XSDSchema -> Location -> M (list XSDSchema)) :
  (forall s l, preserves extends (rec s l)) ->
  (forall s l, sound (rec s l)) ->
  forall base ref, sound (download1 rec base ref).
Proof.
  intros Hp Hs base ref st res st' H. unfold download in H.
  apply bind_inv in H as (location & st1 & H1 & H).
  apply lift_inv in H1 as [_ ->].
  apply bind_inv in H as (g & st1 & H1 & H).
  unfold get in H1. injection H1 as <- <-.
  destruct (resolved (fst st) (Location_String location)).
  { unfold ret in H. injection H as <- <-. exists [].
    rewrite app_nil_r. repeat split; constructor. }
  apply bind_inv in H as ([] & st1 & H1 & H).
  unfold modify in H1. injection H1 as <-.
  apply bind_inv in H as (data & st2 & H2 & H).
  apply fetchFile_inv in H2 as (e & -> & He). cbn [fst snd] in H.
  apply bind_inv in H as (newschema & st3 & H3 & H).
  apply lift_inv in H3 as [_ ->].
  apply bind_inv in H as ([] & st4 & H4 & H).
  unfold emit in H4. injection H4 as <-. cbn [fst snd] in H.
  apply bind_inv in H as (g' & st5 & H5 & H).
  unfold get in H5. injection H5 as <- <-. cbn [fst snd] in H.
  apply bind_inv in H as (downloadResult & st6 & H6 & H).
  apply bind_inv in H as ([] & st7 & H7 & H).
  unfold emit in H7. injection H7 as <-.
  apply bind_inv in H as (g'' & st8 & H8 & H).
  unfold get in H8. injection H8 as <- <-. cbn [fst snd] in H.
  destruct (unmapped (fst st6) (TargetNamespace newschema)) eqn:Hm;
    [discriminate |].
  unfold ret in H. injection H as <- <-.
  assert (Hdec : decoded_schemas [e] = []) by (destruct He; subst; reflexivity).
  destruct (_ && _) in H6.
  - apply bind_inv in H6 as ([] & st1 & H1 & H6).
    unfold modify in H1. injection H1 as <-. cbn [fst snd] in H6.
    apply bind_inv in H6 as ([] & st1 & H1 & H6).
    unfold emit in H1. injection H1 as <-. cbn [fst snd] in H6.
    apply bind_inv in H6 as (schemas & st1 & Hrec & H6).
    unfold ret in H6. injection H6 as <- <-.
    pose proof (Hp newschema location
                  (incr_level (mark_resolved (Location_String location) (fst st)),
                   ((snd st ++ [e]) ++
                    [Decoded (Location_String location) newschema]) ++
                   [Recursed (Location_String location)])) as Hext.
    rewrite Hrec in Hext. destruct Hext as (_ & _ & (Hn & _) & _).
    cbn [fst snd] in Hn.
    apply Hs in Hrec as (evs & Hevs & Hperm & Hmapped). cbn [fst snd] in *.
    exists ([e] ++ [Decoded (Location_String location) newschema] ++
            [Recursed (Location_String location)] ++ evs ++
            [LogAdding (TargetNamespace newschema)]).
    split; [rewrite Hevs, <- !app_assoc; reflexivity |].
    split.
    + rewrite !decoded_schemas_app, Hdec. simpl. rewrite app_nil_r.
      rewrite <- Hperm. symmetry. apply Permutation_cons_append.
    + apply Forall_app. split.
      * eapply Forall_impl; [exact Hmapped |].
        intros s. apply mapped_schema_config. reflexivity.
      * constructor; [| constructor].
        eapply mapped_schema_config; [| exact Hm]. symmetry. exact Hn.
  - unfold ret in H6. injection H6 as <- <-. cbn [fst snd] in *.
    exists ([e] ++ [Decoded (Location_String location) newschema] ++
            [LogAdding (TargetNamespace newschema)]).
    split; [rewrite <- !app_assoc; reflexivity |].
    split.
    + rewrite !decoded_schemas_app, Hdec. reflexivity.
    + constructor; [| constructor].
      eapply mapped_schema_config; [| exact Hm]. reflexivity.
Qed.

Lemma sound_imports_loop (dl : Location -> string -> M (list XSDSchema)) :
  (forall base ref, preserves extends (dl base ref)) ->
  (forall base ref, sound (dl base ref)) ->
  forall l impts result st res st',
    imports_loop dl l impts result st = (Ok res, st') ->
    exists new evs,
      res = result ++ new /\ snd st' = snd st ++ evs /\
      Permutation new (decoded_schemas evs) /\
      Forall (mapped_schema (fst st)) new.
Proof.
  intros Hp Hs l impts.
  induction impts as [| impt impts IH]; intros result st res st' H.
  - unfold imports_loop, ret in H. injection H as <- <-.
    exists [], []. rewrite !app_nil_r. repeat split; constructor.
  - simpl in H. destruct (String.eqb _ "").
    + apply bind_inv in H as ([] & st1 & H1 & H).
      unfold emit in H1. injection H1 as <-.
      apply IH in H as (new & evs & -> & Hevs & Hperm & Hmapped).
      cbn [fst snd] in *.
      exists new, ([LogWarnNoLocation (imp_Namespace impt)] ++ evs).
      split; [reflexivity |].
      split; [rewrite Hevs, <- app_assoc; reflexivity |].
      split; [rewrite decoded_schemas_app; exact Hperm | exact Hmapped].
    + apply bind_inv in H as (newSchemas & st1 & H1 & H).
      pose proof (Hp l (imp_SchemaLocation impt) st) as Hext.
      rewrite H1 in Hext. destruct Hext as (_ & _ & (Hn & _) & _).
      cbn [fst snd] in Hn.
      apply Hs in H1 as (evs1 & Hevs1 & Hperm1 & Hmapped1).
      apply IH in H as (new & evs & -> & Hevs & Hperm & Hmapped).
      exists (newSchemas ++ new), (evs1 ++ evs).
      split; [rewrite app_assoc; reflexivity |].
      split; [rewrite Hevs, Hevs1, app_assoc; reflexivity |].
      split; [rewrite decoded_schemas_app; apply Permutation_app; assumption |].
      apply Forall_app. split; [exact Hmapped1 |].
      eapply Forall_impl; [exact Hmapped |].
      intros s. apply mapped_schema_config. symmetry. exact Hn.
Qed.

Lemma sound_includes_loop (dl : Location -> string -> M (list XSDSchema)) :
  (forall base ref, preserves extends (dl base ref)) ->
  (forall base ref, sound (dl base ref)) ->
  forall l incls result st res st',
    includes_loop dl l incls result st = (Ok res, st') ->
    exists new evs,
      res = result ++ new /\ snd st' = snd st ++ evs /\
      Permutation new (decoded_schemas evs) /\
      Forall (mapped_schema (fst st)) new.
Proof.
  intros Hp Hs l incls.
  induction incls as [| incl incls IH]; intros result st res st' H.
  - unfold includes_loop, ret in H. injection H as <- <-.
    exists [], []. rewrite !app_nil_r. repeat split; constructor.
  - simpl in H.
    apply bind_inv in H as (newSchemas & st1 & H1 & H).
    pose proof (Hp l (incl_SchemaLocation incl) st) as Hext.
    rewrite H1 in Hext. destruct Hext as (_ & _ & (Hn & _) & _).
    cbn [fst snd] in Hn.
    apply Hs in H1 as (evs1 & Hevs1 & Hperm1 & Hmapped1).
    apply IH in H as (new & evs & -> & Hevs & Hperm & Hmapped).
    exists (newSchemas ++ new), (evs1 ++ evs).
    split; [rewrite app_assoc; reflexivity |].
    split; [rewrite Hevs, Hevs1, app_assoc; reflexivity |].
    split; [rewrite decoded_schemas_app; apply Permutation_app; assumption |].
    apply Forall_app. split; [exact Hmapped1 |].
    eapply Forall_impl; [exact Hmapped |].
    intros s. apply mapped_schema_config. symmetry. exact Hn.
Qed.

Lemma sound_resolve (fuel : nat) :
  forall schema l, sound (resolve fuel schema l).
Proof.
  induction fuel as [| fuel IH]; intros schema l st res st' H.
  - discriminate.
  - simpl in H.
    assert (Hp : forall base ref, preserves extends (download1 (resolve fuel) base ref))
      by (apply preserves_download, preserves_resolve).
    assert (Hs : forall base ref, sound (download1 (resolve fuel) base ref))
      by (apply sound_download; [apply preserves_resolve | exact IH]).
    apply bind_inv in H as (result & st1 & H1 & H).
    pose proof (preserves_imports_loop _ Hp l (Imports schema) [] st) as Hext.
    rewrite H1 in Hext. destruct Hext as (_ & _ & (Hn & _) & _).
    cbn [fst snd] in Hn.
    apply (sound_imports_loop _ Hp Hs) in H1
      as (new1 & evs1 & -> & Hevs1 & Hperm1 & Hmapped1).
    apply (sound_includes_loop _ Hp Hs) in H
      as (new2 & evs2 & -> & Hevs2 & Hperm2 & Hmapped2).
    exists (evs1 ++ evs2).
    split; [rewrite Hevs2, Hevs1, app_assoc; reflexivity |].
    split; [rewrite decoded_schemas_app; apply Permutation_app; assumption |].
    apply Forall_app. split; [exact Hmapped1 |].
    eapply Forall_impl; [exact Hmapped2 |].
    intros s. apply mapped_schema_config. symmetry. exact Hn.
Qed.

Lemma sound_pass_loop (fuel : nat) (schemas : list XSDSchema) :
  forall newSchemas st res st',
    pass_loop fuel schemas newSchemas st = (Ok res, st') ->
    Forall (mapped_schema (fst st)) schemas /\
    exists new evs,
      res = newSchemas ++ new /\ snd st' = snd st ++ evs /\
      Permutation new (decoded_schemas evs) /\
      Forall (mapped_schema (fst st)) new.
Proof.
  induction schemas as [| schema schemas IH]; intros newSchemas st res st' H.
  - unfold unmarshal_loop, ret in H. injection H as <- <-.
    split; [constructor |].
    exists [], []. rewrite !app_nil_r. repeat split; constructor.
  - simpl in H.
    apply bind_inv in H as ([] & st1 & H1 & H).
    unfold emit in H1. injection H1 as <-.
    apply bind_inv in H as (g & st1 & H1 & H).
    unfold get in H1. injection H1 as <- <-. cbn [fst snd] in H.
    destruct (unmapped (fst st) (TargetNamespace schema)) eqn:Hm;
      [discriminate |].
    apply bind_inv in H as (resolvedSchemas & st1 & H1 & H).
    pose proof (preserves_resolve fuel schema (loc (fst st))
                  (fst st, snd st ++ [LogResolving (TargetNamespace schema)]))
      as Hext.
    rewrite H1 in Hext. destruct Hext as (_ & _ & (Hn & _) & _).
    cbn [fst snd] in Hn.
    apply sound_resolve in H1 as (evs1 & Hevs1 & Hperm1 & Hmapped1).
    apply IH in H as (Hroots & new & evs & -> & Hevs & Hperm & Hmapped).
    cbn [fst snd] in *.
    assert (Hback : forall s, mapped_schema (fst st1) s -> mapped_schema (fst st) s)
      by (intros s; apply mapped_schema_config; symmetry; exact Hn).
    split.
    + constructor; [exact Hm |]. eapply Forall_impl; [exact Hroots | exact Hback].
    + exists (resolvedSchemas ++ new),
        ([LogResolving (TargetNamespace schema)] ++ evs1 ++ evs).
      split; [rewrite app_assoc; reflexivity |].
      split; [rewrite Hevs, Hevs1, <- !app_assoc; reflexivity |].
      split.
      * rewrite !decoded_schemas_app. simpl.
        apply Permutation_app; assumption.
      * apply Forall_app. split; [exact Hmapped1 |].
        eapply Forall_impl; [exact Hmapped | exact Hback].
Qed.

Lemma download_without_recursion
    (rec : XSDSchema -> Location -> M (list XSDSchema))
    (base : Location) (ref : string) (st : state) (location : Location)
    (data : bytes) (st1 : state) (newschema : XSDSchema) :
  Location_Parse base ref = inl location ->
  resolved (fst st) (Location_String location) = false ->
  fetch location (mark_resolved (Location_String location) (fst st), snd st)
    = (Ok data, st1) ->
  Unmarshal_XSDSchema data = inl newschema ->
  (Includes newschema = [] /\ Imports newschema = []) \/
  maxRecursion <= level st ->
  download1 rec base ref st =
  ((if unmapped (fst st) (TargetNamespace newschema)
    then Err (no_package_mapping (TargetNamespace newschema))
    else Ok [newschema]),
   (fst st1,
    snd st1 ++ [Decoded (Location_String location) newschema;
                LogAdding (TargetNamespace newschema)])).
Proof.
  intros HP Hres Hf HU Hstop.
  destruct (fetchFile_inv _ _ _ _ Hf) as (e & Hst1 & _).
  cbn [fst snd] in Hst1.
  unfold download, bind at 1. rewrite HP. cbn [lift ret].
  unfold bind at 1. cbn [get fst snd]. rewrite Hres.
  unfold bind at 1. cbn [modify fst snd].
  unfold bind at 1. rewrite Hf.
  unfold bind at 1. rewrite HU. cbn [lift ret].
  unfold bind at 1. cbn [emit fst snd].
  unfold bind at 1. cbn [get fst snd].
  assert (Hcond :
    ((0 <? Z.of_nat (List.length (Includes newschema)))
     || (0 <? Z.of_nat (List.length (Imports newschema))))
    && (maxRecursion >? currentRecursionLevel (fst st1)) = false).
  { destruct Hstop as [[-> ->] | Hlevel]; [reflexivity |].
    apply andb_false_iff. right. rewrite Hst1. cbn [fst].
    unfold level, maxRecursion in *. simpl. lia. }
  rewrite Hcond. unfold bind at 1. cbn [ret].
  unfold bind at 1. cbn [emit fst snd].
  unfold bind at 1. cbn [get fst snd].
  assert (Hm : unmapped (fst st1) (TargetNamespace newschema)
               = unmapped (fst st) (TargetNamespace newschema)).
  { rewrite Hst1. reflexivity. }
  rewrite Hm. rewrite <- app_assoc.
  destruct (unmapped (fst st) (TargetNamespace newschema)); reflexivity.
Qed.

Lemma download_with_recursion
    (rec : XSDSchema -> Location -> M (list XSDSchema))
    (base : Location) (ref : string) (st : state) (location : Location)
    (data : bytes) (st1 : state) (newschema : XSDSchema) :
  (forall s l, preserves extends (rec s l)) ->
  Location_Parse base ref = inl location ->
  resolved (fst st) (Location_String location) = false ->
  fetch location (mark_resolved (Location_String location) (fst st), snd st)
    = (Ok data, st1) ->
  Unmarshal_XSDSchema data = inl newschema ->
  Includes newschema <> [] \/ Imports newschema <> [] ->
  level st < maxRecursion ->
  download1 rec base ref st =
  match rec newschema location
          (incr_level (fst st1),
           snd st1 ++ [Decoded (Location_String location) newschema;
                       Recursed (Location_String location)]) with
  | (Ok schemas, st3) =>
      ((if unmapped (fst st) (TargetNamespace newschema)
        then Err (no_package_mapping (TargetNamespace newschema))
        else Ok (schemas ++ [newschema])),
       (fst st3, snd st3 ++ [LogAdding (TargetNamespace newschema)]))
  | (Err e, st3) => (Err e, st3)
  | (OutOfFuel, st3) => (OutOfFuel, st3)
  end.
Proof.
  intros Hp HP Hres Hf HU Hext Hlevel.
  destruct (fetchFile_inv _ _ _ _ Hf) as (e & Hst1 & _).
  cbn [fst snd] in Hst1.
  unfold download, bind at 1. rewrite HP. cbn [lift ret].
  unfold bind at 1. cbn [get fst snd]. rewrite Hres.
  unfold bind at 1. cbn [modify fst snd].
  unfold bind at 1. rewrite Hf.
  unfold bind at 1. rewrite HU. cbn [lift ret].
  unfold bind at 1. cbn [emit fst snd].
  unfold bind at 1. cbn [get fst snd].
  assert (Hcond :
    ((0 <? Z.of_nat (List.length (Includes newschema)))
     || (0 <? Z.of_nat (List.length (Imports newschema))))
    && (maxRecursion >? currentRecursionLevel (fst st1)) = true).
  { apply andb_true_iff. split.
    - apply orb_true_iff.
      destruct Hext as [Hne | Hne]; [left | right];
        (destruct (_ newschema); [contradiction | reflexivity]).
    - rewrite Hst1. cbn [fst]. unfold level, maxRecursion in *. simpl. lia. }
  rewrite Hcond.
  unfold bind at 1. unfold bind at 1. cbn [modify fst snd].
  unfold bind at 1. cbn [emit fst snd].
  rewrite <- app_assoc. cbn [app].
  unfold bind at 1.
  pose proof (Hp newschema location
                (incr_level (fst st1),
                 snd st1 ++ [Decoded (Location_String location) newschema;
                             Recursed (Location_String location)])) as Hstep.
  destruct (rec newschema location _) as [[schemas | e' |] st3];
    [| reflexivity | reflexivity].
  cbn [ret]. unfold bind at 1. cbn [emit fst snd].
  unfold bind at 1. cbn [get fst snd].
  assert (Hm : unmapped (fst st3) (TargetNamespace newschema)
               = unmapped (fst st) (TargetNamespace newschema)).
  { rewrite (extends_unmapped _ _ _ Hstep). rewrite Hst1. reflexivity. }
  rewrite Hm.
  destruct (unmapped (fst st) (TargetNamespace newschema)); reflexivity.
Qed.

Lemma pass_loop_unmapped_root (fuel : nat) (schema : XSDSchema)
    (schemas newSchemas : list XSDSchema) (st : state) :
  unmapped (fst st) (TargetNamespace schema) = true ->
  pass_loop fuel (schema :: schemas) newSchemas st =
  (Err (no_package_mapping (TargetNamespace schema)),
   (fst st, snd st ++ [LogResolving (TargetNamespace schema)])).
Proof.
  intros Hm. simpl. unfold bind at 1. cbn [emit fst snd].
  unfold bind at 1. cbn [get fst snd]. rewrite Hm. reflexivity.
Qed.

Lemma sound_pass (fuel : nat) (st st' : state) :
  pass fuel st = (Ok tt, st') ->
  exists data w new evs,
    Unmarshal_WSDL data = inl w /\
    wsdl (fst st') = Some {| Types_Schemas := Types_Schemas w ++ new |} /\
    snd st' = snd st ++ evs /\
    Permutation new (decoded_schemas evs) /\
    Forall (mapped_schema (fst st)) (Types_Schemas w ++ new).
Proof.
  intros H. unfold unmarshal in H.
  apply bind_inv in H as (g & st1 & H1 & H).
  unfold get in H1. injection H1 as <- <-.
  apply bind_inv in H as (data & st1 & H1 & H).
  apply fetchFile_inv in H1 as (e & -> & He).
  apply bind_inv in H as (w & st1 & H1 & H).
  apply lift_inv in H1 as [HW ->].
  apply bind_inv in H as ([] & st1 & H1 & H).
  unfold modify in H1. injection H1 as <-.
  apply bind_inv in H as ([] & st1 & H1 & H).
  unfold modify in H1. injection H1 as <-. cbn [fst snd] in H.
  apply bind_inv in H as (newSchemas & st1 & H1 & H).
  unfold modify in H. injection H as <-.
  apply sound_pass_loop in H1 as (Hroots & new & evs & -> & Hevs & Hperm & Hmapped).
  cbn [fst snd] in *.
  exists data, w, new, ([e] ++ evs).
  split; [exact HW |]. split; [reflexivity |].
  split; [rewrite Hevs, <- app_assoc; reflexivity |].
  split.
  - rewrite decoded_schemas_app.
    destruct He; subst; exact Hperm.
  - apply Forall_app. split.
    + eapply Forall_impl; [exact Hroots |].
      intros s. apply mapped_schema_config. reflexivity.
    + eapply Forall_impl; [exact Hmapped |].
      intros s. apply mapped_schema_config. reflexivity.
Qed.


(** *** A cycle of two documents through the root *)

Lemma files_read_app (a b : list Event) :
  files_read (a ++ b) = files_read a ++ files_read b.
Proof.
  induction a as [| e a IH]; [reflexivity |].
  destruct e; simpl; rewrite ?IH; reflexivity.
Qed.

Lemma unmapped_single_package (g : GoWSDL) (ns : string) :
  nsToPkg g = ∅ -> unmapped g ns = false.
Proof. intros Hn. unfold unmapped. rewrite Hn. reflexivity. Qed.

Lemma fetchFile_file (l : Location) (g : GoWSDL) (tr : list Event)
    (data : bytes) :
  loc_f l <> "" -> ioutil_ReadFile (loc_f l) = inl data ->
  fetch l (g, tr) = (Ok data, (g, tr ++ [LogReading (loc_f l)])).
Proof.
  intros Hf Hr. unfold fetchFile.
  destruct (String.eqb_spec (loc_f l) ""); [contradiction |].
  cbn [negb]. unfold bind, emit. cbn [fst snd]. rewrite Hr. reflexivity.
Qed.

Lemma resolved_incr_level (g : GoWSDL) (key : string) :
  resolved (incr_level g) key = resolved g key.
Proof. reflexivity. Qed.

Lemma download_resolved (rec : XSDSchema -> Location -> M (list XSDSchema))
    (base : Location) (ref : string) (st : state) (location : Location) :
  Location_Parse base ref = inl location ->
  resolved (fst st) (Location_String location) = true ->
  download1 rec base ref st = (Ok [], st).
Proof.
  intros HP Hres. unfold download, bind at 1. rewrite HP. cbn [lift ret].
  unfold bind at 1. cbn [get fst snd]. rewrite Hres. reflexivity.
Qed.

Lemma includes_loop_resolved (rec : XSDSchema -> Location -> M (list XSDSchema))
    (l : Location) (key : string) (incls : list XSDInclude) :
  Forall (fun incl =>
            exists l', Location_Parse l (incl_SchemaLocation incl) = inl l' /\
                       Location_String l' = key) incls ->
  forall result st,
    resolved (fst st) key = true ->
    includes_loop (download1 rec) l incls result st = (Ok result, st).
Proof.
  induction 1 as [| incl incls (l' & HP & Hkey) _ IH]; intros result st Hres.
  - reflexivity.
  - cbn [includes_loop]. unfold bind at 1.
    rewrite (download_resolved rec l _ st l' HP) by (rewrite Hkey; exact Hres).
    rewrite app_nil_r. apply IH, Hres.
Qed.

Lemma resolve_one_include (fuel : nat) (schema : XSDSchema) (l : Location)
    (ref : string) (st : state) :
  Imports schema = [] ->
  Includes schema = [{| incl_SchemaLocation := ref |}] ->
  resolve (S fuel) schema l st =
  match download1 (resolve fuel) l ref st with
  | (Ok newSchemas, st') => (Ok newSchemas, st')
  | (Err e, st') => (Err e, st')
  | (OutOfFuel, st') => (OutOfFuel, st')
  end.
Proof.
  intros Hi Hc. cbn [resolveXSDExternals]. rewrite Hi, Hc.
  cbn [imports_loop includes_loop]. unfold bind at 1. cbn [ret].
  unfold bind at 1. cbn [incl_SchemaLocation].
  destruct (download1 (resolve fuel) l ref st) as [[ns | e |] st']; reflexivity.
Qed.

(** For every cycle of two documents through the root: the root, read
    from a file, holds schema [A], whose one include resolves to [locB];
    the file there holds [B], whose one include resolves to [locA], the
    file of the root; decoded as a schema, that file gives [A'], whose
    includes, if any, resolve to the key of [locB].  From a fresh
    generator the pass succeeds, reads the root's file twice, decodes it
    a second time, and leaves three documents in the working set. *)
Lemma cycle_through_root_refetches_root (fuel : nat) (r : Location)
    (p base : string) (ign exp : bool) (dataA dataB : bytes)
    (A A' B : XSDSchema) (refA refB : string) (locA locB : Location) :
  (3 <= fuel)%nat ->
  loc_f r <> "" -> ioutil_ReadFile (loc_f r) = inl dataA ->
  Unmarshal_WSDL dataA = inl {| Types_Schemas := [A] |} ->
  Imports A = [] -> Includes A = [{| incl_SchemaLocation := refB |}] ->
  Location_Parse r refB = inl locB ->
  loc_f locB <> "" -> ioutil_ReadFile (loc_f locB) = inl dataB ->
  Unmarshal_XSDSchema dataB = inl B ->
  Imports B = [] -> Includes B = [{| incl_SchemaLocation := refA |}] ->
  Location_Parse locB refA = inl locA ->
  loc_f locA = loc_f r ->
  Location_String locA <> Location_String locB ->
  Unmarshal_XSDSchema dataA = inl A' ->
  Imports A' = [] ->
  Forall (fun incl =>
            exists l', Location_Parse locA (incl_SchemaLocation incl) = inl l' /\
                       Location_String l' = Location_String locB)
         (Includes A') ->
  let run := pass fuel (NewGoWSDL r p ∅ base ign exp, []) in
  fst run = Ok tt /\
  files_read (snd (snd run)) = [loc_f r; loc_f locB; loc_f r] /\
  decoded_keys (snd (snd run)) = [Location_String locB; Location_String locA] /\
  wsdl (fst (snd run)) = Some {| Types_Schemas := [A; A'; B] |}.
Proof.
  intros Hfuel HfA HrA HW HiA HcA HPB HfB HrB HUB HiB HcB HPA Hsame Hkeys
    HUA HiA' HcA'.
  destruct fuel as [| [| [| fuel]]]; try (simpl in Hfuel; lia). clear Hfuel.
  set (kA := Location_String locA) in *. set (kB := Location_String locB) in *.
  (* the include of B, from a state in which kB is resolved and kA is not *)
  assert (HdA : forall st,
            resolved (fst st) kB = true -> resolved (fst st) kA = false ->
            nsToPkg (fst st) = ∅ -> level st < maxRecursion ->
            exists st',
              download1 (resolve (S fuel)) locB refA st = (Ok [A'], st') /\
              files_read (snd st') = files_read (snd st) ++ [loc_f r] /\
              decoded_keys (snd st') = decoded_keys (snd st) ++ [kA] /\
              nsToPkg (fst st') = ∅).
  { intros st HresB HresA Hn Hl.
    assert (Hf : fetch locA (mark_resolved kA (fst st), snd st)
                 = (Ok dataA, (mark_resolved kA (fst st),
                               snd st ++ [LogReading (loc_f r)]))).
    { rewrite <- Hsame. apply fetchFile_file; rewrite Hsame; assumption. }
    assert (Hcase : Includes A' = [] \/ Includes A' <> [])
      by (destruct (Includes A'); [left; reflexivity | right; discriminate]).
    destruct Hcase as [HcA'' | HcA''].
    - rewrite (download_without_recursion (resolve (S fuel)) locB refA st locA
                 dataA _ A' HPA HresA Hf HUA) by (left; split; assumption).
      rewrite (unmapped_single_package _ _ Hn). cbn [fst snd].
      eexists. split; [reflexivity |]. cbn [fst snd].
      rewrite !files_read_app, !decoded_keys_app. cbn.
      rewrite !app_nil_r. repeat split; assumption.
    - rewrite (download_with_recursion (resolve (S fuel)) locB refA st locA
                 dataA _ A' (preserves_resolve (S fuel)) HPA HresA Hf HUA)
        by (try assumption; left; exact HcA'').
      cbn [fst snd]. cbn [resolveXSDExternals]. rewrite HiA'.
      cbn [imports_loop]. unfold bind at 1. cbn [ret].
      rewrite (includes_loop_resolved (resolve fuel) locA kB (Includes A') HcA')
        by (cbn [fst]; rewrite resolved_incr_level, resolved_mark;
            destruct (decide (kA = kB)); [reflexivity | exact HresB]).
      rewrite (unmapped_single_package _ _ Hn). cbn [fst snd].
      eexists. split; [reflexivity |]. cbn [fst snd].
      rewrite !files_read_app, !decoded_keys_app. cbn.
      rewrite !app_nil_r. repeat split; assumption. }
  (* the include of A, from a state in which neither key is resolved *)
  assert (HdB : forall st,
            resolved (fst st) kB = false -> resolved (fst st) kA = false ->
            nsToPkg (fst st) = ∅ -> 0 <= level st -> level st + 2 <= maxRecursion ->
            exists st',
              download1 (resolve (S (S fuel))) r refB st = (Ok [A'; B], st') /\
              files_read (snd st') = files_read (snd st) ++ [loc_f locB; loc_f r] /\
              decoded_keys (snd st') = decoded_keys (snd st) ++ [kB; kA] /\
              nsToPkg (fst st') = ∅).
  { intros st HresB HresA Hn Hl0 Hl.
    assert (Hf : fetch locB (mark_resolved kB (fst st), snd st)
                 = (Ok dataB, (mark_resolved kB (fst st),
                               snd st ++ [LogReading (loc_f locB)])))
      by (apply fetchFile_file; assumption).
    rewrite (download_with_recursion (resolve (S (S fuel))) r refB st locB
               dataB _ B (preserves_resolve (S (S fuel))) HPB HresB Hf HUB)
      by (try (unfold maxRecursion in *; lia); left; rewrite HcB; discriminate).
    cbn [fst snd]. rewrite (resolve_one_include (S fuel) B locB refA _ HiB HcB).
    match goal with
    | |- context [download1 (resolve (S fuel)) locB refA ?st2] =>
        destruct (HdA st2) as (st' & Hd & Hfr & Hdk & Hn')
    end.
    - cbn [fst]. rewrite resolved_incr_level, resolved_mark.
      destruct (decide (kB = kB)); [reflexivity | contradiction].
    - cbn [fst]. rewrite resolved_incr_level, resolved_mark.
      destruct (decide (kB = kA)) as [Heq | _]; [symmetry in Heq; contradiction |].
      exact HresA.
    - exact Hn.
    - unfold level in *. cbn [fst]. unfold incr_level. cbn.
      unfold maxRecursion in *. rewrite Z.mod_small by lia. lia.
    - rewrite Hd. rewrite (unmapped_single_package _ _ Hn). cbn [fst snd].
      eexists. split; [reflexivity |]. cbn [fst snd].
      rewrite files_read_app, decoded_keys_app, Hfr, Hdk. cbn [fst snd].
      rewrite !files_read_app, !decoded_keys_app. cbn.
      rewrite !app_nil_r, <- !app_assoc. repeat split; assumption. }
  (* the pass *)
  cbv zeta.
  enough (exists st',
            pass (S (S (S fuel))) (NewGoWSDL r p ∅ base ign exp, [])
            = (Ok tt, st') /\
            files_read (snd st') = [loc_f r; loc_f locB; loc_f r] /\
            decoded_keys (snd st') = [kB; kA] /\
            wsdl (fst st') = Some {| Types_Schemas := [A; A'; B] |})
    as (st' & -> & Hfr & Hdk & Hw) by (repeat split; assumption).
  unfold unmarshal. unfold bind at 1. cbn [get fst snd NewGoWSDL loc].
  unfold bind at 1. rewrite (fetchFile_file r _ _ dataA HfA HrA). cbn [fst snd].
  unfold bind at 1. rewrite HW. cbn [lift ret].
  unfold bind at 1. cbn [modify fst snd].
  unfold bind at 1. cbn [modify fst snd].
  unfold bind at 1. cbn [Types_Schemas unmarshal_loop].
  unfold bind at 1. cbn [emit fst snd].
  unfold bind at 1. cbn [get fst snd].
  rewrite unmapped_single_package by reflexivity.
  unfold bind at 1. cbn [loc set_rawWSDL set_wsdl].
  rewrite (resolve_one_include (S (S fuel)) A r refB _ HiA HcA).
  match goal with
  | |- context [download1 (resolve (S (S fuel))) r refB ?st2] =>
      destruct (HdB st2) as (st' & Hd & Hfr & Hdk & Hn');
      [reflexivity | reflexivity | reflexivity
      | cbn; lia | cbn; unfold maxRecursion; lia |]
  end.
  rewrite Hd. cbn [ret app]. unfold modify. cbn [fst snd].
  cbn in Hfr, Hdk.
  eexists. split; [reflexivity |]. cbn [fst snd wsdl set_wsdl].
  repeat split; assumption.
Qed.

(** The resolved set at work: in a call of [resolveXSDExternals] and in a
    whole pass, the keys of the documents fetched and decoded by
    [download] are pairwise distinct, and none of them was resolved
    before.  (The location of the root is not among the resolved ones
    when the pass begins.) *)
Lemma externals_decoded_once (fuel : nat) (st : state) :
  (forall schema l,
     exists evs,
       snd (snd (resolve fuel schema l st)) = snd st ++ evs /\
       NoDup (decoded_keys evs) /\
       forall key, In key (decoded_keys evs) -> resolved (fst st) key = false) /\
  (exists evs,
     snd (snd (pass fuel st)) = snd st ++ evs /\
     NoDup (decoded_keys evs) /\
     forall key, In key (decoded_keys evs) -> resolved (fst st) key = false).
Proof.
  split.
  - intros schema l.
    destruct (once_resolve fuel schema l st) as (evs & Hevs & Hn & Hk & _).
    exists evs. split; [exact Hevs |]. split; [exact Hn |].
    intros key Hin. apply Hk, Hin.
  - destruct (once_pass fuel st) as (evs & Hevs & Hn & Hk & _).
    exists evs. split; [exact Hevs |]. split; [exact Hn |].
    intros key Hin. apply Hk, Hin.
Qed.

(** C3. The ceiling is 20.  From a counter within it, over a call of
    [resolveXSDExternals] and over the whole pass [unmarshal]: the
    counter grows by one for each entry into [resolveXSDExternals] from
    [download], so it is never reset or decremented, and it stays within
    the ceiling; with the counter at the ceiling there is no such entry,
    and [download] returns a newly decoded document as it is, without an
    error, whatever it imports or includes.  Fuel above the distance to
    the ceiling is never used up. *)
Theorem recursion_counter_global (fuel : nat) (st : state)
    (Hlevel : 0 <= level st <= maxRecursion) :
  maxRecursion = 20 /\
  (forall schema l,
     exists evs,
       snd (snd (resolve fuel schema l st)) = snd st ++ evs /\
       level (snd (resolve fuel schema l st)) = level st + recursions evs /\
       level st <= level (snd (resolve fuel schema l st)) <= maxRecursion /\
       (level st = maxRecursion -> recursions evs = 0)) /\
  (exists evs,
     snd (snd (pass fuel st)) = snd st ++ evs /\
     level (snd (pass fuel st)) = level st + recursions evs /\
     level st <= level (snd (pass fuel st)) <= maxRecursion /\
     (level st = maxRecursion -> recursions evs = 0)) /\
  (maxRecursion - level st < Z.of_nat fuel ->
   fst (pass fuel st) <> OutOfFuel /\
   forall schema l, fst (resolve fuel schema l st) <> OutOfFuel) /\
  (forall rec base ref location data st1 newschema,
     level st = maxRecursion ->
     Location_Parse base ref = inl location ->
     resolved (fst st) (Location_String location) = false ->
     fetch location (mark_resolved (Location_String location) (fst st), snd st)
       = (Ok data, st1) ->
     Unmarshal_XSDSchema data = inl newschema ->
     unmapped (fst st) (TargetNamespace newschema) = false ->
     download1 rec base ref st =
     (Ok [newschema],
      (fst st1,
       snd st1 ++ [Decoded (Location_String location) newschema;
                   LogAdding (TargetNamespace newschema)]))).
Proof.
  assert (Hstep : forall st',
            extends st st' ->
            exists evs,
              snd st' = snd st ++ evs /\
              level st' = level st + recursions evs /\
              level st <= level st' <= maxRecursion /\
              (level st = maxRecursion -> recursions evs = 0)).
  { intros st' (evs & Hevs & _ & Hl). exists evs.
    pose proof (recursions_nonneg evs).
    unfold maxRecursion in *. destruct Hl as [Hl1 Hl2]; [lia |].
    repeat split; try assumption; lia. }
  split; [reflexivity |].
  split; [intros schema l; apply Hstep, preserves_resolve |].
  split; [apply Hstep, preserves_pass |].
  split.
  - intros Hfuel. split.
    + apply fueled_pass; [assumption | lia].
    + intros schema l. apply fueled_resolve; [assumption | lia].
  - intros rec base ref location data st1 newschema Hmax HP Hres Hf HU Hm.
    rewrite (download_without_recursion rec base ref st location data st1 newschema)
      by (try assumption; right; lia).
    rewrite Hm. reflexivity.
Qed.

(** C7, amended.  In multi-package mode a schema without a package for
    its name space is fatal, and a pass that succeeds has a package for
    every schema of its working set, which is the root's schemas and the
    documents decoded: there is no partial result.  A root schema is
    checked before its externals are resolved, and the pass ends there
    with "no package mapping for namespace".  An external is checked
    once its own imports and includes have been resolved: one that has
    none, or is decoded at the recursion ceiling, ends the pass with
    that error right after it is decoded; one that has some ends it
    with that error when their resolution succeeds, and with the error
    of their resolution otherwise. *)
Theorem unmapped_namespace_fatal (fuel : nat) (st : state) :
  (forall schema schemas newSchemas,
     unmapped (fst st) (TargetNamespace schema) = true ->
     pass_loop fuel (schema :: schemas) newSchemas st =
     (Err (no_package_mapping (TargetNamespace schema)),
      (fst st, snd st ++ [LogResolving (TargetNamespace schema)]))) /\
  (forall rec base ref location data st1 newschema,
     Location_Parse base ref = inl location ->
     resolved (fst st) (Location_String location) = false ->
     fetch location (mark_resolved (Location_String location) (fst st), snd st)
       = (Ok data, st1) ->
     Unmarshal_XSDSchema data = inl newschema ->
     (Includes newschema = [] /\ Imports newschema = []) \/
     maxRecursion <= level st ->
     unmapped (fst st) (TargetNamespace newschema) = true ->
     download1 rec base ref st =
     (Err (no_package_mapping (TargetNamespace newschema)),
      (fst st1,
       snd st1 ++ [Decoded (Location_String location) newschema;
                   LogAdding (TargetNamespace newschema)]))) /\
  (forall rec base ref location data st1 newschema,
     (forall s l, preserves extends (rec s l)) ->
     Location_Parse base ref = inl location ->
     resolved (fst st) (Location_String location) = false ->
     fetch location (mark_resolved (Location_String location) (fst st), snd st)
       = (Ok data, st1) ->
     Unmarshal_XSDSchema data = inl newschema ->
     Includes newschema <> [] \/ Imports newschema <> [] ->
     level st < maxRecursion ->
     unmapped (fst st) (TargetNamespace newschema) = true ->
     download1 rec base ref st =
     match rec newschema location
             (incr_level (fst st1),
              snd st1 ++ [Decoded (Location_String location) newschema;
                          Recursed (Location_String location)]) with
     | (Ok _, st3) =>
         (Err (no_package_mapping (TargetNamespace newschema)),
          (fst st3, snd st3 ++ [LogAdding (TargetNamespace newschema)]))
     | (Err e, st3) => (Err e, st3)
     | (OutOfFuel, st3) => (OutOfFuel, st3)
     end) /\
  (forall schema l res st',
     resolve fuel schema l st = (Ok res, st') ->
     exists evs,
       snd st' = snd st ++ evs /\
       Permutation res (decoded_schemas evs) /\
       Forall (fun s => unmapped (fst st) (TargetNamespace s) = false) res) /\
  (forall st',
     pass fuel st = (Ok tt, st') ->
     exists data w new evs,
       Unmarshal_WSDL data = inl w /\
       wsdl (fst st') = Some {| Types_Schemas := Types_Schemas w ++ new |} /\
       snd st' = snd st ++ evs /\
       Permutation new (decoded_schemas evs) /\
       Forall (fun s => unmapped (fst st) (TargetNamespace s) = false)
              (Types_Schemas w ++ new)).
Proof.
  split; [| split; [| split; [| split]]].
  - intros schema schemas newSchemas. apply pass_loop_unmapped_root.
  - intros rec base ref location data st1 newschema HP Hres Hf HU Hstop Hm.
    rewrite (download_without_recursion rec base ref st location data st1 newschema)
      by assumption.
    rewrite Hm. reflexivity.
  - intros rec base ref location data st1 newschema Hp HP Hres Hf HU Hext Hl Hm.
    rewrite (download_with_recursion rec base ref st location data st1 newschema)
      by assumption.
    rewrite Hm. reflexivity.
  - intros schema l res st' H. apply sound_resolve in H. exact H.
  - intros st' H. apply sound_pass in H. exact H.
Qed.

End ResolverFacts.

(** C7, refuted.  The root imports [x.xsd], whose name space has no
    package, and [x.xsd] imports a file that cannot be read: [x.xsd] is
    decoded, then [y.xsd] is asked for, and the pass ends with the error
    of that read, not with "no package mapping for namespace urn:x". *)
Lemma unmapped_external_other_error :
  fst fatal_pass = Err (IOError "open y.xsd: no such file or directory") /\
  files_read (snd (snd fatal_pass)) = ["a.wsdl"; "x.xsd"; "y.xsd"] /\
  In (Decoded "x.xsd" fatal_X) (snd (snd fatal_pass)) /\
  unmapped fatal_generator (TargetNamespace fatal_X) = true /\
  ~ unmapped_schema_ends_pass.
Proof.
  assert (Hin : In (Decoded "x.xsd" fatal_X) (snd (snd fatal_pass))).
  { vm_compute. right. right. right. left. reflexivity. }
  split; [vm_compute; reflexivity |].
  split; [vm_compute; reflexivity |].
  split; [exact Hin |].
  split; [vm_compute; reflexivity |].
  intros Hclaim.
  pose proof (Hclaim sample_Parse sample_String
                (sample_read [("a.wsdl", "<A>"); ("x.xsd", "<X>")])
                sample_download
                (sample_decode [("<A>", {| Types_Schemas := [fatal_root] |})])
                (sample_decode [("<X>", fatal_X)])
                fatal_generator "x.xsd" fatal_X eq_refl Hin eq_refl) as Herr.
  vm_compute in Herr. discriminate.
Qed.

(** The three ways an unmapped name space ends a pass: at the root,
    before anything else is read; at an external without imports, right
    after it is decoded; at an external with an import, after the
    imported file was read and decoded. *)
Example unmapped_root_ends_pass :
  fst fatal_pass_root = Err (no_package_mapping "urn:a") /\
  files_read (snd (snd fatal_pass_root)) = ["a.wsdl"].
Proof. vm_compute. split; reflexivity. Qed.

Example unmapped_leaf_ends_pass :
  fst fatal_pass_leaf = Err (no_package_mapping "urn:x") /\
  files_read (snd (snd fatal_pass_leaf)) = ["a.wsdl"; "x.xsd"].
Proof. vm_compute. split; reflexivity. Qed.

Example unmapped_external_checked_late :
  fst fatal_pass_nested = Err (no_package_mapping "urn:x") /\
  files_read (snd (snd fatal_pass_nested)) = ["a.wsdl"; "x.xsd"; "y.xsd"] /\
  decoded_keys (snd (snd fatal_pass_nested)) = ["x.xsd"; "y.xsd"].
Proof. vm_compute. repeat split. Qed.

(** C2 at a cycle of two documents.  [a.wsdl] holds schema A, which
    includes [b.xsd]; [b.xsd] holds schema B, which includes [a.wsdl].
    The pass ends, but the root's location was never entered among the
    resolved ones: [a.wsdl] is read a second time, decoded a second
    time, and the working set holds three documents, A twice. *)
Theorem root_of_cycle_fetched_twice :
  fst cycle_pass = Ok tt /\
  files_read (snd (snd cycle_pass)) = ["a.wsdl"; "b.xsd"; "a.wsdl"] /\
  decoded_keys (snd (snd cycle_pass)) = ["b.xsd"; "a.wsdl"] /\
  option_map Types_Schemas (wsdl (fst (snd cycle_pass)))
    = Some [cycle_A; cycle_A; cycle_B].
Proof. vm_compute. repeat split. Qed.

(** The same cycle between two externals is broken at once: each file
    is read once, and the working set is the root's schema, B and A. *)
Example cycle_of_externals_fetched_once :
  fst outer_pass = Ok tt /\
  files_read (snd (snd outer_pass)) = ["root.wsdl"; "a.xsd"; "b.xsd"] /\
  option_map Types_Schemas (wsdl (fst (snd outer_pass)))
    = Some [outer_root; outer_B; outer_A].
Proof. vm_compute. repeat split. Qed.

(** The sample cycle is one of those of
    [cycle_through_root_refetches_root]. *)
Example cycle_through_root_sample :
  fst cycle_pass = Ok tt /\
  files_read (snd (snd cycle_pass)) = ["a.wsdl"; "b.xsd"; "a.wsdl"] /\
  decoded_keys (snd (snd cycle_pass)) = ["b.xsd"; "a.wsdl"] /\
  wsdl (fst (snd cycle_pass))
    = Some {| Types_Schemas := [cycle_A; cycle_A; cycle_B] |}.
Proof.
  apply (cycle_through_root_refetches_root sample_Parse sample_String
           (sample_read cycle_files) sample_download
           (sample_decode [("<A>", {| Types_Schemas := [cycle_A] |})])
           (sample_decode [("<A>", cycle_A); ("<B>", cycle_B)])
           21 (file "a.wsdl") "myservice" "" false true "<A>" "<B>"
           cycle_A cycle_A cycle_B "a.wsdl" "b.xsd"
           (file "a.wsdl") (file "b.xsd"));
    try reflexivity; try discriminate.
  - lia.
  - repeat constructor. exists (file "b.xsd"). split; reflexivity.
Qed.

Lemma recursion_counter_global_witness :
  0 <= level (fatal_generator, []) <= maxRecursion /\
  maxRecursion = 20 /\
  fst fatal_pass <> OutOfFuel.
Proof.
  assert (Hlevel : 0 <= level (fatal_generator, []) <= maxRecursion)
    by (vm_compute; split; discriminate).
  split; [exact Hlevel |].
  pose proof (recursion_counter_global sample_Parse sample_String
                (sample_read [("a.wsdl", "<A>"); ("x.xsd", "<X>")])
                sample_download
                (sample_decode [("<A>", {| Types_Schemas := [fatal_root] |})])
                (sample_decode [("<X>", fatal_X)])
                21 (fatal_generator, []) Hlevel) as (Hmax & _ & _ & Hfuel & _).
  split; [exact Hmax |].
  apply Hfuel. vm_compute. reflexivity.
Defined.

(** ** The decoder *)

Lemma skip_nested (body : list Token) :
  nested body ->
  forall depth rest, skip_toks depth (body ++ rest) = skip_toks depth rest.
Proof.
  induction 1 as [| t body n rest' Hb IHb Hr IHr | tok rest' Hp Hr IHr];
    intros depth rest.
  - reflexivity.
  - cbn [app skip_toks]. rewrite <- app_assoc. rewrite IHb.
    cbn [app skip_toks]. apply IHr.
  - destruct tok; try discriminate; cbn [app skip_toks]; apply IHr.
Qed.

Lemma Skip_nested (body : list Token) (n : Name) (rest : list Token) (err : error) :
  nested body ->
  Skip {| d_toks := body ++ TEndElement n :: rest; d_err := err |}
  = (None, {| d_toks := rest; d_err := err |}).
Proof.
  intros Hb. unfold Skip. cbn [d_toks d_err].
  rewrite (skip_nested body Hb). reflexivity.
Qed.

Lemma Skip_err (d : Decoder) : d_err (snd (Skip d)) = d_err d.
Proof. unfold Skip. destruct (skip_toks 0 (d_toks d)); reflexivity. Qed.

Lemma Skip_Some (d : Decoder) (e : error) (d' : Decoder) :
  Skip d = (Some e, d') -> e = d_err d.
Proof.
  unfold Skip. destruct (skip_toks 0 (d_toks d)); intros Heq;
    inversion Heq; reflexivity.
Qed.

Lemma Token_err (d : Decoder) (tok : Token) (d' : Decoder) :
  Token_ d = Ok (tok, d') -> d_err d' = d_err d.
Proof.
  unfold Token_. destruct (d_toks d); intros Heq; inversion Heq; reflexivity.
Qed.

Lemma Token_Err (d : Decoder) (e : error) : Token_ d = Err e -> e = d_err d.
Proof.
  unfold Token_. destruct (d_toks d); intros Heq; inversion Heq; reflexivity.
Qed.

Lemma not_in_eqb (known : list string) (local name : string) :
  ~ In local known -> In name known -> String.eqb local name = false.
Proof.
  intros Hn Hin. destruct (String.eqb_spec local name); [subst; contradiction |].
  reflexivity.
Qed.

Lemma choice_attr_MinOccurs (attrs : list Attr) (x : XSDChoiceType) :
  ch_MinOccurs (fold_left choice_attr attrs x)
  = fold_left (fun v a => if String.eqb (Local (attr_Name a)) "minOccurs"
                          then attr_Value a else v) attrs (ch_MinOccurs x).
Proof.
  revert x. induction attrs as [| a attrs IH]; intros x; [reflexivity |].
  cbn [fold_left]. rewrite IH. f_equal. unfold choice_attr.
  destruct (String.eqb (Local (attr_Name a)) "name");
    destruct (String.eqb (Local (attr_Name a)) "minOccurs"); reflexivity.
Qed.

Section DecoderFacts.
Context `{ReflectDecoders}.

Lemma decode_children_well_read (err : error) (cs : list Child) :
  Forall (well_read err) cs ->
  forall fuel acc n rest,
    (List.length cs < fuel)%nat ->
    decode_element_children fuel acc
      {| d_toks := flat_map child_tokens cs ++ TEndElement n :: rest;
         d_err := err |}
    = Ok (acc ++ flat_map child_elements cs, {| d_toks := rest; d_err := err |}).
Proof.
  induction 1 as [| c cs Hc _ IH]; intros fuel acc n rest Hfuel.
  - destruct fuel as [| fuel]; [simpl in Hfuel; lia |].
    cbn. rewrite app_nil_r. reflexivity.
  - destruct fuel as [| fuel]; [simpl in Hfuel; lia |].
    simpl in Hfuel. assert (Hlt : (List.length cs < fuel)%nat) by lia.
    destruct c as [t toks x | t body m | tok].
    + destruct Hc as [Hlocal Hdec].
      cbn [flat_map child_tokens child_elements app decode_element_children
           Token_ d_toks d_err].
      rewrite Hlocal. cbn [String.eqb Ascii.eqb Bool.eqb andb].
      rewrite <- app_assoc. rewrite Hdec. unfold unread. cbn [d_err].
      rewrite IH by assumption. rewrite <- app_assoc. reflexivity.
    + destruct Hc as [Hlocal Hbody].
      cbn [flat_map child_tokens child_elements app decode_element_children
           Token_ d_toks d_err].
      destruct (String.eqb_spec (Local (se_Name t)) "element"); [contradiction |].
      rewrite <- !app_assoc. cbn [app].
      rewrite Skip_nested by assumption.
      rewrite IH by assumption. reflexivity.
    + cbn [flat_map child_tokens child_elements app decode_element_children
           Token_ d_toks d_err].
      cbn in Hc.
      destruct tok; try discriminate; rewrite IH by assumption; reflexivity.
Qed.

Lemma unmarshalChoice_well_read (fuel : nat) (t : StartElement) (cs : list Child)
    (n : Name) (rest : list Token) (err : error) :
  Local (se_Name t) = "choice" ->
  Forall (well_read err) cs ->
  (List.length cs < fuel)%nat ->
  unmarshalChoice fuel t
    {| d_toks := flat_map child_tokens cs ++ TEndElement n :: rest; d_err := err |}
  = Ok ((if negb (String.eqb (attr_of (se_Attr t) "minOccurs") "")
         then map (el_set_MinOccurs (attr_of (se_Attr t) "minOccurs"))
                  (flat_map child_elements cs)
         else flat_map child_elements cs),
        {| d_toks := rest; d_err := err |}).
Proof.
  intros Hlocal Hcs Hfuel.
  unfold unmarshalChoice, DecodeElement_XSDChoiceType, check_XMLName.
  rewrite Hlocal. cbn [String.eqb Ascii.eqb Bool.eqb andb].
  rewrite (decode_children_well_read err cs Hcs) by assumption.
  cbn [app ch_MinOccurs ch_Elements].
  rewrite choice_attr_MinOccurs. reflexivity.
Qed.

(** C4. A [choice] met in the [sequence] of a complex type: whatever the
    reflection decoder makes of its children, the elements decoded from
    the children named [element] are appended to the type's [Sequence],
    in the order of the document, and decoding goes on after the end of
    the choice; when the choice has a non-empty [minOccurs], each of
    those elements gets it as its [MinOccurs]. *)
Theorem choice_flattened_into_sequence (fuel : nat) (start : StartElement)
    (ct : XSDComplexType) (t : StartElement) (cs : list Child) (n : Name)
    (rest : list Token) (err : error)
    (Hspace : Space (se_Name t) = xmlschema11)
    (Hlocal : Local (se_Name t) = "choice")
    (Hchildren : Forall (well_read err) cs)
    (Hfuel : (List.length cs < fuel)%nat) :
  let minOccurs := attr_of (se_Attr t) "minOccurs" in
  let elements := flat_map child_elements cs in
  let appended :=
    if negb (String.eqb minOccurs "")
    then map (el_set_MinOccurs minOccurs) elements else elements in
  unmarshalSequence (S fuel) start ct
    {| d_toks := TStartElement t :: flat_map child_tokens cs
                 ++ TEndElement n :: rest;
       d_err := err |}
  = unmarshalSequence fuel start
      (ct_set_Sequence (ct_Sequence ct ++ appended) ct)
      {| d_toks := rest; d_err := err |} /\
  List.length appended = List.length elements /\
  (minOccurs <> "" -> Forall (fun x => el_MinOccurs x = minOccurs) appended) /\
  (minOccurs = "" -> appended = elements).
Proof.
  cbv zeta. split; [| split; [| split]].
  - cbn [unmarshalSequence Token_ d_toks d_err].
    rewrite Hspace, String.eqb_refl. cbn [negb].
    rewrite Hlocal. cbn [String.eqb Ascii.eqb Bool.eqb andb].
    rewrite (unmarshalChoice_well_read fuel t cs n rest err) by assumption.
    reflexivity.
  - destruct (negb _); [apply length_map | reflexivity].
  - intros Hne. destruct (String.eqb_spec (attr_of (se_Attr t) "minOccurs") "");
      [contradiction |].
    cbn [negb]. apply Forall_forall. intros x Hx.
    apply list_elem_of_In, in_map_iff in Hx. destruct Hx as (y & <- & _).
    reflexivity.
  - intros ->. reflexivity.
Qed.


(** *** Where the decoder's errors come from *)

Lemma child_failure_intro (eof e : error) (t : StartElement) (d : Decoder) :
  d_err d = eof ->
  (decode_XSDInclude t d = Err e \/ decode_XSDImport t d = Err e \/
   decode_XSDElement t d = Err e \/ decode_XSDAttribute t d = Err e \/
   decode_XSDSimpleType t d = Err e \/ decode_XSDAny t d = Err e \/
   decode_XSDComplexContent t d = Err e \/
   decode_XSDSimpleContent t d = Err e) ->
  child_failure eof e.
Proof. intros Hd Hc. exists t, d. split; assumption. Qed.

Lemma children_result (fuel : nat) :
  forall acc d,
    match decode_element_children fuel acc d with
    | Ok (_, d') => d_err d' = d_err d
    | Err e => e = d_err d \/ child_failure (d_err d) e
    | OutOfFuel => True
    end.
Proof.
  induction fuel as [| fuel IH]; intros acc d; [exact I |].
  cbn [decode_element_children].
  destruct (Token_ d) as [[tok d1] | e' |] eqn:HT;
    [pose proof (Token_err _ _ _ HT) as Hd1
    | apply Token_Err in HT; left; exact HT
    | exact I].
  destruct tok as [t | n | | | |];
    try (specialize (IH acc d1); rewrite Hd1 in IH; exact IH).
  - destruct (String.eqb (Local (se_Name t)) "element").
    + destruct (decode_XSDElement t d1) as [[x r] | e' |] eqn:HD.
      * specialize (IH (acc ++ [x]) (unread d1 r)). cbn [unread d_err] in IH.
        rewrite Hd1 in IH. exact IH.
      * right. apply (child_failure_intro _ _ t d1 Hd1). tauto.
      * exact I.
    + destruct (Skip d1) as [[e' |] d2] eqn:HS.
      * left. apply Skip_Some in HS. congruence.
      * specialize (IH acc d2). pose proof (Skip_err d1) as Hd2.
        rewrite HS in Hd2. cbn [snd] in Hd2. rewrite Hd2, Hd1 in IH. exact IH.
  - exact Hd1.
Qed.

Lemma unmarshalChoice_result (fuel : nat) (t : StartElement) (d : Decoder) :
  Local (se_Name t) = "choice" ->
  match unmarshalChoice fuel t d with
  | Ok (_, d') => d_err d' = d_err d
  | Err e => e = d_err d \/ child_failure (d_err d) e
  | OutOfFuel => True
  end.
Proof.
  intros Hlocal.
  unfold unmarshalChoice, DecodeElement_XSDChoiceType, check_XMLName.
  rewrite Hlocal. cbn [String.eqb Ascii.eqb Bool.eqb andb].
  pose proof (children_result fuel [] d) as Hc.
  destruct (decode_element_children fuel [] d) as [[els d'] | e |]; exact Hc.
Qed.

Lemma unmarshalSequence_result (fuel : nat) (start : StartElement) :
  forall ct d,
    match unmarshalSequence fuel start ct d with
    | Ok (_, d') => d_err d' = d_err d
    | Err e => e = d_err d \/ child_failure (d_err d) e
    | OutOfFuel => True
    end.
Proof.
  induction fuel as [| fuel IH]; intros ct d; [exact I |].
  cbn [unmarshalSequence].
  destruct (Token_ d) as [[tok d1] | e' |] eqn:HT;
    [pose proof (Token_err _ _ _ HT) as Hd1
    | apply Token_Err in HT; left; exact HT
    | exact I].
  assert (Hskip : match unmarshalSequence fuel start ct (snd (Skip d1)) with
                  | Ok (_, d') => d_err d' = d_err d
                  | Err e => e = d_err d \/ child_failure (d_err d) e
                  | OutOfFuel => True
                  end).
  { specialize (IH ct (snd (Skip d1))). rewrite Skip_err, Hd1 in IH. exact IH. }
  destruct tok as [t | n | | | |];
    try (specialize (IH ct d1); rewrite Hd1 in IH; exact IH).
  - destruct (negb (String.eqb (Space (se_Name t)) xmlschema11)); [exact Hskip |].
    destruct (String.eqb (Local (se_Name t)) "element").
    { destruct (decode_XSDElement t d1) as [[x r] | e' |] eqn:HD.
      - specialize (IH (ct_set_Sequence (ct_Sequence ct ++ [x]) ct) (unread d1 r)).
        cbn [unread d_err] in IH. rewrite Hd1 in IH. exact IH.
      - right. apply (child_failure_intro _ _ t d1 Hd1). tauto.
      - exact I. }
    destruct (String.eqb_spec (Local (se_Name t)) "choice") as [Hchoice |].
    { pose proof (unmarshalChoice_result fuel t d1 Hchoice) as Hc.
      destruct (unmarshalChoice fuel t d1) as [[els d2] | e' |].
      - specialize (IH (ct_set_Sequence (ct_Sequence ct ++ els) ct) d2).
        rewrite Hc, Hd1 in IH. exact IH.
      - rewrite Hd1 in Hc. exact Hc.
      - exact I. }
    destruct (String.eqb (Local (se_Name t)) "any"); [| exact Hskip].
    destruct (decode_XSDAny t d1) as [[x r] | e' |] eqn:HD.
    + specialize (IH (ct_set_Any (ct_Any ct ++ [x]) ct) (unread d1 r)).
      cbn [unread d_err] in IH. rewrite Hd1 in IH. exact IH.
    + right. apply (child_failure_intro _ _ t d1 Hd1). tauto.
    + exact I.
  - exact Hd1.
Qed.

Lemma complexType_loop_result (fuel : nat) (start : StartElement) :
  forall ct d,
    match complexType_loop fuel start ct d with
    | Ok (_, d') => d_err d' = d_err d
    | Err e => e = d_err d \/ child_failure (d_err d) e \/
               check_XMLName "all" start = Some e
    | OutOfFuel => True
    end.
Proof.
  induction fuel as [| fuel IH]; intros ct d; [exact I |].
  cbn [complexType_loop].
  destruct (Token_ d) as [[tok d1] | e' |] eqn:HT;
    [pose proof (Token_err _ _ _ HT) as Hd1
    | apply Token_Err in HT; left; exact HT
    | exact I].
  assert (Hskip : match complexType_loop fuel start ct (snd (Skip d1)) with
                  | Ok (_, d') => d_err d' = d_err d
                  | Err e => e = d_err d \/ child_failure (d_err d) e \/
                             check_XMLName "all" start = Some e
                  | OutOfFuel => True
                  end).
  { specialize (IH ct (snd (Skip d1))). rewrite Skip_err, Hd1 in IH. exact IH. }
  destruct tok as [t | n | | | |];
    try (specialize (IH ct d1); rewrite Hd1 in IH; exact IH).
  - destruct (negb (String.eqb (Space (se_Name t)) xmlschema11)); [exact Hskip |].
    destruct (String.eqb (Local (se_Name t)) "attribute").
    { destruct (decode_XSDAttribute t d1) as [[x r] | e' |] eqn:HD.
      - specialize (IH (ct_set_Attributes (ct_Attributes ct ++ [x]) ct)
                       (unread d1 r)).
        cbn [unread d_err] in IH. rewrite Hd1 in IH. exact IH.
      - right. left. apply (child_failure_intro _ _ t d1 Hd1). tauto.
      - exact I. }
    destruct (String.eqb (Local (se_Name t)) "sequence").
    { pose proof (unmarshalSequence_result fuel t ct d1) as Hc.
      destruct (unmarshalSequence fuel t ct d1) as [[ct' d2] | e' |].
      - specialize (IH ct' d2). rewrite Hc, Hd1 in IH. exact IH.
      - rewrite Hd1 in Hc. tauto.
      - exact I. }
    destruct (String.eqb_spec (Local (se_Name t)) "choice") as [Hchoice |].
    { pose proof (unmarshalChoice_result fuel t d1 Hchoice) as Hc.
      destruct (unmarshalChoice fuel t d1) as [[els d2] | e' |].
      - specialize (IH (ct_set_Choice (ct_Choice ct ++ els) ct) d2).
        rewrite Hc, Hd1 in IH. exact IH.
      - rewrite Hd1 in Hc. tauto.
      - exact I. }
    destruct (String.eqb (Local (se_Name t)) "all").
    { unfold DecodeElement_XSDAllType.
      destruct (check_XMLName "all" start) as [e' |] eqn:Hcheck; [tauto |].
      pose proof (children_result fuel [] d1) as Hc.
      destruct (decode_element_children fuel [] d1) as [[els d2] | e' |].
      - specialize (IH (ct_set_All (ct_All ct ++ els) ct) d2).
        rewrite Hc, Hd1 in IH. exact IH.
      - rewrite Hd1 in Hc. tauto.
      - exact I. }
    destruct (String.eqb (Local (se_Name t)) "complexContent").
    { destruct (decode_XSDComplexContent t d1) as [[x r] | e' |] eqn:HD.
      - specialize (IH (ct_set_ComplexContent x ct) (unread d1 r)).
        cbn [unread d_err] in IH. rewrite Hd1 in IH. exact IH.
      - right. left. apply (child_failure_intro _ _ t d1 Hd1). tauto.
      - exact I. }
    destruct (String.eqb (Local (se_Name t)) "simpleContent"); [| exact Hskip].
    destruct (decode_XSDSimpleContent t d1) as [[x r] | e' |] eqn:HD.
    + specialize (IH (ct_set_SimpleContent x ct) (unread d1 r)).
      cbn [unread d_err] in IH. rewrite Hd1 in IH. exact IH.
    + right. left. apply (child_failure_intro _ _ t d1 Hd1). tauto.
    + exact I.
  - exact Hd1.
Qed.

Lemma schema_loop_result (fuel : nat) :
  forall s d,
    match schema_loop fuel s d with
    | Ok (_, d') => d_err d' = d_err d
    | Err e => e = d_err d \/ child_failure (d_err d) e \/
               exists t, Local (se_Name t) = "complexType" /\
                         check_XMLName "all" t = Some e
    | OutOfFuel => True
    end.
Proof.
  induction fuel as [| fuel IH]; intros s d; [exact I |].
  cbn [schema_loop].
  destruct (Token_ d) as [[tok d1] | e' |] eqn:HT;
    [pose proof (Token_err _ _ _ HT) as Hd1
    | apply Token_Err in HT; left; exact HT
    | exact I].
  assert (Hskip : match schema_loop fuel s (snd (Skip d1)) with
                  | Ok (_, d') => d_err d' = d_err d
                  | Err e => e = d_err d \/ child_failure (d_err d) e \/
                             exists t, Local (se_Name t) = "complexType" /\
                                       check_XMLName "all" t = Some e
                  | OutOfFuel => True
                  end).
  { specialize (IH s (snd (Skip d1))). rewrite Skip_err, Hd1 in IH. exact IH. }
  destruct tok as [t | n | | | |];
    try (specialize (IH s d1); rewrite Hd1 in IH; exact IH).
  - destruct (negb (String.eqb (Space (se_Name t)) xmlschema11)); [exact Hskip |].
    destruct (String.eqb (Local (se_Name t)) "include").
    { destruct (decode_XSDInclude t d1) as [[x r] | e' |] eqn:HD.
      - specialize (IH (set_Includes (Includes s ++ [x]) s) (unread d1 r)).
        cbn [unread d_err] in IH. rewrite Hd1 in IH. exact IH.
      - right. left. apply (child_failure_intro _ _ t d1 Hd1). tauto.
      - exact I. }
    destruct (String.eqb (Local (se_Name t)) "import").
    { destruct (decode_XSDImport t d1) as [[x r] | e' |] eqn:HD.
      - specialize (IH (set_Imports (Imports s ++ [x]) s) (unread d1 r)).
        cbn [unread d_err] in IH. rewrite Hd1 in IH. exact IH.
      - right. left. apply (child_failure_intro _ _ t d1 Hd1). tauto.
      - exact I. }
    destruct (String.eqb (Local (se_Name t)) "element").
    { destruct (decode_XSDElement t d1) as [[x r] | e' |] eqn:HD.
      - specialize (IH (set_Elements (Elements s ++ [x]) s) (unread d1 r)).
        cbn [unread d_err] in IH. rewrite Hd1 in IH. exact IH.
      - right. left. apply (child_failure_intro _ _ t d1 Hd1). tauto.
      - exact I. }
    destruct (String.eqb (Local (se_Name t)) "attribute").
    { destruct (decode_XSDAttribute t d1) as [[x r] | e' |] eqn:HD.
      - specialize (IH (set_Attributes (Attributes s ++ [x]) s) (unread d1 r)).
        cbn [unread d_err] in IH. rewrite Hd1 in IH. exact IH.
      - right. left. apply (child_failure_intro _ _ t d1 Hd1). tauto.
      - exact I. }
    destruct (String.eqb_spec (Local (se_Name t)) "complexType") as [Hct |].
    { unfold DecodeElement_XSDComplexType, XSDComplexType_UnmarshalXML.
      match goal with
      | |- context [complexType_loop fuel t ?ct d1] =>
          pose proof (complexType_loop_result fuel t ct d1) as Hc;
          destruct (complexType_loop fuel t ct d1) as [[x d2] | e' |]
      end.
      - specialize (IH (set_ComplexTypes (ComplexTypes s ++ [x]) s) d2).
        rewrite Hc, Hd1 in IH. exact IH.
      - rewrite Hd1 in Hc. destruct Hc as [Hc | [Hc | Hc]]; [tauto | tauto |].
        right. right. exists t. split; assumption.
      - exact I. }
    destruct (String.eqb (Local (se_Name t)) "simpleType"); [| exact Hskip].
    destruct (decode_XSDSimpleType t d1) as [[x r] | e' |] eqn:HD.
    + specialize (IH (set_SimpleType (SimpleType s ++ [x]) s) (unread d1 r)).
      cbn [unread d_err] in IH. rewrite Hd1 in IH. exact IH.
    + right. left. apply (child_failure_intro _ _ t d1 Hd1). tauto.
    + exact I.
  - exact Hd1.
Qed.

(** *** Children that are skipped *)

Lemma schema_loop_skips (fuel : nat) (s : XSDSchema) (t : StartElement)
    (body : list Token) (n : Name) (rest : list Token) (err : error) :
  nested body -> skipped schema_children t ->
  schema_loop (S fuel) s
    {| d_toks := TStartElement t :: body ++ TEndElement n :: rest; d_err := err |}
  = schema_loop fuel s {| d_toks := rest; d_err := err |}.
Proof.
  intros Hb Hskip. cbn [schema_loop Token_ d_toks d_err].
  rewrite (Skip_nested body n rest err Hb). cbn [snd].
  destruct (String.eqb_spec (Space (se_Name t)) xmlschema11) as [Hs | Hs];
    [| reflexivity].
  destruct Hskip as [Hskip | Hskip]; [contradiction |].
  cbn [negb]. unfold schema_children in Hskip.
  rewrite !(not_in_eqb _ _ _ Hskip) by (simpl; tauto). reflexivity.
Qed.

Lemma complexType_loop_skips (fuel : nat) (start : StartElement)
    (ct : XSDComplexType) (t : StartElement) (body : list Token) (n : Name)
    (rest : list Token) (err : error) :
  nested body -> skipped complexType_children t ->
  complexType_loop (S fuel) start ct
    {| d_toks := TStartElement t :: body ++ TEndElement n :: rest; d_err := err |}
  = complexType_loop fuel start ct {| d_toks := rest; d_err := err |}.
Proof.
  intros Hb Hskip. cbn [complexType_loop Token_ d_toks d_err].
  rewrite (Skip_nested body n rest err Hb). cbn [snd].
  destruct (String.eqb_spec (Space (se_Name t)) xmlschema11) as [Hs | Hs];
    [| reflexivity].
  destruct Hskip as [Hskip | Hskip]; [contradiction |].
  cbn [negb]. unfold complexType_children in Hskip.
  rewrite !(not_in_eqb _ _ _ Hskip) by (simpl; tauto). reflexivity.
Qed.

Lemma schema_loop_only_skipped (s : XSDSchema)
    (cs : list (StartElement * list Token * Name)) :
  Forall (skipped_element schema_children) cs ->
  forall fuel n rest err,
    (List.length cs < fuel)%nat ->
    schema_loop fuel s
      {| d_toks := flat_map element_tokens cs ++ TEndElement n :: rest;
         d_err := err |}
    = Ok (s, {| d_toks := rest; d_err := err |}).
Proof.
  induction 1 as [| [[t body] m] cs [Hb Hs] _ IH]; intros fuel n rest err Hfuel.
  - destruct fuel as [| fuel]; [simpl in Hfuel; lia | reflexivity].
  - destruct fuel as [| fuel]; [simpl in Hfuel; lia |].
    simpl in Hfuel. cbn [flat_map]. unfold element_tokens at 1.
    cbn [fst snd app] in *. rewrite <- !app_assoc. cbn [app].
    rewrite schema_loop_skips by assumption. apply IH. lia.
Qed.

Lemma complexType_loop_only_skipped (start : StartElement) (ct : XSDComplexType)
    (cs : list (StartElement * list Token * Name)) :
  Forall (skipped_element complexType_children) cs ->
  forall fuel n rest err,
    (List.length cs < fuel)%nat ->
    complexType_loop fuel start ct
      {| d_toks := flat_map element_tokens cs ++ TEndElement n :: rest;
         d_err := err |}
    = Ok (ct, {| d_toks := rest; d_err := err |}).
Proof.
  induction 1 as [| [[t body] m] cs [Hb Hs] _ IH]; intros fuel n rest err Hfuel.
  - destruct fuel as [| fuel]; [simpl in Hfuel; lia | reflexivity].
  - destruct fuel as [| fuel]; [simpl in Hfuel; lia |].
    simpl in Hfuel. cbn [flat_map]. unfold element_tokens at 1.
    cbn [fst snd app] in *. rewrite <- !app_assoc. cbn [app].
    rewrite complexType_loop_skips by assumption. apply IH. lia.
Qed.

(** C6. At the level of the schema and at the level of a complex type, a
    well-nested child that is not in the XML-Schema name space, or whose
    local name is not one the loop decodes, is skipped: decoding goes on
    after its end element as if it were not there, and content made of
    such children only decodes without an error.  An error that
    [UnmarshalXML] returns is the error of the token stream, an error
    that the decoder of a recognized child returned, or the failed name
    check in the branch for [all]. *)
Theorem unknown_children_are_skipped (fuel : nat) :
  (forall s t body n rest err,
     nested body -> skipped schema_children t ->
     schema_loop (S fuel) s
       {| d_toks := TStartElement t :: body ++ TEndElement n :: rest;
          d_err := err |}
     = schema_loop fuel s {| d_toks := rest; d_err := err |}) /\
  (forall start ct t body n rest err,
     nested body -> skipped complexType_children t ->
     complexType_loop (S fuel) start ct
       {| d_toks := TStartElement t :: body ++ TEndElement n :: rest;
          d_err := err |}
     = complexType_loop fuel start ct {| d_toks := rest; d_err := err |}) /\
  (forall s start cs n rest err,
     Forall (skipped_element schema_children) cs ->
     (List.length cs < fuel)%nat ->
     exists s',
       XSDSchema_UnmarshalXML fuel s start
         {| d_toks := flat_map element_tokens cs ++ TEndElement n :: rest;
            d_err := err |}
       = Ok (s', {| d_toks := rest; d_err := err |})) /\
  (forall ct start cs n rest err,
     Forall (skipped_element complexType_children) cs ->
     (List.length cs < fuel)%nat ->
     exists ct',
       XSDComplexType_UnmarshalXML fuel ct start
         {| d_toks := flat_map element_tokens cs ++ TEndElement n :: rest;
            d_err := err |}
       = Ok (ct', {| d_toks := rest; d_err := err |})) /\
  (forall s start d e,
     XSDSchema_UnmarshalXML fuel s start d = Err e ->
     e = d_err d \/ child_failure (d_err d) e \/
     exists t, Local (se_Name t) = "complexType" /\
               check_XMLName "all" t = Some e) /\
  (forall ct start d e,
     XSDComplexType_UnmarshalXML fuel ct start d = Err e ->
     e = d_err d \/ child_failure (d_err d) e \/
     check_XMLName "all" start = Some e).
Proof.
  split; [intros; apply schema_loop_skips; assumption |].
  split; [intros; apply complexType_loop_skips; assumption |].
  split.
  { intros s start cs n rest err Hcs Hfuel. unfold XSDSchema_UnmarshalXML.
    eexists. apply schema_loop_only_skipped; assumption. }
  split.
  { intros ct start cs n rest err Hcs Hfuel. unfold XSDComplexType_UnmarshalXML.
    eexists. apply complexType_loop_only_skipped; assumption. }
  split.
  - intros s start d e Herr. unfold XSDSchema_UnmarshalXML in Herr.
    match type of Herr with
    | schema_loop fuel ?s' d = _ =>
        pose proof (schema_loop_result fuel s' d) as Hr
    end.
    rewrite Herr in Hr. exact Hr.
  - intros ct start d e Herr. unfold XSDComplexType_UnmarshalXML in Herr.
    match type of Herr with
    | complexType_loop fuel start ?ct' d = _ =>
        pose proof (complexType_loop_result fuel start ct' d) as Hr
    end.
    rewrite Herr in Hr. exact Hr.
Qed.

End DecoderFacts.

(** C5 on the code.  In [XSDComplexType.UnmarshalXML] the branch for
    [all] hands [DecodeElement] the start element of the complex type,
    not the one of the [all] child: the name check of the reflection
    decoder fails, and decoding a complex type with an [all] particle
    returns an error, for any decoders of the other structs. *)
Theorem all_particle_fails_to_decode :
  xml_Unmarshal_XSDSchema (H := leaf_decoders)
    {| d_toks := all_document; d_err := io_EOF |}
  = Err (UnmarshalError "expected element type <all> but have <complexType>") /\
  forall (R : ReflectDecoders) (fuel : nat) (start : StartElement)
         (ct : XSDComplexType) (t : StartElement) (toks : list Token)
         (err : error),
    Space (se_Name t) = xmlschema11 ->
    Local (se_Name t) = "all" ->
    Local (se_Name start) <> "all" ->
    complexType_loop (H := R) (S fuel) start ct
      {| d_toks := TStartElement t :: toks; d_err := err |}
    = Err (UnmarshalError
             ("expected element type <all> but have <"
              +:+ Local (se_Name start) +:+ ">")).
Proof.
  split; [vm_compute; reflexivity |].
  intros R fuel start ct t toks err Hspace Hlocal Hstart.
  cbn [complexType_loop Token_ d_toks d_err].
  rewrite Hspace, String.eqb_refl. cbn [negb].
  rewrite Hlocal. cbn [String.eqb Ascii.eqb Bool.eqb andb].
  unfold DecodeElement_XSDAllType, check_XMLName.
  destruct (String.eqb_spec "all" (Local (se_Name start))) as [Heq | _];
    [symmetry in Heq; contradiction | reflexivity].
Qed.

(** A child in a foreign name space, with content, and a child of the
    schema name space that the loop does not know are skipped: the
    schema decoded is the one of the document without them. *)
Example foreign_children_skipped :
  xml_Unmarshal_XSDSchema (H := leaf_decoders)
    {| d_toks := foreign_document; d_err := io_EOF |}
  = xml_Unmarshal_XSDSchema (H := leaf_decoders)
      {| d_toks := plain_document; d_err := io_EOF |} /\
  exists s,
    xml_Unmarshal_XSDSchema (H := leaf_decoders)
      {| d_toks := foreign_document; d_err := io_EOF |} = Ok s /\
    map el_Name (Elements s) = ["e"].
Proof. split; [vm_compute; reflexivity |]. eexists. split; vm_compute; reflexivity. Qed.

Lemma choice_flattened_into_sequence_witness :
  Forall (well_read (H := leaf_decoders) io_EOF) sample_children /\
  unmarshalSequence (H := leaf_decoders) 5
    (open_xs "sequence" []) new_XSDComplexType
    {| d_toks :=
         TStartElement (open_xs "choice" [attribute "minOccurs" "0"])
         :: flat_map child_tokens sample_children
         ++ TEndElement (xs "choice") :: [TEndElement (xs "sequence")];
       d_err := io_EOF |}
  = Ok (ct_set_Sequence
          [el_set_MinOccurs "0" sample_b; el_set_MinOccurs "0" sample_c]
          new_XSDComplexType,
        {| d_toks := []; d_err := io_EOF |}).
Proof.
  assert (Hchildren : Forall (well_read (H := leaf_decoders) io_EOF) sample_children).
  { repeat constructor; intros rest; reflexivity. }
  split; [exact Hchildren |].
  destruct (choice_flattened_into_sequence (H := leaf_decoders) 4
              (open_xs "sequence" []) new_XSDComplexType
              (open_xs "choice" [attribute "minOccurs" "0"])
              sample_children (xs "choice") [TEndElement (xs "sequence")] io_EOF
              eq_refl eq_refl Hchildren ltac:(simpl; lia)) as [Heq _].
  rewrite Heq. reflexivity.
Defined.

(** * Further properties *)

(** ** [strings.Split] on a separator of one byte *)

Lemma strings_Split_cons (c : ascii) (s : string) (sep : ascii) :
  strings_Split (String c s) sep =
  if Ascii.eqb c sep then EmptyString :: strings_Split s sep
  else match strings_Split s sep with
       | [] => [String c EmptyString]
       | h :: t => String c h :: t
       end.
Proof. reflexivity. Qed.

Lemma strings_Split_length (s : string) (sep : ascii) :
  List.length (strings_Split s sep) = S (count_byte sep s).
Proof.
  induction s as [| c s IH]; [reflexivity |].
  rewrite strings_Split_cons. cbn [count_byte].
  destruct (Ascii.eqb c sep).
  - cbn [List.length]. rewrite IH. reflexivity.
  - destruct (strings_Split s sep); [discriminate | exact IH].
Qed.

Lemma strings_Split_join (s : string) (sep : ascii) :
  join_with sep (strings_Split s sep) = s.
Proof.
  induction s as [| c s IH]; [reflexivity |].
  rewrite strings_Split_cons.
  pose proof (strings_Split_length s sep) as Hlen.
  destruct (Ascii.eqb_spec c sep) as [-> | Hne].
  - destruct (strings_Split s sep) as [| h t]; [discriminate |].
    change (join_with sep (EmptyString :: h :: t))
      with (String sep (join_with sep (h :: t))).
    rewrite IH. reflexivity.
  - destruct (strings_Split s sep) as [| h [| h' t]]; [discriminate | |].
    + cbn [join_with] in *. rewrite IH. reflexivity.
    + change (join_with sep (String c h :: h' :: t))
        with (String c (join_with sep (h :: h' :: t))).
      rewrite IH. reflexivity.
Qed.

Lemma strings_Split_parts (s : string) (sep : ascii) :
  Forall (fun part => count_byte sep part = O) (strings_Split s sep).
Proof.
  induction s as [| c s IH]; [repeat constructor |].
  rewrite strings_Split_cons.
  destruct (Ascii.eqb_spec c sep) as [-> | Hne].
  - constructor; [reflexivity | exact IH].
  - destruct (strings_Split s sep) as [| h t].
    + repeat constructor. cbn [count_byte].
      destruct (Ascii.eqb_spec c sep); [contradiction | reflexivity].
    + apply Forall_cons in IH. destruct IH as [Hh Ht].
      constructor; [| exact Ht]. cbn [count_byte].
      destruct (Ascii.eqb_spec c sep); [contradiction | exact Hh].
Qed.

Lemma count_byte_app (c : ascii) (s t : string) :
  count_byte c (s +:+ t) = (count_byte c s + count_byte c t)%nat.
Proof.
  induction s as [| a s IH]; [reflexivity |].
  simpl. rewrite IH. destruct (Ascii.eqb a c); reflexivity.
Qed.

(** A string with no separator is its own single part; one with a
    single separator has the two parts around it. *)
Lemma strings_Split_none (s : string) (sep : ascii) :
  count_byte sep s = O -> strings_Split s sep = [s].
Proof.
  intros Hc. pose proof (strings_Split_length s sep) as Hlen.
  pose proof (strings_Split_join s sep) as Hjoin. rewrite Hc in Hlen.
  destruct (strings_Split s sep) as [| h [| h' t]]; try discriminate.
  cbn [join_with] in Hjoin. congruence.
Qed.

Lemma strings_Split_pair (a b : string) (sep : ascii) :
  count_byte sep a = O -> count_byte sep b = O ->
  strings_Split (a +:+ String sep b) sep = [a; b].
Proof.
  intros Ha Hb. induction a as [| c a IH].
  - change (strings_Split (String sep b) sep = [EmptyString; b]).
    rewrite strings_Split_cons, Ascii.eqb_refl.
    rewrite (strings_Split_none b sep Hb). reflexivity.
  - change (strings_Split (String c (a +:+ String sep b)) sep
            = [String c a; b]).
    cbn [count_byte] in Ha.
    rewrite strings_Split_cons.
    destruct (Ascii.eqb c sep); [discriminate |].
    rewrite (IH Ha). reflexivity.
Qed.

(** ** Qualified names *)

(** X1. [getNSPrefix], [removeNS] and [stripns] on any reference.
    [stripns] and [removeNS] are the same function, and neither result
    holds a colon.  Without a colon the reference is its own local name
    and has no prefix; with one colon the prefix, the colon and the
    local name make up the reference again; with two or more colons the
    prefix is empty and the text before the first colon is returned as
    the local name. *)
Theorem qualified_name_parts (s : string) :
  stripns s = removeNS s /\
  count_byte colon (removeNS s) = O /\
  count_byte colon (getNSPrefix s) = O /\
  (count_byte colon s = O -> getNSPrefix s = "" /\ removeNS s = s) /\
  (count_byte colon s = 1%nat ->
   s = getNSPrefix s +:+ String colon (removeNS s)) /\
  ((2 <= count_byte colon s)%nat ->
   getNSPrefix s = "" /\
   exists rest, s = removeNS s +:+ String colon rest).
Proof.
  pose proof (strings_Split_length s colon) as Hlen.
  pose proof (strings_Split_join s colon) as Hjoin.
  pose proof (strings_Split_parts s colon) as Hparts.
  unfold stripns, removeNS, getNSPrefix.
  destruct (strings_Split s colon) as [| r0 [| r1 [| r2 r]]];
    [discriminate | | |].
  - apply Forall_cons in Hparts. destruct Hparts as [H0 _].
    cbn [List.length join_with] in *. subst r0.
    split; [reflexivity |]. split; [exact H0 |]. split; [reflexivity |].
    split; [intros _; split; reflexivity |].
    split; intros Hc; lia.
  - apply Forall_cons in Hparts. destruct Hparts as [H0 Hparts].
    apply Forall_cons in Hparts. destruct Hparts as [H1 _].
    cbn [List.length join_with] in *.
    split; [reflexivity |]. split; [exact H1 |]. split; [exact H0 |].
    split; [intros Hc; lia |].
    split; [intros _; symmetry; exact Hjoin | intros Hc; lia].
  - apply Forall_cons in Hparts. destruct Hparts as [H0 _].
    cbn [List.length] in *.
    split; [reflexivity |]. split; [exact H0 |]. split; [reflexivity |].
    split; [intros Hc; lia |].
    split; [intros Hc; lia |].
    intros _. split; [reflexivity |].
    exists (join_with colon (r1 :: r2 :: r)). symmetry. exact Hjoin.
Qed.

(** ** The mapping of name spaces to packages *)

(** X2. [NamespaceMapping.Set] accepts a value exactly when it holds
    one equals sign.  It then enters the text before the sign as the
    package of the name space after it: a generator with the new map
    answers [getNSPackage] for that name space with the package, an
    earlier entry for it is replaced, and the other name spaces keep
    what they had.  Any other value leaves the map as it was and
    returns the error. *)
Theorem NamespaceMapping_Set_lookup (i : NamespaceMapping) (value : string) :
  let r := NamespaceMapping_Set i value in
  (count_byte equals_sign value = 1%nat ->
   fst r = None /\
   exists pkg ns,
     value = pkg +:+ String equals_sign ns /\
     (forall g, nsToPkg g = snd r -> getNSPackage g ns = pkg) /\
     (forall ns', ns' <> ns -> snd r !! ns' = i !! ns')) /\
  (count_byte equals_sign value <> 1%nat ->
   r = (Some (Errorf "expected format pkg=ns"), i)).
Proof.
  pose proof (strings_Split_length value equals_sign) as Hlen.
  pose proof (strings_Split_join value equals_sign) as Hjoin.
  cbv zeta. unfold NamespaceMapping_Set.
  destruct (strings_Split value equals_sign) as [| p0 [| p1 [| p2 p]]];
    cbn [List.length] in Hlen.
  - discriminate.
  - split; [intros Hc; lia | reflexivity].
  - split; [| intros Hc; lia].
    intros _. split; [reflexivity |]. exists p0, p1.
    cbn [join_with] in Hjoin. split; [symmetry; exact Hjoin |]. split.
    + intros g Hg. cbn [snd] in Hg. unfold getNSPackage. rewrite Hg.
      unfold NamespaceMapping. rewrite lookup_insert_eq. reflexivity.
    + intros ns' Hne. cbn [snd]. unfold NamespaceMapping.
      apply lookup_insert_ne. congruence.
  - split; [intros Hc; lia | reflexivity].
Qed.

(** ** Go's text functions on ASCII *)

Lemma forall_ascii (P : ascii -> bool) :
  (forall b0 b1 b2 b3 b4 b5 b6 b7, P (Ascii b0 b1 b2 b3 b4 b5 b6 b7) = true) ->
  forall a, P a = true.
Proof. intros HP [b0 b1 b2 b3 b4 b5 b6 b7]. apply HP. Qed.

Lemma append_cons (c : ascii) (a b : string) :
  String c a +:+ b = String c (a +:+ b).
Proof. reflexivity. Qed.

Lemma append_assoc (a b c : string) : (a +:+ b) +:+ c = a +:+ (b +:+ c).
Proof.
  induction a as [| x a IH]; [reflexivity |].
  rewrite !append_cons, IH. reflexivity.
Qed.

Lemma append_nil_r (a : string) : a +:+ "" = a.
Proof.
  induction a as [| x a IH]; [reflexivity |].
  rewrite append_cons, IH. reflexivity.
Qed.

Lemma is_ascii_app (a b : string) :
  is_ascii (a +:+ b) = is_ascii a && is_ascii b.
Proof.
  induction a as [| x a IH]; [reflexivity |].
  rewrite append_cons. cbn [is_ascii]. rewrite IH. apply andb_assoc.
Qed.

Lemma all_bytes_app (f : ascii -> bool) (a b : string) :
  all_bytes f (a +:+ b) = all_bytes f a && all_bytes f b.
Proof.
  induction a as [| x a IH]; [reflexivity |].
  rewrite append_cons. cbn [all_bytes]. rewrite IH. apply andb_assoc.
Qed.

Lemma concat_map_bytes_app (f : ascii -> string) (a b : string) :
  concat_map_bytes f (a +:+ b) = concat_map_bytes f a +:+ concat_map_bytes f b.
Proof.
  induction a as [| x a IH]; [reflexivity |].
  rewrite append_cons. cbn [concat_map_bytes]. rewrite IH, append_assoc.
  reflexivity.
Qed.

Lemma concat_map_bytes_ext (f g : ascii -> string) (s : string) :
  is_ascii s = true ->
  (forall a, rune_of_byte a < 128 -> f a = g a) ->
  concat_map_bytes f s = concat_map_bytes g s.
Proof.
  intros Hs Hfg. induction s as [| a s IH]; [reflexivity |].
  cbn [is_ascii concat_map_bytes] in *. apply andb_true_iff in Hs. destruct Hs as [Ha Hs].
  rewrite (Hfg a) by lia. rewrite (IH Hs). reflexivity.
Qed.

Lemma concat_map_bytes_compose (f g : ascii -> string) (s : string) :
  concat_map_bytes g (concat_map_bytes f s) =
  concat_map_bytes (fun a => concat_map_bytes g (f a)) s.
Proof.
  induction s as [| a s IH]; [reflexivity |].
  cbn [concat_map_bytes]. rewrite concat_map_bytes_app, IH. reflexivity.
Qed.

Lemma concat_map_bytes_ascii (f : ascii -> string) (s : string) :
  is_ascii s = true ->
  (forall a, rune_of_byte a < 128 -> is_ascii (f a) = true) ->
  is_ascii (concat_map_bytes f s) = true.
Proof.
  intros Hs Hf. induction s as [| a s IH]; [reflexivity |].
  cbn [is_ascii concat_map_bytes] in *. apply andb_true_iff in Hs. destruct Hs as [Ha Hs].
  rewrite is_ascii_app, Hf, IH by (assumption || lia). reflexivity.
Qed.

Section AsciiText.
Context `{GoUnicode}.

Lemma runes_of_is_ascii (s : string) :
  is_ascii s = true ->
  runes_of s = map rune_of_byte (list_ascii_of_string s).
Proof.
  induction s as [| a s IH]; intros Hs.
  - apply runes_of_empty.
  - simpl in Hs. apply andb_true_iff in Hs. destruct Hs as [Ha Hs].
    rewrite runes_of_ascii by lia. rewrite (IH Hs). reflexivity.
Qed.

Lemma string_of_runes_of (s : string) :
  is_ascii s = true -> string_of (runes_of s) = s.
Proof.
  induction s as [| a s IH]; intros Hs.
  - rewrite runes_of_empty. apply string_of_empty.
  - simpl in Hs. apply andb_true_iff in Hs. destruct Hs as [Ha Hs].
    pose proof (rune_of_byte_range a) as Hr.
    rewrite runes_of_ascii by lia. rewrite string_of_ascii by lia.
    rewrite (IH Hs). unfold byte_of_rune, rune_of_byte.
    rewrite N2Z.id, ascii_N_embedding. reflexivity.
Qed.

Lemma byte_of_rune_of_byte (a : ascii) : byte_of_rune (rune_of_byte a) = a.
Proof.
  unfold byte_of_rune, rune_of_byte. rewrite N2Z.id. apply ascii_N_embedding.
Qed.

(** [strings.Map] on an ASCII string, for a mapping that keeps ASCII
    within ASCII: byte by byte. *)
Lemma strings_Map_ascii (mapping : rune -> rune) (s : string) :
  is_ascii s = true ->
  (forall r, 0 <= r < 128 -> mapping r < 128) ->
  strings_Map mapping s =
  concat_map_bytes
    (fun a => if 0 <=? mapping (rune_of_byte a)
              then String (byte_of_rune (mapping (rune_of_byte a))) EmptyString
              else EmptyString) s.
Proof.
  intros Hs Hm. unfold strings_Map.
  induction s as [| a s IH].
  - rewrite runes_of_empty. apply string_of_empty.
  - simpl in Hs. apply andb_true_iff in Hs. destruct Hs as [Ha Hs].
    pose proof (rune_of_byte_range a) as Hr.
    rewrite runes_of_ascii by lia. cbn [map concat_map_bytes].
    specialize (Hm (rune_of_byte a) ltac:(lia)).
    destruct (0 <=? mapping (rune_of_byte a)) eqn:E.
    + rewrite filter_cons_True by lia.
      rewrite string_of_ascii by lia. rewrite append_cons.
      f_equal. exact (IH Hs).
    + rewrite filter_cons_False by lia. exact (IH Hs).
Qed.

Lemma normalize_mapping_ascii (r : rune) :
  0 <= r < 128 ->
  normalize_mapping r =
  if (r =? 46) || (r =? 45) then 95
  else if ascii_lower r || ascii_upper r || ascii_digit r || (r =? 95) then r
  else -1.
Proof.
  intros Hr. unfold normalize_mapping.
  rewrite unicode_IsLetter_ascii, unicode_IsDigit_ascii by assumption.
  reflexivity.
Qed.

Lemma replace_plus_bytes (s : string) :
  strings_ReplaceAll s "+" "Plus" =
  concat_map_bytes
    (fun a => if Ascii.eqb "+" a then "Plus" else String a EmptyString) s.
Proof.
  induction s as [| a s IH]; [reflexivity |].
  rewrite replace_plus_cons, IH. cbn [concat_map_bytes].
  destruct (Ascii.eqb "+" a); reflexivity.
Qed.

Lemma replace_at_bytes (s : string) :
  strings_ReplaceAll s "@" "At" =
  concat_map_bytes
    (fun a => if Ascii.eqb "@" a then "At" else String a EmptyString) s.
Proof.
  induction s as [| a s IH]; [reflexivity |].
  rewrite replace_at_cons, IH. cbn [concat_map_bytes].
  destruct (Ascii.eqb "@" a); reflexivity.
Qed.

(** [normalize] on an ASCII string, byte by byte. *)
Lemma normalize_ascii (s : string) :
  is_ascii s = true -> normalize s = concat_map_bytes normalize_byte s.
Proof.
  intros Hs. unfold normalize. cbn [fold_left specialCharacterMapping fst snd].
  rewrite replace_plus_bytes, replace_at_bytes, concat_map_bytes_compose.
  rewrite strings_Map_ascii.
  - rewrite concat_map_bytes_compose.
    apply concat_map_bytes_ext; [exact Hs |].
    intros a Ha.
    assert (Hall : forall r, 0 <= r < 128 ->
              normalize_mapping r =
              if (r =? 46) || (r =? 45) then 95
              else if ascii_lower r || ascii_upper r || ascii_digit r || (r =? 95)
                   then r else -1)
      by apply normalize_mapping_ascii.
    revert Ha. destruct a as [b0 b1 b2 b3 b4 b5 b6 b7].
    destruct b7;
      [destruct b0, b1, b2, b3, b4, b5, b6; intros Ha; vm_compute in Ha;
       discriminate |].
    intros _.
    destruct b0, b1, b2, b3, b4, b5, b6;
      cbv [concat_map_bytes Ascii.eqb Bool.eqb andb String.append];
      rewrite ?Hall by (vm_compute; split; [discriminate | reflexivity]);
      reflexivity.
  - apply concat_map_bytes_ascii; [exact Hs |].
    intros a Ha. destruct (Ascii.eqb "+" a); [reflexivity |].
    cbn [concat_map_bytes]. destruct (Ascii.eqb "@" a); [reflexivity |].
    rewrite append_nil_r. cbn [is_ascii]. rewrite andb_true_r.
    apply Z.ltb_lt, Ha.
  - intros r Hr. rewrite normalize_mapping_ascii by assumption.
    destruct ((r =? 46) || (r =? 45)); [lia |].
    destruct (ascii_lower r || ascii_upper r || ascii_digit r || (r =? 95)); lia.
Qed.

End AsciiText.

(** ** The identifier sanitizer on ASCII *)

Lemma normalize_byte_ident (a : ascii) :
  all_bytes ident_byte (normalize_byte a) = true.
Proof.
  apply (forall_ascii (fun a => all_bytes ident_byte (normalize_byte a))).
  intros b0 b1 b2 b3 b4 b5 b6 b7.
  destruct b0, b1, b2, b3, b4, b5, b6, b7; reflexivity.
Qed.

Lemma normalize_byte_kept (a : ascii) :
  ident_byte a = true -> normalize_byte a = String a EmptyString.
Proof.
  destruct a as [b0 b1 b2 b3 b4 b5 b6 b7].
  destruct b0, b1, b2, b3, b4, b5, b6, b7; intros Ha;
    first [reflexivity | discriminate Ha].
Qed.

Lemma normalize_byte_ascii (a : ascii) :
  rune_of_byte a < 128 -> is_ascii (normalize_byte a) = true.
Proof.
  destruct a as [b0 b1 b2 b3 b4 b5 b6 b7].
  destruct b0, b1, b2, b3, b4, b5, b6, b7; intros Ha;
    first [reflexivity | vm_compute in Ha; discriminate Ha].
Qed.

Lemma concat_map_bytes_ident (s : string) :
  all_bytes ident_byte (concat_map_bytes normalize_byte s) = true.
Proof.
  induction s as [| a s IH]; [reflexivity |].
  cbn [concat_map_bytes]. rewrite all_bytes_app, normalize_byte_ident, IH.
  reflexivity.
Qed.

Lemma concat_map_bytes_kept (s : string) :
  all_bytes ident_byte s = true -> concat_map_bytes normalize_byte s = s.
Proof.
  induction s as [| a s IH]; [reflexivity |].
  cbn [all_bytes concat_map_bytes]. intros Hs.
  apply andb_true_iff in Hs. destruct Hs as [Ha Hs].
  rewrite (normalize_byte_kept a Ha), (IH Hs). reflexivity.
Qed.

Lemma normalize_kept `{GoUnicode} (s : string) :
  is_ascii s = true -> all_bytes ident_byte s = true -> normalize s = s.
Proof.
  intros Hs Hident. rewrite (normalize_ascii s Hs).
  apply concat_map_bytes_kept, Hident.
Qed.

(** X3. [normalize] on an ASCII string works byte by byte: a plus sign
    becomes "Plus", an at sign "At", a dot or a hyphen an underscore; a
    letter, a digit or an underscore is kept and any other byte is
    dropped.  So the result holds only letters, digits and underscores,
    a string of such bytes is returned as it is, and normalizing twice
    is normalizing once. *)
Theorem normalize_identifier_bytes `{GoUnicode} (s : string)
    (Hs : is_ascii s = true) :
  normalize s = concat_map_bytes normalize_byte s /\
  all_bytes ident_byte (normalize s) = true /\
  (all_bytes ident_byte s = true -> normalize s = s) /\
  normalize (normalize s) = normalize s.
Proof.
  rewrite (normalize_ascii s Hs).
  assert (Hascii : is_ascii (concat_map_bytes normalize_byte s) = true).
  { apply concat_map_bytes_ascii; [exact Hs |]. apply normalize_byte_ascii. }
  split; [reflexivity |]. split; [apply concat_map_bytes_ident |].
  split; [apply concat_map_bytes_kept |].
  rewrite (normalize_ascii _ Hascii).
  apply concat_map_bytes_kept, concat_map_bytes_ident.
Qed.

Lemma normalize_identifier_bytes_witness :
  is_ascii "my-type.v2+" = true /\
  normalize (H := ascii_text) "my-type.v2+" = "my_type_v2Plus".
Proof.
  split; [reflexivity |].
  rewrite (proj1 (normalize_identifier_bytes (H0 := ascii_unicode)
                    "my-type.v2+" eq_refl)).
  reflexivity.
Defined.

(** *** Reserved words *)

Lemma table_has_false_get (m : table) (k : string) :
  table_has m k = false -> table_get m k = "".
Proof.
  induction m as [| [k' v] m IH]; [reflexivity |].
  cbn [table_has table_get]. destruct (String.eqb k' k); [discriminate |].
  exact IH.
Qed.

Lemma table_has_entry (m : table) (k : string) :
  table_has m k = true -> In (k, table_get m k) m.
Proof.
  induction m as [| [k' v] m IH]; [discriminate |].
  cbn [table_has table_get].
  destruct (String.eqb_spec k' k) as [-> | Hne].
  - intros _. left. reflexivity.
  - intros Hm. right. apply IH, Hm.
Qed.

(** Every entry of [reservedWordsInAttr] but the last puts an underscore
    after the word, and no replacement is itself an entry. *)
Lemma reservedWordsInAttr_entries :
  List.Forall
    (fun kv => (snd kv = fst kv +:+ "_" \/ kv = ("string", "astring")) /\
               snd kv <> "" /\
               table_has reservedWordsInAttr (snd kv) = false)
    reservedWordsInAttr.
Proof.
  repeat constructor; first [left; reflexivity | right; reflexivity | discriminate].
Qed.

Lemma reservedWords_entries :
  List.Forall
    (fun kv => snd kv = fst kv +:+ "_" /\ snd kv <> "" /\
               table_has reservedWords (snd kv) = false)
    reservedWords.
Proof. repeat constructor; discriminate. Qed.

(** X4. [replaceReservedWords] and [replaceAttrReservedWords] on an
    identifier of ASCII letters, digits and underscores: a word of the
    table gets an underscore at its end (and "string", as the name of
    an attribute, becomes "astring"), any other identifier is returned
    as it is, and the result is never a word of the table. *)
Theorem reserved_words_replaced `{GoUnicode} (s : string)
    (Hs : is_ascii s = true) (Hident : all_bytes ident_byte s = true) :
  (table_has reservedWords s = true ->
   replaceReservedWords s = s +:+ "_" /\
   replaceAttrReservedWords s = s +:+ "_") /\
  (table_has reservedWords s = false -> replaceReservedWords s = s) /\
  (table_has reservedWordsInAttr s = false -> replaceAttrReservedWords s = s) /\
  (s = "string" -> replaceAttrReservedWords s = "astring") /\
  table_has reservedWords (replaceReservedWords s) = false /\
  table_has reservedWordsInAttr (replaceAttrReservedWords s) = false.
Proof.
  pose proof (normalize_kept s Hs Hident) as Hnorm.
  assert (Hfree : forall m, table_has m s = false ->
            (if negb (String.eqb (table_get m s) "")
             then table_get m s else normalize s) = s).
  { intros m Hm. rewrite (table_has_false_get m s Hm). exact Hnorm. }
  assert (Hword : table_has reservedWords s = true ->
            table_get reservedWords s = s +:+ "_" /\
            table_get reservedWordsInAttr s = s +:+ "_").
  { intros Hm. pose proof (table_has_entry _ _ Hm) as Hin.
    pose proof reservedWords_entries as Hall.
    rewrite List.Forall_forall in Hall.
    destruct (Hall _ Hin) as (Heq & _ & _). cbn [fst snd] in Heq.
    split; [exact Heq |].
    unfold reservedWordsInAttr.
    clear -Hm Heq. revert Hm Heq.
    generalize reservedWords. intros m.
    induction m as [| [k v] m IH]; [discriminate |].
    cbn [table_has table_get app].
    destruct (String.eqb k s); [intros _ Heq; exact Heq | exact IH]. }
  unfold replaceReservedWords, replaceAttrReservedWords.
  split; [| split; [| split; [| split; [| split]]]].
  - intros Hm. destruct (Hword Hm) as [-> ->].
    destruct s; split; reflexivity.
  - apply Hfree.
  - apply Hfree.
  - intros ->. reflexivity.
  - destruct (table_has reservedWords s) eqn:Hm.
    + pose proof (table_has_entry _ _ Hm) as Hin.
      pose proof reservedWords_entries as Hall.
      rewrite List.Forall_forall in Hall.
      destruct (Hall _ Hin) as (_ & Hne & Hout). cbn [fst snd] in *.
      destruct (String.eqb_spec (table_get reservedWords s) "");
        [contradiction | exact Hout].
    + rewrite (Hfree _ Hm). exact Hm.
  - destruct (table_has reservedWordsInAttr s) eqn:Hm.
    + pose proof (table_has_entry _ _ Hm) as Hin.
      pose proof reservedWordsInAttr_entries as Hall.
      rewrite List.Forall_forall in Hall.
      destruct (Hall _ Hin) as (_ & Hne & Hout). cbn [fst snd] in *.
      destruct (String.eqb_spec (table_get reservedWordsInAttr s) "");
        [contradiction | exact Hout].
    + rewrite (Hfree _ Hm). exact Hm.
Qed.

Lemma reserved_words_replaced_witness :
  is_ascii "type" = true /\ all_bytes ident_byte "type" = true /\
  replaceReservedWords (H := ascii_text) "type" = "type_".
Proof.
  split; [reflexivity |]. split; [reflexivity |].
  apply (proj1 (reserved_words_replaced (H0 := ascii_unicode) "type"
                  eq_refl eq_refl)).
  reflexivity.
Defined.

(** *** [makePublic] and [makePrivate] *)

Lemma isBasicType_not_upper (a : ascii) (rest : string) :
  isBasicType (String a rest) = true -> ascii_upper (rune_of_byte a) = false.
Proof.
  destruct a as [b0 b1 b2 b3 b4 b5 b6 b7].
  destruct b0, b1, b2, b3, b4, b5, b6, b7; intros Hb;
    first [reflexivity | cbn in Hb; discriminate Hb].
Qed.

Section Capitals.
Context `{GoUnicode}.

Lemma makePublic_ascii_string (a : ascii) (rest : string) :
  isBasicType (String a rest) = false ->
  is_ascii (String a rest) = true ->
  makePublic (String a rest) =
  String (byte_of_rune (ascii_ToUpper (rune_of_byte a))) rest.
Proof.
  intros Hb Hs. cbn [is_ascii] in Hs. apply andb_true_iff in Hs.
  destruct Hs as [Ha Hs]. apply Z.ltb_lt in Ha.
  rewrite makePublic_ascii by assumption.
  rewrite (string_of_runes_of rest Hs). reflexivity.
Qed.

Lemma makePrivate_ascii_string (a : ascii) (rest : string) :
  is_ascii (String a rest) = true ->
  makePrivate (String a rest) =
  String (byte_of_rune (ascii_ToLower (rune_of_byte a))) rest.
Proof.
  intros Hs. cbn [is_ascii] in Hs. apply andb_true_iff in Hs.
  destruct Hs as [Ha Hs]. apply Z.ltb_lt in Ha.
  pose proof (rune_of_byte_range a) as Hr.
  unfold makePrivate. rewrite runes_of_ascii by assumption.
  rewrite unicode_ToLower_ascii by lia.
  rewrite string_of_ascii.
  - rewrite (string_of_runes_of rest Hs). reflexivity.
  - unfold ascii_upper.
    destruct (65 <=? rune_of_byte a) eqn:E1;
      destruct (rune_of_byte a <=? 90) eqn:E2; cbn [andb]; lia.
Qed.

Lemma ascii_case_byte (a : ascii) :
  rune_of_byte a < 128 ->
  let up := byte_of_rune (ascii_ToUpper (rune_of_byte a)) in
  let low := byte_of_rune (ascii_ToLower (rune_of_byte a)) in
  rune_of_byte up < 128 /\ rune_of_byte low < 128 /\
  byte_of_rune (ascii_ToUpper (rune_of_byte up)) = up /\
  byte_of_rune (ascii_ToLower (rune_of_byte low)) = low /\
  (ascii_upper (rune_of_byte a) = false ->
   byte_of_rune (ascii_ToLower (rune_of_byte up)) = a) /\
  (ascii_lower (rune_of_byte a) = false ->
   byte_of_rune (ascii_ToUpper (rune_of_byte low)) = a) /\
  (ascii_lower (rune_of_byte a) = true -> ascii_upper (rune_of_byte up) = true) /\
  (ascii_lower (rune_of_byte a) = false -> up = a).
Proof.
  destruct a as [b0 b1 b2 b3 b4 b5 b6 b7].
  destruct b7;
    [destruct b0, b1, b2, b3, b4, b5, b6; intros Ha; vm_compute in Ha;
     discriminate |].
  intros _.
  destruct b0, b1, b2, b3, b4, b5, b6; vm_compute;
    repeat split; intros; congruence.
Qed.

(** X5. On ASCII identifiers [makePublic] and [makePrivate] are each
    idempotent; [makePrivate] undoes [makePublic] on a name that does
    not start with an upper-case letter (a basic type name among them);
    and [makePublic] undoes [makePrivate] on a name that does not start
    with a lower-case letter, unless the lower-cased name is that of a
    basic type, which [makePublic] returns as it is. *)
Theorem makePublic_makePrivate (a : ascii) (rest : string)
    (Hs : is_ascii (String a rest) = true) :
  let s := String a rest in
  makePublic (makePublic s) = makePublic s /\
  makePrivate (makePrivate s) = makePrivate s /\
  (ascii_upper (rune_of_byte a) = false -> makePrivate (makePublic s) = s) /\
  (ascii_lower (rune_of_byte a) = false ->
   makePublic (makePrivate s) =
   if isBasicType (makePrivate s) then makePrivate s else s).
Proof.
  cbv zeta.
  assert (Ha : rune_of_byte a < 128).
  { cbn [is_ascii] in Hs. apply andb_true_iff in Hs. apply Z.ltb_lt, Hs. }
  assert (Hrest : is_ascii rest = true).
  { cbn [is_ascii] in Hs. apply andb_true_iff in Hs. apply Hs. }
  destruct (ascii_case_byte a Ha)
    as (Hup & Hlow & Hupup & Hlowlow & Hlowup & Huplow & Hupper & Hsame).
  set (up := byte_of_rune (ascii_ToUpper (rune_of_byte a))) in *.
  set (low := byte_of_rune (ascii_ToLower (rune_of_byte a))) in *.
  assert (Hsup : is_ascii (String up rest) = true).
  { cbn [is_ascii]. rewrite Hrest, andb_true_r. apply Z.ltb_lt, Hup. }
  assert (Hslow : is_ascii (String low rest) = true).
  { cbn [is_ascii]. rewrite Hrest, andb_true_r. apply Z.ltb_lt, Hlow. }
  rewrite (makePrivate_ascii_string a rest Hs). fold low.
  rewrite (makePrivate_ascii_string low rest Hslow), Hlowlow.
  split; [| split; [reflexivity | split]].
  - destruct (isBasicType (String a rest)) eqn:Hb.
    + rewrite !(makePublic_basic _ Hb). reflexivity.
    + rewrite (makePublic_ascii_string a rest Hb Hs). fold up.
      assert (Hbu : isBasicType (String up rest) = false).
      { destruct (ascii_lower (rune_of_byte a)) eqn:Hl.
        - destruct (isBasicType (String up rest)) eqn:Hbu; [| reflexivity].
          apply isBasicType_not_upper in Hbu.
          rewrite (Hupper eq_refl) in Hbu. discriminate.
        - rewrite (Hsame eq_refl). exact Hb. }
      rewrite (makePublic_ascii_string up rest Hbu Hsup), Hupup. reflexivity.
  - intros Hnu. destruct (isBasicType (String a rest)) eqn:Hb.
    + rewrite (makePublic_basic _ Hb).
      rewrite (makePrivate_ascii_string a rest Hs). fold low.
      assert (Hl : low = a).
      { unfold low, ascii_ToLower. rewrite Hnu. apply byte_of_rune_of_byte. }
      rewrite Hl. reflexivity.
    + rewrite (makePublic_ascii_string a rest Hb Hs). fold up.
      rewrite (makePrivate_ascii_string up rest Hsup), (Hlowup Hnu).
      reflexivity.
  - intros Hnl. destruct (isBasicType (String low rest)) eqn:Hb.
    + apply makePublic_basic, Hb.
    + rewrite (makePublic_ascii_string low rest Hb Hslow), (Huplow Hnl).
      reflexivity.
Qed.

End Capitals.

Lemma makePublic_makePrivate_witness :
  is_ascii "String" = true /\
  makePublic (H := ascii_text)
    (makePrivate (H := ascii_text) (H0 := ascii_unicode) "String") = "string".
Proof.
  split; [reflexivity |].
  apply (proj2 (proj2 (proj2
           (makePublic_makePrivate (H0 := ascii_unicode) "S" "tring" eq_refl)))).
  reflexivity.
Defined.

(** ** [goString] *)

Lemma goString_cons (c : ascii) (s : string) :
  goString (String c s) =
  if Ascii.eqb quote c then String backslash (String quote (goString s))
  else String c (goString s).
Proof.
  unfold goString, strings_ReplaceAll.
  cbn [replace_from strings_HasPrefix String.length Nat.pred].
  destruct (Ascii.eqb quote c); reflexivity.
Qed.

Lemma goString_head (s : string) :
  match goString s with
  | String b _ => Ascii.eqb quote b = false
  | EmptyString => True
  end.
Proof.
  destruct s as [| c s]; [exact I |].
  rewrite goString_cons. destruct (Ascii.eqb quote c) eqn:E; [reflexivity | exact E].
Qed.

(** X6. [goString] puts a backslash before every double quote and
    changes nothing else: the result is longer by the number of double
    quotes, a string without one is returned as it is, the backslashes
    of the string itself are not doubled, and taking the backslash away
    again from before every double quote gives the string back. *)
Theorem goString_round_trip (s : string) :
  strings_ReplaceAll (goString s) (String backslash (String quote ""))
    (String quote "") = s /\
  String.length (goString s) = (String.length s + count_byte quote s)%nat /\
  count_byte backslash (goString s)
  = (count_byte backslash s + count_byte quote s)%nat /\
  (count_byte quote s = O -> goString s = s).
Proof.
  induction s as [| c s (IH1 & IH2 & IH3 & IH4)].
  - repeat split; reflexivity.
  - rewrite goString_cons. cbn [count_byte String.length].
    rewrite (Ascii.eqb_sym c quote).
    destruct (Ascii.eqb_spec quote c) as [<- | Hc].
    + split; [| split; [| split]].
      * unfold strings_ReplaceAll in *.
        cbn [replace_from strings_HasPrefix String.length Nat.pred].
        rewrite !Ascii.eqb_refl. cbn [andb].
        change (String quote "" +:+ ?x) with (String quote x).
        rewrite IH1. reflexivity.
      * cbn [String.length]. rewrite IH2. lia.
      * cbn [count_byte Ascii.eqb Bool.eqb quote backslash]. cbn. rewrite IH3.
        cbn [count_byte Ascii.eqb Bool.eqb quote backslash]. lia.
      * discriminate.
    + split; [| split; [| split]].
      * unfold strings_ReplaceAll in *.
        cbn [replace_from strings_HasPrefix String.length Nat.pred].
        pose proof (goString_head s) as Hhead.
        destruct (goString s) as [| b t] eqn:Hg.
        -- rewrite andb_false_r. rewrite <- IH1. reflexivity.
        -- rewrite Hhead, andb_false_r. rewrite IH1. reflexivity.
      * cbn [String.length]. rewrite IH2. reflexivity.
      * cbn [count_byte]. rewrite IH3.
        destruct (Ascii.eqb c backslash); reflexivity.
      * intros Hq. rewrite (IH4 Hq). reflexivity.
Qed.

(** ** [removePointerFromType] *)

Lemma match_here_star_cons (c : ascii) (items : list Item) (b : bool)
    (a : ascii) (s : string) :
  match_here (Star c :: items) b (String a s) =
  if Ascii.eqb a c then
    match match_here (Star c :: items) false s with
    | Some r => Some r
    | None => match_here items b (String a s)
    end
  else match_here items b (String a s).
Proof. reflexivity. Qed.

Lemma match_here_star_nil (c : ascii) (items : list Item) (b : bool) :
  match_here (Star c :: items) b EmptyString = match_here items b EmptyString.
Proof. reflexivity. Qed.

Lemma match_here_star (c : ascii) (s : string) (b : bool) :
  match_here [Star c] b s = Some (drop_while (fun a => Ascii.eqb a c) s).
Proof.
  revert b. induction s as [| a s IH]; intros b; [reflexivity |].
  rewrite match_here_star_cons. cbn [drop_while].
  destruct (Ascii.eqb a c); [rewrite IH |]; reflexivity.
Qed.

Lemma match_here_star_star (c c' : ascii) (s : string) (b : bool) :
  match_here [Star c; Star c'] b s =
  Some (drop_while (fun a => Ascii.eqb a c')
          (drop_while (fun a => Ascii.eqb a c) s)).
Proof.
  revert b. induction s as [| a s IH]; intros b; [reflexivity |].
  rewrite match_here_star_cons. cbn [drop_while].
  destruct (Ascii.eqb a c); [rewrite IH; reflexivity |].
  apply match_here_star.
Qed.

(** Past the beginning of the text nothing matches a pattern that starts
    with [^]: the characters are passed or copied as they are. *)
Lemma replace_matches_anchored (items : list Item) (repl : string)
    (after_match : bool) (skip : nat) (s : string) :
  replace_matches (BeginText :: items) repl false after_match skip s
  = string_drop skip s.
Proof.
  revert after_match skip. induction s as [| a s IH]; intros after_match skip.
  - destruct skip; reflexivity.
  - destruct skip as [| k].
    + cbn [replace_matches match_here string_drop]. rewrite IH. reflexivity.
    + cbn [replace_matches string_drop]. apply IH.
Qed.

Lemma drop_while_suffix (f : ascii -> bool) (s : string) :
  string_drop (String.length s - String.length (drop_while f s)) s
  = drop_while f s /\
  (String.length (drop_while f s) <= String.length s)%nat.
Proof.
  induction s as [| a s [IH1 IH2]]; [split; [reflexivity | apply le_n] |].
  cbn [drop_while]. destruct (f a).
  - cbn [String.length]. split; [| lia].
    replace (S (String.length s) - String.length (drop_while f s))%nat
      with (S (String.length s - String.length (drop_while f s))) by lia.
    cbn [string_drop]. exact IH1.
  - rewrite Nat.sub_diag. split; [reflexivity | apply le_n].
Qed.

Lemma string_drop_drop (n m : nat) (s : string) :
  string_drop n (string_drop m s) = string_drop (m + n) s.
Proof.
  revert s. induction m as [| m IH]; intros s; [reflexivity |].
  destruct s as [| a s]; [destruct n; reflexivity |].
  cbn [string_drop Nat.add]. apply IH.
Qed.

Lemma string_drop_length (n : nat) (s : string) :
  String.length (string_drop n s) = (String.length s - n)%nat.
Proof.
  revert s. induction n as [| n IH]; intros s.
  - cbn [string_drop]. lia.
  - destruct s as [| a s]; [reflexivity |]. cbn [string_drop String.length].
    apply IH.
Qed.

(** X7. [removePointerFromType] does not take the pointer away.  Its
    pattern asks for a backslash at the beginning of the text: a type
    that starts with any other character, so every type "*T", is
    returned as it is, and so is what [toGoType] returns for a nillable
    element.  From a text that starts with a backslash it drops that
    backslash, the letters s after it and the backslashes after those. *)
Theorem removePointerFromType_keeps_pointer `{GoText} (g : GoWSDL)
    (xsdType minOccurs : string) :
  (forall s,
     removePointerFromType s =
     match s with
     | String c rest =>
         if Ascii.eqb c backslash
         then drop_while (fun a => Ascii.eqb a backslash)
                (drop_while (fun a => Ascii.eqb a "s"%char) rest)
         else s
     | EmptyString => EmptyString
     end) /\
  (forall t, removePointerFromType ("*" +:+ t) = "*" +:+ t) /\
  removePointerFromType (fst (toGoType g xsdType true minOccurs))
  = "*" +:+ fst (toGoType g xsdType false "").
Proof.
  assert (Hall : forall s,
     removePointerFromType s =
     match s with
     | String c rest =>
         if Ascii.eqb c backslash
         then drop_while (fun a => Ascii.eqb a backslash)
                (drop_while (fun a => Ascii.eqb a "s"%char) rest)
         else s
     | EmptyString => EmptyString
     end).
  { intros [| c rest]; [reflexivity |].
    unfold removePointerFromType, regexp_ReplaceAllLiteralString, pointer_pattern.
    cbn [replace_matches].
    change (match_here (BeginText :: ?items) true ?s)
      with (match_here items true s).
    change (match_here (Literal ?x :: ?items) true (String c rest))
      with (if Ascii.eqb c x then match_here items false rest else None).
    destruct (Ascii.eqb c backslash).
    - rewrite match_here_star_star.
      set (r := drop_while _ (drop_while _ rest)).
      assert (Hr : string_drop (String.length rest - String.length r) rest = r
                   /\ (String.length r <= String.length rest)%nat).
      { unfold r.
        pose proof (drop_while_suffix (fun a => Ascii.eqb a "s"%char) rest)
          as [H1 H2].
        pose proof (drop_while_suffix (fun a => Ascii.eqb a backslash)
                      (drop_while (fun a => Ascii.eqb a "s"%char) rest))
          as [H3 H4].
        split; [| lia].
        set (d := drop_while (fun a => Ascii.eqb a "s"%char) rest) in *.
        transitivity
          (string_drop
             (String.length d
              - String.length (drop_while (fun a => Ascii.eqb a backslash) d))
             (string_drop (String.length rest - String.length d) rest)).
        - rewrite string_drop_drop. f_equal. lia.
        - rewrite H1. exact H3. }
      destruct Hr as [Hr Hlen]. cbn [String.length].
      replace (S (String.length rest) - String.length r)%nat
        with (S (String.length rest - String.length r)) by lia.
      rewrite replace_matches_anchored. exact Hr.
    - rewrite replace_matches_anchored. reflexivity. }
  split; [exact Hall |]. split.
  - intros t. apply (Hall (String "*" t)).
  - rewrite (toGoType_mapped g xsdType true minOccurs).
    rewrite (toGoType_mapped g xsdType false ""). cbn [fst orb].
    apply (Hall (String "*" _)).
Qed.

(** ** [comment] *)

Lemma strings_Split_ascii (s : string) (sep : ascii) :
  is_ascii s = true ->
  List.Forall (fun part => is_ascii part = true) (strings_Split s sep).
Proof.
  induction s as [| c s IH]; intros Hs; [repeat constructor |].
  cbn [is_ascii] in Hs. apply andb_true_iff in Hs. destruct Hs as [Hc Hs].
  rewrite strings_Split_cons. specialize (IH Hs).
  destruct (Ascii.eqb c sep).
  - constructor; [reflexivity | exact IH].
  - destruct (strings_Split s sep) as [| h t].
    + repeat constructor. cbn [is_ascii]. rewrite Hc. reflexivity.
    + inversion IH as [| ? ? Hh Ht]; subst.
      constructor; [| exact Ht]. cbn [is_ascii]. rewrite Hc, Hh. reflexivity.
Qed.

Lemma strings_Split_app (l r : string) (sep : ascii) :
  count_byte sep l = O ->
  strings_Split (l +:+ String sep r) sep = l :: strings_Split r sep.
Proof.
  intros Hl. induction l as [| c l IH].
  - change (strings_Split (String sep r) sep = [""] ++ strings_Split r sep).
    rewrite strings_Split_cons, Ascii.eqb_refl. reflexivity.
  - rewrite append_cons, strings_Split_cons. cbn [count_byte] in Hl.
    destruct (Ascii.eqb c sep); [discriminate |].
    rewrite (IH Hl). reflexivity.
Qed.

Lemma strings_Split_lines_after (sep : ascii) (l : string) (ls : list string) :
  count_byte sep l = O ->
  List.Forall (fun l => count_byte sep l = O) ls ->
  strings_Split (l +:+ lines_after sep ls) sep = l :: ls.
Proof.
  intros Hl Hls. revert l Hl. induction Hls as [| l' ls Hl' _ IH]; intros l Hl.
  - cbn [lines_after]. rewrite append_nil_r. apply strings_Split_none, Hl.
  - cbn [lines_after]. rewrite append_cons.
    rewrite (strings_Split_app l _ sep Hl). rewrite (IH l' Hl'). reflexivity.
Qed.

Lemma drop_while_ext (f g : ascii -> bool) (s : string) :
  is_ascii s = true ->
  (forall a, rune_of_byte a < 128 -> f a = g a) ->
  drop_while f s = drop_while g s.
Proof.
  intros Hs Hfg. induction s as [| a s IH]; [reflexivity |].
  cbn [is_ascii] in Hs. apply andb_true_iff in Hs. destruct Hs as [Ha Hs].
  cbn [drop_while]. rewrite (Hfg a) by lia. rewrite (IH Hs). reflexivity.
Qed.

Lemma drop_while_count (f : ascii -> bool) (c : ascii) (s : string) :
  count_byte c s = O -> count_byte c (drop_while f s) = O.
Proof.
  induction s as [| a s IH]; [reflexivity |].
  cbn [drop_while]. destruct (f a); [| intros Hs; exact Hs].
  cbn [count_byte]. destruct (Ascii.eqb a c); [discriminate | exact IH].
Qed.

Lemma drop_while_empty (f : ascii -> bool) (s : string) :
  drop_while f s = EmptyString <-> all_bytes f s = true.
Proof.
  induction s as [| a s IH]; [split; reflexivity |].
  cbn [drop_while all_bytes]. destruct (f a); [exact IH |].
  split; discriminate.
Qed.

Lemma all_bytes_join (f : ascii -> bool) (sep : ascii) (ls : list string) :
  f sep = true ->
  all_bytes f (join_with sep ls) = forallb (all_bytes f) ls.
Proof.
  intros Hsep. induction ls as [| l [| l' ls] IH]; [reflexivity | |].
  - cbn [join_with forallb]. rewrite andb_true_r. reflexivity.
  - change (join_with sep (l :: l' :: ls))
      with (l +:+ String sep (join_with sep (l' :: ls))).
    rewrite all_bytes_app. cbn [all_bytes]. rewrite Hsep, IH. reflexivity.
Qed.

Section Comment.
Context `{GoUnicode}.

Lemma TrimLeftFunc_space (line : string) :
  is_ascii line = true ->
  strings_TrimLeftFunc line unicode_IsSpace = drop_while space_byte line.
Proof.
  intros Hl. rewrite strings_TrimLeftFunc_ascii by assumption.
  apply drop_while_ext; [assumption |].
  intros a Ha. pose proof (rune_of_byte_range a).
  apply unicode_IsSpace_ascii. lia.
Qed.

Lemma comment_loop (lines : list string) (output : string) (b : bool) :
  List.Forall (fun l => is_ascii l = true) lines ->
  fold_left comment_line lines (output, b) =
  (output +:+ lines_after newline (map comment_text lines),
   b || negb (forallb (all_bytes space_byte) lines)).
Proof.
  intros Hl. revert output b.
  induction Hl as [| l lines Hl _ IH]; intros output b.
  - cbn [fold_left map lines_after forallb negb]. rewrite append_nil_r, orb_false_r.
    reflexivity.
  - cbn [fold_left map lines_after forallb]. unfold comment_line at 2.
    cbn [fst snd]. rewrite (TrimLeftFunc_space l Hl). rewrite IH.
    f_equal.
    + unfold comment_text. rewrite !append_assoc. reflexivity.
    + destruct (all_bytes space_byte l) eqn:E.
      * apply drop_while_empty in E. rewrite E. cbn [String.eqb negb andb].
        reflexivity.
      * assert (Hne : drop_while space_byte l <> "").
        { intros Heq. apply drop_while_empty in Heq. congruence. }
        destruct (String.eqb_spec (drop_while space_byte l) "");
          [contradiction |].
        cbn [negb andb]. rewrite orb_true_r. reflexivity.
Qed.

(** X8. [comment] on an ASCII text.  The result is empty exactly when
    the text holds nothing but white space.  Otherwise it is one line
    for each line of the text, after a first line feed: two slashes, a
    space and the line without the white space at its start; so every
    line of the result but the empty first one starts a Go comment. *)
Theorem comment_lines (text : string) (Hs : is_ascii text = true) :
  (comment text = "" <-> all_bytes space_byte text = true) /\
  (all_bytes space_byte text = false ->
   strings_Split (comment text) newline =
   "" :: map comment_text (strings_Split text newline)).
Proof.
  pose proof (strings_Split_ascii text newline Hs) as Hascii.
  pose proof (strings_Split_join text newline) as Hjoin.
  pose proof (strings_Split_parts text newline) as Hparts.
  pose proof (strings_Split_length text newline) as Hlen.
  assert (Hblank : all_bytes space_byte text
                   = forallb (all_bytes space_byte) (strings_Split text newline)).
  { rewrite <- Hjoin at 1. apply all_bytes_join. reflexivity. }
  unfold comment. rewrite (comment_loop _ "" false Hascii). cbn [fst snd orb].
  change ("" +:+ ?x) with x.
  set (lines := strings_Split text newline) in *.
  assert (Hout : lines_after newline (map comment_text lines) <> "").
  { destruct lines as [| l ls]; [discriminate Hlen | discriminate]. }
  rewrite Hblank.
  destruct (forallb (all_bytes space_byte) lines) eqn:Hall; cbn [negb].
  - split; [| discriminate].
    destruct (_ && _); split; reflexivity.
  - assert (Hearly : Nat.eqb (List.length lines) 1
                     && String.eqb (nth 0 lines "") "" = false).
    { destruct lines as [| l [| l' ls]]; try reflexivity.
      cbn [forallb] in Hall. rewrite andb_true_r in Hall.
      cbn [List.length Nat.eqb nth andb].
      destruct (String.eqb_spec l ""); [subst l; discriminate Hall | reflexivity]. }
    rewrite Hearly. split.
    + split; [intros Heq; contradiction | discriminate].
    + intros _.
      apply (strings_Split_lines_after newline "" (map comment_text lines));
        [reflexivity |].
      apply List.Forall_forall. intros l Hin.
      apply in_map_iff in Hin. destruct Hin as (l0 & <- & Hin).
      rewrite List.Forall_forall in Hparts.
      unfold comment_text. rewrite count_byte_app.
      rewrite (drop_while_count space_byte newline l0 (Hparts l0 Hin)).
      reflexivity.
Qed.

End Comment.

Lemma comment_lines_witness :
  is_ascii (" a" +:+ String newline "  b") = true /\
  all_bytes space_byte (" a" +:+ String newline "  b") = false /\
  strings_Split
    (comment (H := ascii_text) (H0 := ascii_unicode)
       (" a" +:+ String newline "  b")) newline
  = [""; "// a"; "// b"].
Proof.
  split; [reflexivity |]. split; [reflexivity |].
  apply (proj2 (comment_lines (H0 := ascii_unicode)
                  (" a" +:+ String newline "  b") eq_refl)).
  reflexivity.
Defined.

(** ** The command *)

Lemma adds_pret (P : Action -> Prop) {A} (a : A) : adds P (pret a).
Proof. intros tr. exists []. rewrite app_nil_r. split; [reflexivity | constructor]. Qed.




Lemma adds_pwhen (P : Action -> Prop) (b : bool) (c : Proc unit) :
  adds P c -> adds P (pwhen b c).
Proof. intros Hc. destruct b; [exact Hc | apply adds_pret]. Qed.

Section CommandFacts.
Context `{GoUnicode}.
Variable Version : string.
Variable ParseLocation : string -> Location + error.
Variable Start : GoWSDL -> GenerationResult + error.
Variable os_Mkdir : list Action -> string -> option error.
Variable os_Create : list Action -> string -> option error.
Variable format_Source : bytes -> bytes + error.
Variable filepath_Join : list string -> string.
Variable is_ErrExist : error -> bool.
Variable map_range : list Action -> NamespaceMapping -> list (string * string).

#[local] Abbreviation main' :=
  (main Version ParseLocation Start os_Mkdir os_Create format_Source
     filepath_Join is_ErrExist map_range).
#[local] Abbreviation found := (mkdir_found is_ErrExist).
#[local] Abbreviation is_exist := (errors_Is_ErrExist is_ErrExist).






Lemma mkdir_packages_cons (pkgPath subPkg : string) (subPkgs : list string)
    (tr : list Action) :
  mkdir_packages os_Mkdir filepath_Join is_ErrExist pkgPath (subPkg :: subPkgs) tr
  = let name := filepath_Join [pkgPath; subPkg] in
    let err := os_Mkdir tr name in
    if is_exist err
    then mkdir_packages os_Mkdir filepath_Join is_ErrExist pkgPath subPkgs
           (tr ++ [Mkdir name err])
    else (None, (tr ++ [Mkdir name err]) ++ [Fatalln_error err]).
Proof.
  cbn [mkdir_packages]. unfold pbind, mkdir. cbv zeta.
  destruct (is_exist _); reflexivity.
Qed.

(** The first loop over the packages either finds every directory in
    place, or ends the run at the first call that does not. *)
Lemma mkdir_packages_run (pkgPath : string) (subPkgs : list string)
    (tr : list Action) :
  (exists ms,
     mkdir_packages os_Mkdir filepath_Join is_ErrExist pkgPath subPkgs tr
     = (Some tt, tr ++ ms) /\
     List.Forall (fun a => found a = true) ms) \/
  (exists ms name err,
     mkdir_packages os_Mkdir filepath_Join is_ErrExist pkgPath subPkgs tr
     = (None, tr ++ ms ++ [Mkdir name err; Fatalln_error err]) /\
     List.Forall (fun a => found a = true) ms /\
     is_exist err = false).
Proof.
  revert tr. induction subPkgs as [| subPkg subPkgs IH]; intros tr.
  - left. exists []. rewrite app_nil_r. split; [reflexivity | constructor].
  - rewrite mkdir_packages_cons. cbv zeta.
    set (name := filepath_Join [pkgPath; subPkg]).
    set (err := os_Mkdir tr name).
    destruct (is_exist err) eqn:Herr.
    + destruct (IH (tr ++ [Mkdir name err]))
        as [(ms & Heq & Hms) | (ms & n & e & Heq & Hms & He)].
      * left. exists (Mkdir name err :: ms). rewrite Heq, <- app_assoc.
        split; [reflexivity |]. constructor; [exact Herr | exact Hms].
      * right. exists (Mkdir name err :: ms), n, e.
        rewrite Heq, <- app_assoc.
        split; [reflexivity |]. split; [| exact He].
        constructor; [exact Herr | exact Hms].
    + right. exists [], name, err. cbn [app].
      rewrite <- app_assoc.
      split; [reflexivity |]. split; [constructor | exact Herr].
Qed.


End CommandFacts.

Lemma created_app (a b : list Action) : created (a ++ b) = created a ++ created b.
Proof.
  induction a as [| x a IH]; [reflexivity |].
  destruct x as [| | | | | | name [e |] | |]; cbn [app created]; rewrite ?IH;
    reflexivity.
Qed.

Lemma closed_app (a b : list Action) : closed (a ++ b) = closed a ++ closed b.
Proof.
  induction a as [| x a IH]; [reflexivity |].
  destruct x; cbn [app closed]; rewrite ?IH; reflexivity.
Qed.

Section CommandWrites.
Context `{GoUnicode}.
Variable Version : string.
Variable ParseLocation : string -> Location + error.
Variable Start : GoWSDL -> GenerationResult + error.
Variable os_Mkdir : list Action -> string -> option error.
Variable os_Create : list Action -> string -> option error.
Variable format_Source : bytes -> bytes + error.
Variable filepath_Join : list string -> string.
Variable is_ErrExist : error -> bool.
Variable map_range : list Action -> NamespaceMapping -> list (string * string).

#[local] Abbreviation main'' :=
  (main Version ParseLocation Start os_Mkdir os_Create format_Source
     filepath_Join is_ErrExist map_range).
#[local] Abbreviation careful' := (@careful format_Source).
#[local] Abbreviation formatted' := (formatted format_Source).













End CommandWrites.

Lemma no_files_no_closes (l : list Action) :
  List.Forall (fun a => is_mkdir a = true) l -> created l = [] /\ closed l = [].
Proof.
  induction 1 as [| a l Ha _ [IH1 IH2]]; [split; reflexivity |].
  destruct a; try discriminate Ha. cbn [created closed]. split; assumption.
Qed.

Lemma found_is_mkdir (is_ErrExist : error -> bool) (l : list Action) :
  List.Forall (fun a => mkdir_found is_ErrExist a = true) l ->
  List.Forall (fun a => is_mkdir a = true) l.
Proof.
  intros Hl. eapply List.Forall_impl; [| exact Hl].
  intros a Ha. destruct a; try discriminate Ha. reflexivity.
Qed.

Lemma close_all_run (names : list string) (tr : list Action) :
  close_all names tr = (Some tt, tr ++ map Close names).
Proof.
  revert tr. induction names as [| name names IH]; intros tr.
  - cbn [close_all map pret]. rewrite app_nil_r. reflexivity.
  - cbn [close_all map]. unfold pbind, act. rewrite IH, <- app_assoc.
    reflexivity.
Qed.

Lemma closed_map_Close (names : list string) :
  closed (map Close names) = names /\ created (map Close names) = [].
Proof.
  induction names as [| name names [IH1 IH2]]; [split; reflexivity |].
  cbn [map closed created]. rewrite IH1, IH2. split; reflexivity.
Qed.

Section CommandCloses.
Context `{GoUnicode}.
Variable Version : string.
Variable ParseLocation : string -> Location + error.
Variable Start : GoWSDL -> GenerationResult + error.
Variable os_Mkdir : list Action -> string -> option error.
Variable os_Create : list Action -> string -> option error.
Variable format_Source : bytes -> bytes + error.
Variable filepath_Join : list string -> string.
Variable is_ErrExist : error -> bool.
Variable map_range : list Action -> NamespaceMapping -> list (string * string).

#[local] Abbreviation main_ :=
  (main Version ParseLocation Start os_Mkdir os_Create format_Source
     filepath_Join is_ErrExist map_range).

Lemma write_source_run (name : string) (data : bytes) (tr : list Action) :
  (exists b, write_source format_Source name data tr
             = (Some tt, tr ++ [Write name b])) \/
  (exists err, write_source format_Source name data tr
               = (None, tr ++ [Write name data; Fatalln_error (Some err)])).
Proof.
  unfold write_source. destruct (format_Source data) as [source | err].
  - left. exists source. reflexivity.
  - right. exists err. unfold pbind, act, stop. rewrite <- app_assoc.
    reflexivity.
Qed.

(** The second loop over the packages closes nothing; when it returns,
    the files it opened are deferred before those deferred already, the
    last opened first. *)
Lemma write_packages_run (pkgPath : string) (generationResult : GenerationResult)
    (subPkgs deferred : list string) (tr : list Action)
    (res : option (list string)) (tr' : list Action) :
  write_packages os_Create format_Source filepath_Join pkgPath
    generationResult subPkgs deferred tr = (res, tr') ->
  exists rest,
    tr' = tr ++ rest /\ closed rest = [] /\
    forall deferred', res = Some deferred' ->
                      deferred' = rev (created rest) ++ deferred.
Proof.
  revert deferred tr.
  induction subPkgs as [| subPkg subPkgs IH]; intros deferred tr Hrun.
  - cbn [write_packages pret] in Hrun. injection Hrun as <- <-.
    exists []. rewrite app_nil_r.
    repeat split. intros d Hd. injection Hd as <-. reflexivity.
  - cbn [write_packages] in Hrun. set (name := filepath_Join _) in Hrun.
    unfold pbind at 1, act at 1 in Hrun. unfold pbind at 1, act at 1 in Hrun.
    unfold pbind at 1, act at 1 in Hrun. unfold pbind at 1, create at 1 in Hrun.
    cbv zeta in Hrun. rewrite <- !app_assoc in Hrun. cbn [app] in Hrun.
    set (tr1 := tr ++ _) in Hrun.
    destruct (os_Create tr1 name) as [e |] eqn:Hc.
    + unfold stop in Hrun. injection Hrun as <- <-. unfold tr1.
      rewrite <- !app_assoc. cbn [app].
      eexists. split; [reflexivity |]. split; [reflexivity | discriminate].
    + unfold pbind at 1 in Hrun.
      match type of Hrun with
      | context [write_source format_Source name ?data ?t] =>
          destruct (write_source_run name data t) as [(b & Hw) | (err & Hw)];
            rewrite Hw in Hrun
      end.
      * apply IH in Hrun. destruct Hrun as (rest & -> & Hcl & Hdef).
        unfold tr1. rewrite <- !app_assoc. cbn [app].
        eexists. split; [reflexivity |]. cbn [closed created].
        split; [exact Hcl |].
        intros d' Hd'. rewrite (Hdef d' Hd'). cbn [rev].
        rewrite <- app_assoc. reflexivity.
      * injection Hrun as <- <-. unfold tr1. rewrite <- !app_assoc. cbn [app].
        eexists. split; [reflexivity |]. split; [reflexivity | discriminate].
Qed.

(** X11. [main] closes the files it opened only when it returns: then
    each of them once, the last opened first, as the deferred calls
    run.  A run that ends in [log.Fatalln] or [os.Exit] closes none. *)
Theorem main_closes_on_return (flags : Flags) (os_Args : list string) :
  let run := main_ flags os_Args [] in
  (fst run = Some tt -> closed (snd run) = rev (created (snd run))) /\
  (fst run = None -> closed (snd run) = []).
Proof.
  cbv zeta.
  destruct (main_ flags os_Args []) as [res tr] eqn:Hrun. cbn [fst snd].
  assert (Hstop : forall tr',
            (None, tr') = (res, tr) -> closed tr' = [] ->
            (res = Some tt -> closed tr = rev (created tr)) /\
            (res = None -> closed tr = [])).
  { intros tr' Heq Hcl. injection Heq as <- <-.
    split; [discriminate | intros _; exact Hcl]. }
  unfold main in Hrun. unfold pbind at 1 in Hrun.
  destruct ((0 <? Z.of_nat (size (f_nsToPkg flags)))
            && String.eqb (f_pkgBaseUrl flags) "");
    [apply (Hstop _ Hrun); reflexivity |].
  cbn [pwhen pret] in Hrun. unfold pbind at 1 in Hrun.
  destruct (f_vers flags); [apply (Hstop _ Hrun); reflexivity |].
  cbn [pwhen pret] in Hrun. unfold pbind at 1 in Hrun.
  destruct (Z.of_nat (List.length os_Args) <? 2);
    [apply (Hstop _ Hrun); reflexivity |].
  cbn [pwhen pret] in Hrun. unfold pbind at 1 in Hrun.
  destruct (String.eqb (f_outFile flags) (List.last os_Args ""));
    [apply (Hstop _ Hrun); reflexivity |].
  cbn [pwhen pret] in Hrun.
  destruct (gen_NewGoWSDL _ _ _ _ _ _ _) as [gowsdl | err0];
    [| apply (Hstop _ Hrun); reflexivity].
  destruct (Start gowsdl) as [generationResult | err0];
    [| apply (Hstop _ Hrun); reflexivity].
  set (pkgPath := filepath_Join [f_dir flags; f_pkg flags]) in *.
  unfold pbind at 1, mkdir at 1 in Hrun. cbn [app] in Hrun.
  set (err := os_Mkdir [] pkgPath) in *.
  unfold pbind at 1 in Hrun.
  destruct (errors_Is_ErrExist is_ErrExist err) eqn:Herr;
    cbn [negb pwhen pret stop app] in Hrun;
    [| apply (Hstop _ Hrun); reflexivity].
  unfold pbind at 1, NamespaceMapping_GetPackages at 1 in Hrun.
  unfold pbind at 1 in Hrun.
  destruct (mkdir_packages_run os_Mkdir filepath_Join is_ErrExist pkgPath
              (map snd (map_range [Mkdir pkgPath err] (f_nsToPkg flags)))
              [Mkdir pkgPath err])
    as [(ms & Heq & Hms) | (ms & n & e & Heq & Hms & He)];
    rewrite Heq in Hrun;
    apply found_is_mkdir, no_files_no_closes in Hms; destruct Hms as [Hcr Hcl].
  2:{ apply (Hstop _ Hrun). rewrite !closed_app, Hcl. reflexivity. }
  set (tr1 := [Mkdir pkgPath err] ++ ms) in *.
  assert (Htr1 : created tr1 = [] /\ closed tr1 = []).
  { unfold tr1. rewrite created_app, closed_app, Hcr, Hcl. split; reflexivity. }
  destruct Htr1 as [Hcr1 Hcl1].
  set (name := filepath_Join [pkgPath; f_outFile flags]) in *.
  unfold pbind at 1, create at 1 in Hrun. cbv zeta in Hrun.
  destruct (os_Create tr1 name) as [e |] eqn:Hc.
  { apply (Hstop _ Hrun). rewrite !closed_app, Hcl1. reflexivity. }
  unfold pbind at 1 in Hrun.
  match type of Hrun with
  | context [write_source format_Source name ?data ?t] =>
      destruct (write_source_run name data t) as [(b & Hw) | (err1 & Hw)];
        rewrite Hw in Hrun
  end.
  2:{ apply (Hstop _ Hrun). rewrite !closed_app, Hcl1. reflexivity. }
  unfold pbind at 1, NamespaceMapping_GetPackages at 1 in Hrun.
  unfold pbind at 1 in Hrun.
  match type of Hrun with
  | context [write_packages _ _ _ ?p ?g ?l ?d ?t] =>
      destruct (write_packages os_Create format_Source filepath_Join p g l d t)
        as [res2 tr2] eqn:Hwp;
      destruct (write_packages_run p g l d t res2 tr2 Hwp)
        as (rest & -> & Hcl2 & Hdef)
  end.
  destruct res2 as [deferred |].
  2:{ apply (Hstop _ Hrun). rewrite !closed_app, Hcl1, Hcl2. reflexivity. }
  specialize (Hdef deferred eq_refl).
  set (serverName := filepath_Join [pkgPath; "server" +:+ f_outFile flags]) in *.
  unfold pbind at 1, create at 1 in Hrun. cbv zeta in Hrun.
  match type of Hrun with
  | context [os_Create ?t serverName] =>
      destruct (os_Create t serverName) as [e |] eqn:Hc2
  end.
  { apply (Hstop _ Hrun). rewrite !closed_app, Hcl1, Hcl2. reflexivity. }
  unfold pbind at 1 in Hrun.
  match type of Hrun with
  | context [write_source format_Source serverName ?data ?t] =>
      destruct (write_source_run serverName data t) as [(b2 & Hw2) | (err2 & Hw2)];
        rewrite Hw2 in Hrun
  end.
  2:{ apply (Hstop _ Hrun). rewrite !closed_app, Hcl1, Hcl2. reflexivity. }
  unfold pbind at 1, act at 1 in Hrun.
  rewrite close_all_run in Hrun. injection Hrun as <- <-.
  split; [intros _ | discriminate].
  destruct (closed_map_Close deferred) as [Hcm Hcm'].
  cbn [closed created map].
  rewrite !closed_app, !created_app, Hcl, Hcr, Hcl2.
  cbn [closed created app]. rewrite Hcm, Hcm', !app_nil_r.
  rewrite Hdef. cbn [rev]. rewrite rev_app_distr. reflexivity.
Qed.

End CommandCloses.

(** The command in a directory without the package directory:
    [os.Mkdir] makes it and returns [nil], which is not [fs.ErrExist]. *)
Example main_in_a_fresh_directory :
  sample_main None inl =
  (None, [Mkdir "out/myservice" None; Fatalln_error None]).
Proof. vm_compute. reflexivity. Qed.

(** The command with the package directory in place. *)
Example main_in_an_existing_directory :
  sample_main (Some file_exists) inl =
  (Some tt,
   [ Mkdir "out/myservice" (Some file_exists);
     Create "out/myservice/myservice.go" None;
     Write "out/myservice/myservice.go" "package myservice;type T struct{}";
     Create "out/myservice/servermyservice.go" None;
     Write "out/myservice/servermyservice.go" "package myservice;";
     Println ["Done 👍"];
     Close "out/myservice/servermyservice.go";
     Close "out/myservice/myservice.go" ]).
Proof. vm_compute. reflexivity. Qed.


(** ** Decoding a document, child by child *)

Lemma children_tokens_length (cs : list Child) :
  (List.length cs <= List.length (flat_map child_tokens cs))%nat.
Proof.
  induction cs as [| c cs IH]; [apply le_n |].
  cbn [flat_map List.length]. rewrite length_app.
  destruct c; cbn [child_tokens List.length]; lia.
Qed.

Lemma ct_sequence_added_nil (ct : XSDComplexType) : sequence_added [] ct = ct.
Proof.
  unfold sequence_added. cbn [flat_map]. rewrite !app_nil_r.
  destruct ct; reflexivity.
Qed.

Lemma sequence_added_element (x : XSDElement) (c : SeqChild) (cs : list SeqChild)
    (ct : XSDComplexType) :
  seq_elements c = [x] -> seq_anys c = [] ->
  sequence_added cs (ct_set_Sequence (ct_Sequence ct ++ [x]) ct)
  = sequence_added (c :: cs) ct.
Proof.
  intros He Ha. unfold sequence_added. cbn [flat_map]. rewrite He, Ha.
  destruct ct. cbn. rewrite <- app_assoc. reflexivity.
Qed.

Lemma sequence_added_elements (els : list XSDElement) (c : SeqChild)
    (cs : list SeqChild) (ct : XSDComplexType) :
  seq_elements c = els -> seq_anys c = [] ->
  sequence_added cs (ct_set_Sequence (ct_Sequence ct ++ els) ct)
  = sequence_added (c :: cs) ct.
Proof.
  intros He Ha. unfold sequence_added. cbn [flat_map]. rewrite He, Ha.
  destruct ct. cbn. rewrite <- app_assoc. reflexivity.
Qed.

Lemma sequence_added_any (x : XSDAny) (c : SeqChild) (cs : list SeqChild)
    (ct : XSDComplexType) :
  seq_elements c = [] -> seq_anys c = [x] ->
  sequence_added cs (ct_set_Any (ct_Any ct ++ [x]) ct)
  = sequence_added (c :: cs) ct.
Proof.
  intros He Ha. unfold sequence_added. cbn [flat_map]. rewrite He, Ha.
  destruct ct. cbn. rewrite <- app_assoc. reflexivity.
Qed.

Lemma sequence_added_none (c : SeqChild) (cs : list SeqChild)
    (ct : XSDComplexType) :
  seq_elements c = [] -> seq_anys c = [] ->
  sequence_added cs ct = sequence_added (c :: cs) ct.
Proof.
  intros He Ha. unfold sequence_added. cbn [flat_map]. rewrite He, Ha.
  reflexivity.
Qed.

Section TreeFacts.
Context `{ReflectDecoders}.

Lemma unmarshalSequence_skips (fuel : nat) (start : StartElement)
    (ct : XSDComplexType) (t : StartElement) (body : list Token) (n : Name)
    (rest : list Token) (err : error) :
  nested body -> skipped sequence_children t ->
  unmarshalSequence (S fuel) start ct
    {| d_toks := TStartElement t :: body ++ TEndElement n :: rest; d_err := err |}
  = unmarshalSequence fuel start ct {| d_toks := rest; d_err := err |}.
Proof.
  intros Hb Hskip. cbn [unmarshalSequence Token_ d_toks d_err].
  rewrite (Skip_nested body n rest err Hb). cbn [snd].
  destruct (String.eqb_spec (Space (se_Name t)) xmlschema11) as [Hs | Hs];
    [| reflexivity].
  destruct Hskip as [Hskip | Hskip]; [contradiction |].
  cbn [negb]. unfold sequence_children in Hskip.
  rewrite !(not_in_eqb _ _ _ Hskip) by (simpl; tauto). reflexivity.
Qed.

(** The loop of [unmarshalSequence] over the children of a sequence. *)
Lemma unmarshalSequence_children (err : error) (start : StartElement)
    (cs : list SeqChild) :
  Forall (well_read_seq err) cs ->
  forall fuel ct n rest,
    (List.length (flat_map seq_tokens cs) < fuel)%nat ->
    unmarshalSequence fuel start ct
      {| d_toks := flat_map seq_tokens cs ++ TEndElement n :: rest;
         d_err := err |}
    = Ok (sequence_added cs ct, {| d_toks := rest; d_err := err |}).
Proof.
  induction 1 as [| c cs Hc _ IH]; intros fuel ct n rest Hfuel.
  - destruct fuel as [| fuel]; [simpl in Hfuel; lia |].
    cbn. rewrite ct_sequence_added_nil. reflexivity.
  - destruct fuel as [| fuel]; [simpl in Hfuel; lia |].
    cbn [flat_map] in Hfuel. rewrite length_app in Hfuel.
    destruct c as [t toks x | t cs' m | t toks x | t body m | tok].
    + destruct Hc as (Hspace & Hlocal & Hdec).
      cbn [seq_tokens List.length] in Hfuel.
      cbn [flat_map seq_tokens app unmarshalSequence Token_ d_toks d_err].
      rewrite Hspace, String.eqb_refl, Hlocal. cbn [negb String.eqb Ascii.eqb
        Bool.eqb andb].
      rewrite <- app_assoc, Hdec. unfold unread. cbn [d_err].
      rewrite IH by lia.
      rewrite (sequence_added_element x (SeqElement t toks x)); reflexivity.
    + destruct Hc as (Hspace & Hlocal & Hcs').
      cbn [seq_tokens List.length] in Hfuel. rewrite length_app in Hfuel.
      cbn [List.length] in Hfuel.
      pose proof (children_tokens_length cs') as Hlen.
      cbn [flat_map seq_tokens app unmarshalSequence Token_ d_toks d_err].
      rewrite Hspace, String.eqb_refl, Hlocal. cbn [negb String.eqb Ascii.eqb
        Bool.eqb andb].
      rewrite <- !app_assoc. cbn [app].
      rewrite (unmarshalChoice_well_read fuel t cs' m _ err Hlocal Hcs') by lia.
      rewrite IH by lia.
      rewrite (sequence_added_elements (choice_elements t cs')
                 (SeqChoice t cs' m)); reflexivity.
    + destruct Hc as (Hspace & Hlocal & Hdec).
      cbn [seq_tokens List.length] in Hfuel.
      cbn [flat_map seq_tokens app unmarshalSequence Token_ d_toks d_err].
      rewrite Hspace, String.eqb_refl, Hlocal. cbn [negb String.eqb Ascii.eqb
        Bool.eqb andb].
      rewrite <- app_assoc, Hdec. unfold unread. cbn [d_err].
      rewrite IH by lia.
      rewrite (sequence_added_any x (SeqAny t toks x)); reflexivity.
    + destruct Hc as (Hskip & Hbody).
      cbn [seq_tokens List.length] in Hfuel. rewrite length_app in Hfuel.
      cbn [flat_map seq_tokens app]. rewrite <- !app_assoc. cbn [app].
      rewrite unmarshalSequence_skips by assumption.
      rewrite IH by lia.
      rewrite (sequence_added_none (SeqOther t body m)); reflexivity.
    + cbn [seq_tokens List.length] in Hfuel. cbn in Hc.
      cbn [flat_map seq_tokens app unmarshalSequence Token_ d_toks d_err].
      destruct tok; try discriminate Hc; rewrite IH by lia;
        match goal with
        | |- context [SeqPlain ?k] =>
            rewrite (sequence_added_none (SeqPlain k)); reflexivity
        end.
Qed.

Lemma seq_tokens_length (cs : list SeqChild) (n : Name) (rest : list Token) :
  List.length (flat_map seq_tokens cs ++ TEndElement n :: rest)
  = S (List.length (flat_map seq_tokens cs) + List.length rest).
Proof. rewrite length_app. cbn [List.length]. lia. Qed.

(** The loop of [XSDComplexType.UnmarshalXML] over the children of a
    complex type. *)
Lemma complexType_loop_children (err : error) (start : StartElement)
    (cs : list TypeChild) :
  Forall (well_read_type err) cs ->
  forall fuel ct n rest,
    (List.length (flat_map type_tokens cs) < fuel)%nat ->
    complexType_loop fuel start ct
      {| d_toks := flat_map type_tokens cs ++ TEndElement n :: rest;
         d_err := err |}
    = Ok (fold_left type_added cs ct, {| d_toks := rest; d_err := err |}).
Proof.
  induction 1 as [| c cs Hc _ IH]; intros fuel ct n rest Hfuel.
  - destruct fuel as [| fuel]; [simpl in Hfuel; lia | reflexivity].
  - destruct fuel as [| fuel]; [simpl in Hfuel; lia |].
    cbn [flat_map] in Hfuel. rewrite length_app in Hfuel.
    cbn [fold_left].
    destruct c as [t toks x | t cs' m | t cs' m | t toks x | t toks x
                  | t body m | tok].
    + destruct Hc as (Hspace & Hlocal & Hdec).
      cbn [type_tokens List.length] in Hfuel.
      cbn [flat_map type_tokens app complexType_loop Token_ d_toks d_err].
      rewrite Hspace, String.eqb_refl, Hlocal. cbn [negb String.eqb Ascii.eqb
        Bool.eqb andb].
      rewrite <- app_assoc, Hdec. unfold unread. cbn [d_err].
      rewrite IH by lia. reflexivity.
    + destruct Hc as (Hspace & Hlocal & Hcs').
      cbn [type_tokens List.length] in Hfuel. rewrite length_app in Hfuel.
      cbn [List.length] in Hfuel.
      cbn [flat_map type_tokens app complexType_loop Token_ d_toks d_err].
      rewrite Hspace, String.eqb_refl, Hlocal. cbn [negb String.eqb Ascii.eqb
        Bool.eqb andb].
      rewrite <- !app_assoc. cbn [app].
      rewrite (unmarshalSequence_children err t cs' Hcs') by lia.
      rewrite IH by lia. reflexivity.
    + destruct Hc as (Hspace & Hlocal & Hcs').
      cbn [type_tokens List.length] in Hfuel. rewrite length_app in Hfuel.
      cbn [List.length] in Hfuel.
      pose proof (children_tokens_length cs') as Hlen.
      cbn [flat_map type_tokens app complexType_loop Token_ d_toks d_err].
      rewrite Hspace, String.eqb_refl, Hlocal. cbn [negb String.eqb Ascii.eqb
        Bool.eqb andb].
      rewrite <- !app_assoc. cbn [app].
      rewrite (unmarshalChoice_well_read fuel t cs' m _ err Hlocal Hcs') by lia.
      rewrite IH by lia. reflexivity.
    + destruct Hc as (Hspace & Hlocal & Hdec).
      cbn [type_tokens List.length] in Hfuel.
      cbn [flat_map type_tokens app complexType_loop Token_ d_toks d_err].
      rewrite Hspace, String.eqb_refl, Hlocal. cbn [negb String.eqb Ascii.eqb
        Bool.eqb andb].
      rewrite <- app_assoc, Hdec. unfold unread. cbn [d_err].
      rewrite IH by lia. reflexivity.
    + destruct Hc as (Hspace & Hlocal & Hdec).
      cbn [type_tokens List.length] in Hfuel.
      cbn [flat_map type_tokens app complexType_loop Token_ d_toks d_err].
      rewrite Hspace, String.eqb_refl, Hlocal. cbn [negb String.eqb Ascii.eqb
        Bool.eqb andb].
      rewrite <- app_assoc, Hdec. unfold unread. cbn [d_err].
      rewrite IH by lia. reflexivity.
    + destruct Hc as (Hskip & Hbody).
      cbn [type_tokens List.length] in Hfuel. rewrite length_app in Hfuel.
      cbn [flat_map type_tokens app]. rewrite <- !app_assoc. cbn [app].
      rewrite complexType_loop_skips by assumption.
      rewrite IH by lia. reflexivity.
    + cbn [type_tokens List.length] in Hfuel. cbn in Hc.
      cbn [flat_map type_tokens app complexType_loop Token_ d_toks d_err].
      destruct tok; try discriminate Hc; rewrite IH by lia; reflexivity.
Qed.

(** The loop of [XSDSchema.UnmarshalXML] over the children of a schema. *)
Lemma schema_loop_children (err : error) (cs : list SchemaChild) :
  Forall (well_read_schema err) cs ->
  forall fuel s n rest,
    (List.length (flat_map schema_tokens cs) < fuel)%nat ->
    schema_loop fuel s
      {| d_toks := flat_map schema_tokens cs ++ TEndElement n :: rest;
         d_err := err |}
    = Ok (fold_left schema_added cs s, {| d_toks := rest; d_err := err |}).
Proof.
  induction 1 as [| c cs Hc _ IH]; intros fuel s n rest Hfuel.
  - destruct fuel as [| fuel]; [simpl in Hfuel; lia | reflexivity].
  - destruct fuel as [| fuel]; [simpl in Hfuel; lia |].
    cbn [flat_map] in Hfuel. rewrite length_app in Hfuel.
    cbn [fold_left].
    destruct c as [t toks x | t toks x | t toks x | t toks x | t cs' m
                  | t toks x | t body m | tok].
    1-4, 6:
      destruct Hc as (Hspace & Hlocal & Hdec);
      cbn [schema_tokens List.length] in Hfuel;
      cbn [flat_map schema_tokens app schema_loop Token_ d_toks d_err];
      rewrite Hspace, String.eqb_refl, Hlocal;
      cbn [negb String.eqb Ascii.eqb Bool.eqb andb];
      rewrite <- app_assoc, Hdec; unfold unread; cbn [d_err];
      rewrite IH by lia; reflexivity.
    + destruct Hc as (Hspace & Hlocal & Hcs').
      cbn [schema_tokens List.length] in Hfuel. rewrite length_app in Hfuel.
      cbn [List.length] in Hfuel.
      cbn [flat_map schema_tokens app schema_loop Token_ d_toks d_err].
      rewrite Hspace, String.eqb_refl, Hlocal. cbn [negb String.eqb Ascii.eqb
        Bool.eqb andb].
      rewrite <- !app_assoc. cbn [app].
      unfold DecodeElement_XSDComplexType, XSDComplexType_UnmarshalXML.
      rewrite (complexType_loop_children err t cs' Hcs') by lia.
      rewrite IH by lia. reflexivity.
    + destruct Hc as (Hskip & Hbody).
      cbn [schema_tokens List.length] in Hfuel. rewrite length_app in Hfuel.
      cbn [flat_map schema_tokens app]. rewrite <- !app_assoc. cbn [app].
      rewrite schema_loop_skips by assumption.
      rewrite IH by lia. reflexivity.
    + cbn [schema_tokens List.length] in Hfuel. cbn in Hc.
      cbn [flat_map schema_tokens app schema_loop Token_ d_toks d_err].
      destruct tok; try discriminate Hc; rewrite IH by lia; reflexivity.
Qed.

(** [xml.Unmarshal] passes what stands before the first start element. *)
Lemma Unmarshal_XSDSchema_from_prolog (fuel : nat) (prolog toks : list Token)
    (err : error) :
  forallb not_start prolog = true ->
  Unmarshal_XSDSchema_from fuel (prolog ++ toks) err
  = Unmarshal_XSDSchema_from fuel toks err.
Proof.
  induction prolog as [| tok prolog IH]; intros Hp; [reflexivity |].
  cbn [forallb] in Hp. apply andb_true_iff in Hp. destruct Hp as [Htok Hp].
  destruct tok; try discriminate Htok; cbn [app Unmarshal_XSDSchema_from];
    apply IH, Hp.
Qed.

End TreeFacts.

(** *** What the children leave in the complex type and in the schema *)

Lemma fold_type_added (cs : list TypeChild) (ct : XSDComplexType) :
  let ct' := fold_left type_added cs ct in
  ct_XMLName ct' = ct_XMLName ct /\ ct_Abstract ct' = ct_Abstract ct /\
  ct_Name ct' = ct_Name ct /\ ct_Mixed ct' = ct_Mixed ct /\
  ct_All ct' = ct_All ct /\
  ct_Attributes ct' = ct_Attributes ct ++ flat_map type_attributes cs /\
  ct_Sequence ct' = ct_Sequence ct ++ flat_map type_sequence cs /\
  ct_Any ct' = ct_Any ct ++ flat_map type_anys cs /\
  ct_Choice ct' = ct_Choice ct ++ flat_map type_choice cs /\
  ct_ComplexContent ct' = type_complexContent cs (ct_ComplexContent ct) /\
  ct_SimpleContent ct' = type_simpleContent cs (ct_SimpleContent ct).
Proof.
  cbv zeta. revert ct. induction cs as [| c cs IH]; intros ct.
  - cbn [fold_left flat_map type_complexContent type_simpleContent].
    rewrite !app_nil_r. repeat split; reflexivity.
  - cbn [fold_left flat_map]. unfold type_complexContent, type_simpleContent.
    cbn [fold_left].
    destruct (IH (type_added ct c))
      as (H1 & H2 & H3 & H4 & H5 & H6 & H7 & H8 & H9 & H10 & H11).
    rewrite H1, H2, H3, H4, H5, H6, H7, H8, H9, H10, H11.
    unfold type_complexContent, type_simpleContent.
    destruct c; cbn; rewrite ?app_nil_r, <- ?app_assoc;
      repeat split; reflexivity.
Qed.

Lemma fold_schema_added (cs : list SchemaChild) (s : XSDSchema) :
  let s' := fold_left schema_added cs s in
  XMLName s' = XMLName s /\ Xmlns s' = Xmlns s /\ Tns s' = Tns s /\
  Xs s' = Xs s /\ Version s' = Version s /\
  TargetNamespace s' = TargetNamespace s /\
  ElementFormDefault s' = ElementFormDefault s /\
  Includes s' = Includes s ++ flat_map schema_includes cs /\
  Imports s' = Imports s ++ flat_map schema_imports cs /\
  Elements s' = Elements s ++ flat_map schema_elements cs /\
  Attributes s' = Attributes s ++ flat_map schema_attributes cs /\
  ComplexTypes s' = ComplexTypes s ++ flat_map schema_complexTypes cs /\
  SimpleType s' = SimpleType s ++ flat_map schema_simpleTypes cs.
Proof.
  cbv zeta. revert s. induction cs as [| c cs IH]; intros s.
  - cbn [fold_left flat_map]. rewrite !app_nil_r. repeat split; reflexivity.
  - cbn [fold_left flat_map].
    destruct (IH (schema_added s c))
      as (H1 & H2 & H3 & H4 & H5 & H6 & H7 & H8 & H9 & H10 & H11 & H12 & H13).
    rewrite H1, H2, H3, H4, H5, H6, H7, H8, H9, H10, H11, H12, H13.
    destruct c; cbn; rewrite ?app_nil_r, <- ?app_assoc;
      repeat split; reflexivity.
Qed.

Lemma fold_complexType_attr (attrs : list Attr) (ct : XSDComplexType) :
  let ct' := fold_left complexType_attr attrs ct in
  ct_XMLName ct' = ct_XMLName ct /\
  ct_Name ct'
  = fold_left (fun v a => if String.eqb (Local (attr_Name a)) "name"
                          then attr_Value a else v) attrs (ct_Name ct) /\
  ct_Mixed ct'
  = fold_left (fun v a => if String.eqb (Local (attr_Name a)) "mixed"
                          then String.eqb (attr_Value a) "true" else v)
      attrs (ct_Mixed ct) /\
  ct_Abstract ct'
  = fold_left (fun v a => if String.eqb (Local (attr_Name a)) "abstract"
                          then String.eqb (attr_Value a) "true" else v)
      attrs (ct_Abstract ct) /\
  ct_Sequence ct' = ct_Sequence ct /\ ct_Choice ct' = ct_Choice ct /\
  ct_All ct' = ct_All ct /\ ct_Attributes ct' = ct_Attributes ct /\
  ct_Any ct' = ct_Any ct /\ ct_ComplexContent ct' = ct_ComplexContent ct /\
  ct_SimpleContent ct' = ct_SimpleContent ct.
Proof.
  cbv zeta. revert ct. induction attrs as [| a attrs IH]; intros ct.
  - repeat split; reflexivity.
  - cbn [fold_left].
    destruct (IH (complexType_attr ct a))
      as (H1 & H2 & H3 & H4 & H5 & H6 & H7 & H8 & H9 & H10 & H11).
    rewrite H1, H2, H3, H4, H5, H6, H7, H8, H9, H10, H11.
    unfold complexType_attr.
    destruct (String.eqb_spec (Local (attr_Name a)) "mixed") as [E | _];
      [rewrite ?E; cbn; repeat split; reflexivity |].
    destruct (String.eqb_spec (Local (attr_Name a)) "name") as [E | _];
      [rewrite ?E; cbn; repeat split; reflexivity |].
    destruct (String.eqb_spec (Local (attr_Name a)) "abstract") as [E | _];
      [rewrite ?E; cbn; repeat split; reflexivity |].
    repeat split; reflexivity.
Qed.

Lemma fold_is_true (local : string) (attrs : list Attr) (v : string) :
  fold_left (fun b a => if String.eqb (Local (attr_Name a)) local
                        then String.eqb (attr_Value a) "true" else b)
    attrs (String.eqb v "true")
  = String.eqb
      (fold_left (fun v a => if String.eqb (Local (attr_Name a)) local
                             then attr_Value a else v) attrs v)
      "true".
Proof.
  revert v. induction attrs as [| a attrs IH]; intros v; [reflexivity |].
  cbn [fold_left]. destruct (String.eqb (Local (attr_Name a)) local); apply IH.
Qed.

Section TreeTheorems.
Context `{ReflectDecoders}.

(** X12. A sequence is read into two lists.  For children that decode
    well, [unmarshalSequence] appends the elements, those of a choice
    among them, to [Sequence], and the wildcards to [Any], each list in
    the order of the document, and changes no other field.  Where a
    wildcard stood among the elements is not kept: two sequences with
    the same elements and the same wildcards, each in the same order,
    leave the same complex type. *)
Theorem sequence_elements_and_wildcards (fuel : nat) (start : StartElement)
    (ct : XSDComplexType) (cs : list SeqChild) (n : Name) (rest : list Token)
    (err : error)
    (Hcs : Forall (well_read_seq err) cs)
    (Hfuel : (List.length (flat_map seq_tokens cs) < fuel)%nat) :
  exists ct',
    unmarshalSequence fuel start ct
      {| d_toks := flat_map seq_tokens cs ++ TEndElement n :: rest;
         d_err := err |}
    = Ok (ct', {| d_toks := rest; d_err := err |}) /\
    ct_Sequence ct' = ct_Sequence ct ++ flat_map seq_elements cs /\
    ct_Any ct' = ct_Any ct ++ flat_map seq_anys cs /\
    ct' = ct_set_Any (ct_Any ct') (ct_set_Sequence (ct_Sequence ct') ct) /\
    forall cs' n',
      Forall (well_read_seq err) cs' ->
      (List.length (flat_map seq_tokens cs') < fuel)%nat ->
      flat_map seq_elements cs' = flat_map seq_elements cs ->
      flat_map seq_anys cs' = flat_map seq_anys cs ->
      unmarshalSequence fuel start ct
        {| d_toks := flat_map seq_tokens cs' ++ TEndElement n' :: rest;
           d_err := err |}
      = Ok (ct', {| d_toks := rest; d_err := err |}).
Proof.
  exists (sequence_added cs ct).
  split; [apply unmarshalSequence_children; assumption |].
  split; [reflexivity |]. split; [reflexivity |].
  split; [destruct ct; reflexivity |].
  intros cs' n' Hcs' Hfuel' He Ha.
  rewrite (unmarshalSequence_children err start cs' Hcs') by assumption.
  unfold sequence_added. rewrite He, Ha. reflexivity.
Qed.

(** X13. A complex type is decoded child by child.  For children that
    decode well, [DecodeElement] on a [complexType] element returns the
    type with the name of the element and its attributes [name],
    [mixed] and [abstract] (the last two true only for the text
    "true"), the attributes, the elements of all its sequences, their
    wildcards and the elements of its choices, each list in the order
    of the document, and the last [complexContent] and [simpleContent];
    [All] stays empty. *)
Theorem complexType_decoded_by_children (fuel : nat) (t : StartElement)
    (cs : list TypeChild) (n : Name) (rest : list Token) (err : error)
    (Hcs : Forall (well_read_type err) cs)
    (Hfuel : (List.length (flat_map type_tokens cs) < fuel)%nat) :
  let ct := complexType_of t cs in
  DecodeElement_XSDComplexType fuel t
    {| d_toks := flat_map type_tokens cs ++ TEndElement n :: rest;
       d_err := err |}
  = Ok (ct, {| d_toks := rest; d_err := err |}) /\
  ct_XMLName ct = se_Name t /\
  ct_Name ct = attr_of (se_Attr t) "name" /\
  ct_Mixed ct = String.eqb (attr_of (se_Attr t) "mixed") "true" /\
  ct_Abstract ct = String.eqb (attr_of (se_Attr t) "abstract") "true" /\
  ct_Attributes ct = flat_map type_attributes cs /\
  ct_Sequence ct = flat_map type_sequence cs /\
  ct_Any ct = flat_map type_anys cs /\
  ct_Choice ct = flat_map type_choice cs /\
  ct_All ct = [] /\
  ct_ComplexContent ct
  = type_complexContent cs (ct_ComplexContent new_XSDComplexType) /\
  ct_SimpleContent ct
  = type_simpleContent cs (ct_SimpleContent new_XSDComplexType).
Proof.
  cbv zeta. split.
  { unfold DecodeElement_XSDComplexType, XSDComplexType_UnmarshalXML.
    apply complexType_loop_children; assumption. }
  unfold complexType_of.
  destruct (fold_type_added cs
              (fold_left complexType_attr (se_Attr t)
                 (ct_set_XMLName (se_Name t) new_XSDComplexType)))
    as (H1 & H2 & H3 & H4 & H5 & H6 & H7 & H8 & H9 & H10 & H11).
  destruct (fold_complexType_attr (se_Attr t)
              (ct_set_XMLName (se_Name t) new_XSDComplexType))
    as (A1 & A2 & A3 & A4 & A5 & A6 & A7 & A8 & A9 & A10 & A11).
  rewrite H1, H2, H3, H4, H5, H6, H7, H8, H9, H10, H11.
  rewrite A1, A2, A3, A4, A5, A6, A7, A8, A9, A10, A11.
  cbn [ct_set_XMLName new_XSDComplexType ct_XMLName ct_Name ct_Mixed
       ct_Abstract ct_Sequence ct_Choice ct_All ct_Attributes ct_Any
       ct_ComplexContent ct_SimpleContent app].
  change false with (String.eqb "" "true"). rewrite !fold_is_true.
  repeat split; reflexivity.
Qed.

(** X14. A schema document is decoded child by child.  [xml.Unmarshal]
    passes what stands before the first start element, hands that
    element to [UnmarshalXML], and does not read past its end element.
    For children that decode well the result has the includes, the
    imports, the elements, the attributes, the complex types and the
    simple types of the document, each list in the order of the
    document, whatever other children stand between them. *)
Theorem schema_decoded_by_children (prolog : list Token) (t : StartElement)
    (cs : list SchemaChild) (n : Name) (rest : list Token) (err : error)
    (Hprolog : forallb not_start prolog = true)
    (Hcs : Forall (well_read_schema err) cs) :
  let s := schema_of t cs in
  xml_Unmarshal_XSDSchema
    {| d_toks := prolog ++ TStartElement t
                 :: flat_map schema_tokens cs ++ TEndElement n :: rest;
       d_err := err |}
  = Ok s /\
  Includes s = flat_map schema_includes cs /\
  Imports s = flat_map schema_imports cs /\
  Elements s = flat_map schema_elements cs /\
  Attributes s = flat_map schema_attributes cs /\
  ComplexTypes s = flat_map schema_complexTypes cs /\
  SimpleType s = flat_map schema_simpleTypes cs.
Proof.
  cbv zeta. split.
  { unfold xml_Unmarshal_XSDSchema. cbn [d_toks d_err].
    rewrite Unmarshal_XSDSchema_from_prolog by assumption.
    cbn [Unmarshal_XSDSchema_from]. unfold XSDSchema_UnmarshalXML.
    rewrite (schema_loop_children err cs Hcs); [reflexivity |].
    rewrite !length_app. cbn [List.length]. rewrite length_app.
    cbn [List.length]. lia. }
  unfold schema_of.
  destruct (fold_schema_added cs
              (fold_left schema_attr (se_Attr t)
                 (set_XMLName (se_Name t) (set_Xmlns ∅ new_XSDSchema))))
    as (_ & _ & _ & _ & _ & _ & _ & H8 & H9 & H10 & H11 & H12 & H13).
  rewrite H8, H9, H10, H11, H12, H13.
  assert (Hattrs : forall attrs s,
            Includes (fold_left schema_attr attrs s) = Includes s /\
            Imports (fold_left schema_attr attrs s) = Imports s /\
            Elements (fold_left schema_attr attrs s) = Elements s /\
            Attributes (fold_left schema_attr attrs s) = Attributes s /\
            ComplexTypes (fold_left schema_attr attrs s) = ComplexTypes s /\
            SimpleType (fold_left schema_attr attrs s) = SimpleType s).
  { induction attrs as [| a attrs IH]; intros s; [repeat split; reflexivity |].
    cbn [fold_left].
    destruct (IH (schema_attr s a)) as (I1 & I2 & I3 & I4 & I5 & I6).
    rewrite I1, I2, I3, I4, I5, I6. unfold schema_attr.
    repeat match goal with
           | |- context [if ?b then _ else _] => destruct b
           end; repeat split; reflexivity. }
  destruct (Hattrs (se_Attr t)
              (set_XMLName (se_Name t) (set_Xmlns ∅ new_XSDSchema)))
    as (I1 & I2 & I3 & I4 & I5 & I6).
  rewrite I1, I2, I3, I4, I5, I6. repeat split; reflexivity.
Qed.

End TreeTheorems.

(** *** What [UnmarshalXML] takes from the attributes of [schema] *)

Lemma extends_list_refl {A} (l : list A) : extends_list l l.
Proof. exists []. symmetry. apply app_nil_r. Qed.

Lemma extends_list_trans {A} (l1 l2 l3 : list A) :
  extends_list l1 l2 -> extends_list l2 l3 -> extends_list l1 l3.
Proof.
  intros [m1 ->] [m2 ->]. exists (m1 ++ m2). symmetry. apply app_assoc.
Qed.

Lemma extends_list_snoc {A} (l : list A) (x : A) : extends_list l (l ++ [x]).
Proof. exists [x]. reflexivity. Qed.

Lemma schema_grown_refl (s : XSDSchema) : schema_grown s s.
Proof. unfold schema_grown. repeat split; apply extends_list_refl. Qed.

Lemma schema_grown_trans (s1 s2 s3 : XSDSchema) :
  schema_grown s1 s2 -> schema_grown s2 s3 -> schema_grown s1 s3.
Proof.
  unfold schema_grown.
  intros (A1 & A2 & A3 & A4 & A5 & A6 & A7 & A8 & A9 & A10 & A11 & A12 & A13)
         (B1 & B2 & B3 & B4 & B5 & B6 & B7 & B8 & B9 & B10 & B11 & B12 & B13).
  repeat split; try congruence; eapply extends_list_trans; eassumption.
Qed.

Ltac grown_step IH Hrun :=
  eapply schema_grown_trans; [| exact (IH _ _ _ _ Hrun)];
  unfold schema_grown; cbn;
  repeat split; first [apply extends_list_refl | apply extends_list_snoc].

Lemma xmlns_decl_from (attrs : list Attr) (p : string) (init : option string) :
  fold_left
    (fun (v : option string) a =>
       if String.eqb (Space (attr_Name a)) "xmlns"
          && String.eqb (Local (attr_Name a)) p
       then Some (attr_Value a) else v) attrs init
  = match xmlns_decl attrs p with
    | Some w => Some w
    | None => init
    end.
Proof.
  unfold xmlns_decl. revert init.
  induction attrs as [| b l IH]; intros init; [reflexivity |].
  cbn [fold_left]. rewrite IH. symmetry. rewrite IH.
  destruct (fold_left _ l None); [reflexivity |].
  destruct (String.eqb (Space (attr_Name b)) "xmlns"
            && String.eqb (Local (attr_Name b)) p); reflexivity.
Qed.

Lemma schema_attr_fold (attrs : list Attr) (s : XSDSchema) :
  let s' := fold_left schema_attr attrs s in
  XMLName s' = XMLName s /\ Tns s' = Tns s /\ Xs s' = Xs s /\
  (forall p, Xmlns s' !! p
             = match xmlns_decl attrs p with
               | Some v => Some v
               | None => Xmlns s !! p
               end) /\
  Version s' = schema_attribute attrs "version" (Version s) /\
  TargetNamespace s'
  = schema_attribute attrs "targetNamespace" (TargetNamespace s) /\
  ElementFormDefault s'
  = schema_attribute attrs "elementFormDefault" (ElementFormDefault s) /\
  Includes s' = Includes s /\ Imports s' = Imports s /\
  Elements s' = Elements s /\ Attributes s' = Attributes s /\
  ComplexTypes s' = ComplexTypes s /\ SimpleType s' = SimpleType s.
Proof.
  cbv zeta. unfold xmlns_decl, schema_attribute.
  revert s. induction attrs as [| a attrs IH]; intros s.
  - cbn [fold_left]. repeat split; reflexivity.
  - cbn [fold_left].
    destruct (IH (schema_attr s a))
      as (H1 & H2 & H3 & H4 & H5 & H6 & H7 & H8 & H9 & H10 & H11 & H12 & H13).
    rewrite H1, H2, H3, H5, H6, H7, H8, H9, H10, H11, H12, H13.
    revert H4. unfold schema_attr.
    destruct (String.eqb (Space (attr_Name a)) "xmlns") eqn:Ex; intros H4.
    + cbn. repeat split; try reflexivity.
      intros p. rewrite H4. cbn.
      rewrite (xmlns_decl_from attrs p
                 (if String.eqb (Local (attr_Name a)) p
                  then Some (attr_Value a) else None)).
      unfold xmlns_decl.
      destruct (fold_left _ attrs None); [reflexivity |].
      destruct (String.eqb_spec (Local (attr_Name a)) p) as [-> | Hne].
      * apply lookup_insert_eq.
      * rewrite lookup_insert_ne by exact Hne. reflexivity.
    + cbn [negb andb].
      destruct (String.eqb (Local (attr_Name a)) "version") eqn:E1;
        [apply String.eqb_eq in E1; rewrite ?E1; cbn; repeat split;
         try reflexivity; intros p; apply H4 |].
      destruct (String.eqb (Local (attr_Name a)) "targetNamespace") eqn:E2;
        [apply String.eqb_eq in E2; rewrite ?E2; cbn; repeat split;
         try reflexivity; intros p; apply H4 |].
      destruct (String.eqb (Local (attr_Name a)) "elementFormDefault") eqn:E3;
        [apply String.eqb_eq in E3; rewrite ?E3; cbn; repeat split;
         try reflexivity; intros p; apply H4 |].
      repeat split; try reflexivity. intros p; apply H4.
Qed.

Section SchemaAttributes.
Context `{ReflectDecoders}.

Lemma schema_loop_grows (fuel : nat) :
  forall s d s' d',
    schema_loop fuel s d = Ok (s', d') -> schema_grown s s'.
Proof.
  induction fuel as [| fuel IH]; intros s d s' d' Hrun; [discriminate |].
  cbn [schema_loop] in Hrun.
  destruct (Token_ d) as [[tok d1] | e |]; try discriminate.
  destruct tok as [t | n | | | |]; try (exact (IH _ _ _ _ Hrun)).
  - destruct (negb (String.eqb (Space (se_Name t)) xmlschema11));
      [exact (IH _ _ _ _ Hrun) |].
    destruct (String.eqb (Local (se_Name t)) "include").
    { destruct (decode_XSDInclude t d1) as [[x r] | e |]; try discriminate.
      grown_step IH Hrun. }
    destruct (String.eqb (Local (se_Name t)) "import").
    { destruct (decode_XSDImport t d1) as [[x r] | e |]; try discriminate.
      grown_step IH Hrun. }
    destruct (String.eqb (Local (se_Name t)) "element").
    { destruct (decode_XSDElement t d1) as [[x r] | e |]; try discriminate.
      grown_step IH Hrun. }
    destruct (String.eqb (Local (se_Name t)) "attribute").
    { destruct (decode_XSDAttribute t d1) as [[x r] | e |]; try discriminate.
      grown_step IH Hrun. }
    destruct (String.eqb (Local (se_Name t)) "complexType").
    { destruct (DecodeElement_XSDComplexType fuel t d1) as [[x r] | e |];
        try discriminate.
      grown_step IH Hrun. }
    destruct (String.eqb (Local (se_Name t)) "simpleType").
    { destruct (decode_XSDSimpleType t d1) as [[x r] | e |]; try discriminate.
      grown_step IH Hrun. }
    exact (IH _ _ _ _ Hrun).
  - injection Hrun as <- _. apply schema_grown_refl.
Qed.

(** X15. What a decoded schema has of its start element.  Whenever
    [UnmarshalXML] returns without error, whatever the children were,
    the schema has the name of the start element; its [Xmlns] holds
    exactly the prefixes declared by the attributes [xmlns:prefix], each
    with the value of the last such attribute, and nothing of what the
    map held before (the default name space, the attribute [xmlns]
    without a prefix, is not among them); [Version], [TargetNamespace]
    and [ElementFormDefault] are the values of the last attributes of
    these local names outside [xmlns:], or what the schema had when
    there is none; and the six lists go on from what the schema had. *)
Theorem schema_attributes_read (fuel : nat) (s s' : XSDSchema)
    (start : StartElement) (d d' : Decoder)
    (Hrun : XSDSchema_UnmarshalXML fuel s start d = Ok (s', d')) :
  XMLName s' = se_Name start /\
  (forall p, Xmlns s' !! p = xmlns_decl (se_Attr start) p) /\
  Version s' = schema_attribute (se_Attr start) "version" (Version s) /\
  TargetNamespace s'
  = schema_attribute (se_Attr start) "targetNamespace" (TargetNamespace s) /\
  ElementFormDefault s'
  = schema_attribute (se_Attr start) "elementFormDefault"
      (ElementFormDefault s) /\
  Tns s' = Tns s /\ Xs s' = Xs s /\
  extends_list (Includes s) (Includes s') /\
  extends_list (Imports s) (Imports s') /\
  extends_list (Elements s) (Elements s') /\
  extends_list (Attributes s) (Attributes s') /\
  extends_list (ComplexTypes s) (ComplexTypes s') /\
  extends_list (SimpleType s) (SimpleType s').
Proof.
  unfold XSDSchema_UnmarshalXML in Hrun. cbv zeta in Hrun.
  apply schema_loop_grows in Hrun.
  destruct Hrun
    as (G1 & G2 & G3 & G4 & G5 & G6 & G7 & G8 & G9 & G10 & G11 & G12 & G13).
  destruct (schema_attr_fold (se_Attr start)
              (set_XMLName (se_Name start) (set_Xmlns ∅ s)))
    as (H1 & H2 & H3 & H4 & H5 & H6 & H7 & H8 & H9 & H10 & H11 & H12 & H13).
  rewrite H8 in G8. rewrite H9 in G9. rewrite H10 in G10.
  rewrite H11 in G11. rewrite H12 in G12. rewrite H13 in G13.
  rewrite G1, G2, G3, G4, G5, G6, G7, H1, H2, H3, H5, H6, H7.
  split; [reflexivity |].
  split.
  { intros p. rewrite H4. cbn.
    destruct (xmlns_decl (se_Attr start) p); [reflexivity |].
    apply lookup_empty. }
  repeat split; assumption.
Qed.

End SchemaAttributes.

(** *** The decoders on the sample documents *)

Lemma sample_sequence_well_read :
  Forall (well_read_seq (H := leaf_decoders) io_EOF) sample_sequence.
Proof.
  repeat (apply Forall_cons_2;
          [cbn; repeat split; try reflexivity; intros rest; reflexivity |]).
  apply Forall_nil_2.
Qed.

Lemma sample_type_well_read :
  Forall (well_read_type (H := leaf_decoders) io_EOF) sample_type_children.
Proof.
  apply Forall_cons_2;
    [cbn; repeat split; try reflexivity; exact sample_sequence_well_read |].
  repeat (apply Forall_cons_2;
          [cbn; repeat split; try reflexivity; intros rest; reflexivity |]).
  apply Forall_nil_2.
Qed.

Lemma sample_schema_well_read :
  Forall (well_read_schema (H := leaf_decoders) io_EOF) sample_schema_children.
Proof.
  apply Forall_cons_2;
    [cbn; repeat split; try reflexivity; intros rest; reflexivity |].
  apply Forall_cons_2;
    [cbn; repeat split; try reflexivity; exact sample_type_well_read |].
  repeat (apply Forall_cons_2;
          [cbn; repeat split; try reflexivity; intros rest; reflexivity |]).
  apply Forall_nil_2.
Qed.

Lemma sequence_elements_and_wildcards_witness :
  Forall (well_read_seq (H := leaf_decoders) io_EOF) sample_sequence /\
  exists ct',
    unmarshalSequence (H := leaf_decoders) 7 (open_xs "sequence" [])
      new_XSDComplexType
      {| d_toks := flat_map seq_tokens sample_sequence
                   ++ [TEndElement (xs "sequence")];
         d_err := io_EOF |}
    = Ok (ct', {| d_toks := []; d_err := io_EOF |}) /\
    ct_Sequence ct' = [sample_b; sample_c] /\
    ct_Any ct' = [sample_any] /\
    unmarshalSequence (H := leaf_decoders) 7 (open_xs "sequence" [])
      new_XSDComplexType
      {| d_toks := flat_map seq_tokens [seq_any; seq_b; seq_c]
                   ++ [TEndElement (xs "sequence")];
         d_err := io_EOF |}
    = Ok (ct', {| d_toks := []; d_err := io_EOF |}).
Proof.
  split; [exact sample_sequence_well_read |].
  destruct (sequence_elements_and_wildcards (H := leaf_decoders) 7
              (open_xs "sequence" []) new_XSDComplexType sample_sequence
              (xs "sequence") [] io_EOF sample_sequence_well_read
              ltac:(simpl; lia))
    as (ct' & Hrun & Hs & Ha & _ & Hsame).
  exists ct'. split; [exact Hrun |]. split; [exact Hs |]. split; [exact Ha |].
  apply Hsame; [| simpl; lia | reflexivity | reflexivity].
  repeat (apply Forall_cons_2;
          [cbn; repeat split; try reflexivity; intros rest; reflexivity |]).
  apply Forall_nil_2.
Defined.

Lemma complexType_decoded_by_children_witness :
  Forall (well_read_type (H := leaf_decoders) io_EOF) sample_type_children /\
  exists ct,
    DecodeElement_XSDComplexType (H := leaf_decoders) 12 sample_type_start
      {| d_toks := flat_map type_tokens sample_type_children
                   ++ [TEndElement (xs "complexType")];
         d_err := io_EOF |}
    = Ok (ct, {| d_toks := []; d_err := io_EOF |}) /\
    ct_Name ct = "T" /\ ct_Mixed ct = false /\
    ct_Sequence ct = [sample_b; sample_c] /\ ct_Any ct = [sample_any] /\
    ct_Attributes ct = [sample_attribute] /\ ct_All ct = [].
Proof.
  split; [exact sample_type_well_read |].
  destruct (complexType_decoded_by_children (H := leaf_decoders) 12
              sample_type_start sample_type_children (xs "complexType") []
              io_EOF sample_type_well_read ltac:(simpl; lia))
    as (Hrun & _ & Hn & Hm & _ & Hat & Hs & Ha & _ & Hall & _).
  exists (complexType_of sample_type_start sample_type_children).
  split; [exact Hrun |].
  rewrite Hn, Hm, Hat, Hs, Ha, Hall. repeat split; reflexivity.
Defined.

Lemma schema_decoded_by_children_witness :
  Forall (well_read_schema (H := leaf_decoders) io_EOF) sample_schema_children /\
  exists s,
    xml_Unmarshal_XSDSchema (H := leaf_decoders)
      {| d_toks := sample_document; d_err := io_EOF |} = Ok s /\
    Imports s = [sample_import] /\ Elements s = [sample_e] /\
    map ct_Name (ComplexTypes s) = ["T"] /\ Includes s = [].
Proof.
  split; [exact sample_schema_well_read |].
  destruct (schema_decoded_by_children (H := leaf_decoders)
              [TProcInst "xml" "version=1.0"] sample_schema_start
              sample_schema_children (xs "schema") [] io_EOF eq_refl
              sample_schema_well_read)
    as (Hrun & Hinc & Himp & Hel & _ & Hct & _).
  exists (schema_of sample_schema_start sample_schema_children).
  split; [exact Hrun |].
  rewrite Hinc, Himp, Hel, Hct. repeat split; reflexivity.
Defined.

Lemma sample_schema_run :
  XSDSchema_UnmarshalXML (H := leaf_decoders) 20 new_XSDSchema
    sample_schema_start
    {| d_toks := flat_map schema_tokens sample_schema_children
                 ++ [TEndElement (xs "schema")];
       d_err := io_EOF |}
  = Ok (schema_of sample_schema_start sample_schema_children,
        {| d_toks := []; d_err := io_EOF |}).
Proof.
  unfold XSDSchema_UnmarshalXML. cbv zeta.
  apply (schema_loop_children (H := leaf_decoders) io_EOF
           sample_schema_children sample_schema_well_read).
  simpl. lia.
Qed.

Lemma schema_attributes_read_witness :
  exists s' d',
    XSDSchema_UnmarshalXML (H := leaf_decoders) 20 new_XSDSchema
      sample_schema_start
      {| d_toks := flat_map schema_tokens sample_schema_children
                   ++ [TEndElement (xs "schema")];
         d_err := io_EOF |}
    = Ok (s', d') /\
    Xmlns s' !! "tns" = Some "urn:a" /\ Xmlns s' !! "" = None /\
    Xmlns s' !! "xmlns" = None /\
    TargetNamespace s' = "urn:a" /\ Version s' = "".
Proof.
  exists (schema_of sample_schema_start sample_schema_children),
    {| d_toks := []; d_err := io_EOF |}.
  split; [exact sample_schema_run |].
  destruct (schema_attributes_read (H := leaf_decoders) 20 new_XSDSchema
              (schema_of sample_schema_start sample_schema_children)
              sample_schema_start _ _ sample_schema_run)
    as (_ & Hx & Hv & Ht & _).
  rewrite !Hx, Hv, Ht. repeat split; reflexivity.
Defined.

(** *** The type mapper, called again *)

Section TypeMapperAgain.
Context `{GoText}.

Lemma slices_Contains_snoc (l : list string) (x : string) :
  slices_Contains (l ++ [x]) x = true.
Proof.
  apply slices_Contains_In, in_or_app. right. left. reflexivity.
Qed.

Lemma mapped_again (g : GoWSDL) (xsdType : string) :
  mapped (snd (mapped g xsdType)) xsdType
  = (fst (mapped g xsdType), snd (mapped g xsdType)).
Proof.
  unfold mapped, toGoType.
  destruct (String.eqb (table_get xsd2GoTypes _) "") eqn:E; [| reflexivity].
  destruct (strings_Split xsdType colon) as [| r0 [| r1 [| r2 r]]] eqn:Hs;
    try reflexivity.
  destruct (negb (String.eqb (getNSFromMap g r0) (currentNamespace g))) eqn:Hns;
    [| cbn [fst snd negb]; rewrite Hns; reflexivity].
  destruct (negb (String.eqb (getNSPackage g (getNSFromMap g r0)) "")) eqn:Hpkg;
    [| cbn [fst snd negb]; rewrite Hns, Hpkg; reflexivity].
  destruct (imports g !! currentNamespace g) as [pkgList |] eqn:Hlook.
  - destruct (slices_Contains pkgList (getNSPackage g (getNSFromMap g r0)))
      eqn:Hc.
    + cbn [fst snd negb]. rewrite Hns, Hpkg, Hlook, Hc. reflexivity.
    + cbn [fst snd negb].
      unfold getNSFromMap, getNSPackage in *.
      cbn [set_imports currentNamespaceMap currentNamespace nsToPkg imports].
      rewrite Hns, Hpkg, lookup_insert_eq, slices_Contains_snoc. reflexivity.
  - cbn [fst snd negb].
    unfold getNSFromMap, getNSPackage in *.
    cbn [set_imports currentNamespaceMap currentNamespace nsToPkg imports].
    rewrite Hns, Hpkg, lookup_insert_eq.
    unfold slices_Contains. cbn [existsb]. rewrite String.eqb_refl.
    reflexivity.
Qed.

(** X16. The type mapper settles after one call.  Once [toGoType] was
    called for a reference, every later call for the same reference,
    optional or not, names the type that the first one named (with the
    pointer its own arguments ask for) and leaves the generator as the
    first call left it: the import, if the reference needs one, was
    recorded by the first call and is not recorded again. *)
Theorem toGoType_settles (g : GoWSDL) (xsdType : string)
    (nillable nillable' : bool) (minOccurs minOccurs' : string) :
  let g' := snd (toGoType g xsdType nillable minOccurs) in
  toGoType g' xsdType nillable' minOccurs'
  = (fst (toGoType g xsdType nillable' minOccurs'), g').
Proof.
  cbv zeta.
  rewrite (toGoType_mapped g xsdType nillable minOccurs). cbn [snd].
  rewrite (toGoType_mapped (snd (mapped g xsdType))), mapped_again.
  rewrite (toGoType_mapped g xsdType nillable' minOccurs').
  reflexivity.
Qed.

End TypeMapperAgain.

(** *** [NewGoWSDL] on blank arguments *)

Lemma drop_while_end_empty (f : ascii -> bool) (s : string) :
  drop_while_end f s = EmptyString <-> all_bytes f s = true.
Proof.
  induction s as [| a s IH]; [split; reflexivity |].
  cbn [drop_while_end all_bytes].
  destruct (drop_while_end f s) as [| b t] eqn:E.
  - destruct (f a); cbn [andb].
    + split; [intros _; apply IH; reflexivity | reflexivity].
    + split; discriminate.
  - split; [discriminate |]. intros Hall.
    apply andb_true_iff in Hall as [_ Hall]. apply IH in Hall. discriminate.
Qed.

Lemma all_bytes_drop_while (f : ascii -> bool) (s : string) :
  all_bytes f (drop_while f s) = all_bytes f s.
Proof.
  induction s as [| a s IH]; [reflexivity |].
  cbn [drop_while]. destruct (f a) eqn:E.
  - rewrite IH. cbn [all_bytes]. rewrite E. reflexivity.
  - reflexivity.
Qed.

Section Blank.
Context `{GoUnicode}.
Variable ParseLocation : string -> Location + error.

Lemma TrimSpace_blank (s : string) :
  is_ascii s = true ->
  String.eqb (strings_TrimSpace s) "" = all_bytes space_byte s.
Proof.
  intros Hs. rewrite strings_TrimSpace_ascii by assumption.
  fold space_byte.
  destruct (all_bytes space_byte s) eqn:E.
  - rewrite <- all_bytes_drop_while in E.
    apply drop_while_end_empty in E. rewrite E. reflexivity.
  - apply String.eqb_neq. intros Heq.
    apply drop_while_end_empty in Heq.
    rewrite all_bytes_drop_while in Heq. congruence.
Qed.

(** X17. [NewGoWSDL] on blank arguments.  For ASCII arguments: a path
    that is empty or all white space is refused with "WSDL file is
    required to generate Go proxy", and [ParseLocation] is not asked;
    any other path is handed to [ParseLocation] trimmed, and its error,
    if any, is the result.  A package name that is empty or all white
    space becomes [myservice]; any other is trimmed.  The generator
    made has no documents, no imports recorded and the counter at 0. *)
Theorem NewGoWSDL_blank_arguments (file pkg : string)
    (nsToPkg : NamespaceMapping) (pkgBaseURL : string)
    (ignoreTLS exportAllTypes : bool)
    (Hfile : is_ascii file = true) (Hpkg : is_ascii pkg = true) :
  gen_NewGoWSDL ParseLocation file pkg nsToPkg pkgBaseURL ignoreTLS
    exportAllTypes
  = if all_bytes space_byte file
    then inr (Errorf "WSDL file is required to generate Go proxy")
    else
      match ParseLocation (strings_TrimSpace file) with
      | inr err => inr err
      | inl r =>
          inl {| loc := r; rawWSDL := "";
                 pkg := if all_bytes space_byte pkg then "myservice"
                        else strings_TrimSpace pkg;
                 ignoreTLS := ignoreTLS; exportAllTypes := exportAllTypes;
                 wsdl := None; resolvedXSDExternals := None;
                 currentRecursionLevel := 0; currentNamespace := "";
                 currentNamespaceMap := ∅; nsToPkg := nsToPkg;
                 pkgBaseURL := pkgBaseURL; imports := ∅ |}
      end.
Proof.
  unfold gen_NewGoWSDL. cbv zeta.
  rewrite !TrimSpace_blank by assumption.
  destruct (all_bytes space_byte file); reflexivity.
Qed.

End Blank.

Lemma NewGoWSDL_blank_arguments_witness :
  gen_NewGoWSDL (H0 := ascii_unicode) (fun f => inl {| loc_f := f; loc_u := "" |})
    " service.wsdl " "  " ∅ "" false false
  = inl (NewGoWSDL {| loc_f := "service.wsdl"; loc_u := "" |} "myservice" ∅ ""
           false false) /\
  gen_NewGoWSDL (H0 := ascii_unicode) (fun f => inl {| loc_f := f; loc_u := "" |})
    "  " "p" ∅ "" false false
  = inr (Errorf "WSDL file is required to generate Go proxy").
Proof.
  split.
  - rewrite (NewGoWSDL_blank_arguments (H0 := ascii_unicode)
               (fun f => inl {| loc_f := f; loc_u := "" |})
               " service.wsdl " "  " ∅ "" false false eq_refl eq_refl).
    reflexivity.
  - rewrite (NewGoWSDL_blank_arguments (H0 := ascii_unicode)
               (fun f => inl {| loc_f := f; loc_u := "" |})
               "  " "p" ∅ "" false false eq_refl eq_refl).
    reflexivity.
Defined.

(** *** The resolved set *)

Section ResolvedSet.

Variable Location_Parse : Location -> string -> Location + error.
Variable Location_String : Location -> string.
Variable ioutil_ReadFile : string -> bytes + error.
Variable downloadFile : string -> bool -> bytes + error.
Variable Unmarshal_WSDL : bytes -> WSDL + error.
Variable Unmarshal_XSDSchema : bytes -> XSDSchema + error.

#[local] Abbreviation fetch' := (fetchFile ioutil_ReadFile downloadFile).
#[local] Abbreviation download' :=
  (download Location_Parse Location_String ioutil_ReadFile downloadFile
            Unmarshal_XSDSchema).
#[local] Abbreviation resolve' :=
  (resolveXSDExternals Location_Parse Location_String ioutil_ReadFile
                       downloadFile Unmarshal_XSDSchema).
#[local] Abbreviation import_marked' :=
  (import_marked Location_Parse Location_String).
#[local] Abbreviation include_marked' :=
  (include_marked Location_Parse Location_String).
#[local] Abbreviation pass' :=
  (unmarshal Location_Parse Location_String ioutil_ReadFile downloadFile
             Unmarshal_WSDL Unmarshal_XSDSchema).

(** X18. The resolved set at work.  Over a whole pass [unmarshal], from
    any generator: the keys of the documents that [download] fetched
    and decoded are pairwise distinct; none of them was marked resolved
    before and each is marked afterwards; and no mark is ever taken
    away.  So no external document is fetched and decoded twice, in one
    pass or in a later one on the same generator. *)
Theorem external_documents_decoded_once (fuel : nat) (st : state) :
  let st' := snd (pass' fuel st) in
  exists evs,
    snd st' = snd st ++ evs /\
    NoDup (decoded_keys evs) /\
    (forall key, In key (decoded_keys evs) ->
                 resolved (fst st) key = false /\
                 resolved (fst st') key = true) /\
    marks_kept (fst st) (fst st').
Proof.
  cbv zeta.
  destruct (once_pass Location_Parse Location_String ioutil_ReadFile
              downloadFile Unmarshal_WSDL Unmarshal_XSDSchema fuel st)
    as (evs & Hevs & Hn & Hk & Hkeep).
  exists evs. split; [exact Hevs |]. split; [exact Hn |].
  split; [exact Hk | exact Hkeep].
Qed.

Lemma once_download (fuel : nat) (base : Location) (ref : string) :
  preserves once (download' (resolve' fuel) base ref).
Proof.
  apply steps_download;
    [ exact once_refl | exact once_trans | exact once_log | exact once_mark
    | exact once_decoded | exact once_recursed | ].
  intros s l. apply once_resolve.
Qed.

Lemma once_kept (st st' : state) : once st st' -> marks_kept (fst st) (fst st').
Proof. intros (evs & _ & _ & _ & Hk). exact Hk. Qed.

Lemma marks_kept_ran {A} (c : M A) (st : state) (r : result A) (st' : state) :
  preserves once c -> c st = (r, st') -> marks_kept (fst st) (fst st').
Proof.
  intros Hc Hrun. pose proof (Hc st) as Ho. rewrite Hrun in Ho.
  exact (once_kept _ _ Ho).
Qed.

(** A call of [download] that succeeds leaves its key marked. *)
Lemma download_marks (fuel : nat) (base : Location) (ref : string)
    (st : state) (res : list XSDSchema) (st' : state) :
  download' (resolve' fuel) base ref st = (Ok res, st') ->
  exists location,
    Location_Parse base ref = inl location /\
    resolved (fst st') (Location_String location) = true.
Proof.
  intros H. unfold download in H.
  apply bind_inv in H as (location & st1 & H1 & H).
  apply lift_inv in H1 as [HP ->].
  exists location. split; [exact HP |].
  apply bind_inv in H as (g & st1 & H1 & H).
  unfold get in H1. injection H1 as <- <-.
  destruct (resolved (fst st) (Location_String location)) eqn:Hres.
  { unfold ret in H. injection H as <- <-. exact Hres. }
  apply bind_inv in H as ([] & st1 & H1 & H).
  unfold modify in H1. injection H1 as <-.
  apply bind_inv in H as (data & st2 & H2 & H).
  apply fetchFile_inv in H2 as (e & -> & He). cbn [fst snd] in H.
  apply bind_inv in H as (newschema & st3 & H3 & H).
  apply lift_inv in H3 as [_ ->].
  apply bind_inv in H as ([] & st4 & H4 & H).
  unfold emit in H4. injection H4 as <-. cbn [fst snd] in H.
  apply bind_inv in H as (g' & st5 & H5 & H).
  unfold get in H5. injection H5 as <- <-. cbn [fst snd] in H.
  apply bind_inv in H as (downloadResult & st6 & H6 & H).
  apply bind_inv in H as ([] & st7 & H7 & H).
  unfold emit in H7. injection H7 as <-.
  apply bind_inv in H as (g'' & st8 & H8 & H).
  unfold get in H8. injection H8 as <- <-. cbn [fst snd] in H.
  destruct (unmapped (fst st6) (TargetNamespace newschema)); [discriminate |].
  unfold ret in H. injection H as <- <-. cbn [fst].
  assert (Hmark : resolved (mark_resolved (Location_String location) (fst st))
                    (Location_String location) = true).
  { rewrite resolved_mark.
    destruct (decide (Location_String location = Location_String location));
      [reflexivity | contradiction]. }
  destruct (_ && _) in H6.
  - apply bind_inv in H6 as ([] & st1 & H1 & H6).
    unfold modify in H1. injection H1 as <-. cbn [fst snd] in H6.
    apply bind_inv in H6 as ([] & st1 & H1 & H6).
    unfold emit in H1. injection H1 as <-. cbn [fst snd] in H6.
    apply bind_inv in H6 as (schemas & st1 & Hrec & H6).
    unfold ret in H6. injection H6 as <- <-.
    apply (marks_kept_ran _ _ _ _ (once_resolve _ _ _ _ _ fuel newschema location)
             Hrec).
    cbn [fst]. exact Hmark.
  - unfold ret in H6. injection H6 as <- <-. exact Hmark.
Qed.

Lemma imports_loop_marks (fuel : nat) (l : Location) (impts : list XSDImport) :
  forall result st res st',
    imports_loop (download' (resolve' fuel)) l impts result st = (Ok res, st') ->
    marks_kept (fst st) (fst st') /\
    List.Forall (import_marked' l (fst st')) impts.
Proof.
  induction impts as [| impt impts IH]; intros result st res st' H.
  - unfold imports_loop, ret in H. injection H as <- <-.
    split; [intros key Hk; exact Hk | constructor].
  - cbn [imports_loop] in H.
    destruct (String.eqb_spec (imp_SchemaLocation impt) "") as [He | Hne].
    + apply bind_inv in H as ([] & st1 & H1 & H).
      unfold emit in H1. injection H1 as <-.
      apply IH in H as [Hk Hall]. cbn [fst] in Hk.
      split; [exact Hk |]. constructor; [| exact Hall].
      intros Hne. contradiction.
    + apply bind_inv in H as (newSchemas & st1 & H1 & H).
      pose proof (marks_kept_ran _ _ _ _ (once_download fuel l _) H1) as Hk1.
      apply download_marks in H1 as (location & HP & Hres).
      apply IH in H as [Hk Hall].
      split; [intros key Hkey; apply Hk, Hk1, Hkey |].
      constructor; [| exact Hall].
      intros _. exists location. split; [exact HP | apply Hk, Hres].
Qed.

Lemma includes_loop_marks (fuel : nat) (l : Location) (incls : list XSDInclude) :
  forall result st res st',
    includes_loop (download' (resolve' fuel)) l incls result st = (Ok res, st') ->
    marks_kept (fst st) (fst st') /\
    List.Forall (include_marked' l (fst st')) incls.
Proof.
  induction incls as [| incl incls IH]; intros result st res st' H.
  - unfold includes_loop, ret in H. injection H as <- <-.
    split; [intros key Hk; exact Hk | constructor].
  - cbn [includes_loop] in H.
    apply bind_inv in H as (newSchemas & st1 & H1 & H).
    pose proof (marks_kept_ran _ _ _ _ (once_download fuel l _) H1) as Hk1.
    apply download_marks in H1 as (location & HP & Hres).
    apply IH in H as [Hk Hall].
    split; [intros key Hkey; apply Hk, Hk1, Hkey |].
    constructor; [| exact Hall].
    exists location. split; [exact HP | apply Hk, Hres].
Qed.

Lemma marked_kept_import (l : Location) (g g' : GoWSDL) (impts : list XSDImport) :
  marks_kept g g' ->
  List.Forall (import_marked' l g) impts -> List.Forall (import_marked' l g') impts.
Proof.
  intros Hk. apply List.Forall_impl. intros impt Hm Hne.
  destruct (Hm Hne) as (location & HP & Hres). eauto.
Qed.

Lemma marked_kept_include (l : Location) (g g' : GoWSDL)
    (incls : list XSDInclude) :
  marks_kept g g' ->
  List.Forall (include_marked' l g) incls ->
  List.Forall (include_marked' l g') incls.
Proof.
  intros Hk. apply List.Forall_impl. intros incl (location & HP & Hres). 
  exists location. eauto.
Qed.

Lemma imports_loop_again (rec : XSDSchema -> Location -> M (list XSDSchema))
    (l : Location) (g : GoWSDL) (impts : list XSDImport) :
  List.Forall (import_marked' l g) impts ->
  forall result log,
    imports_loop (download' rec) l impts result (g, log)
    = (Ok result, (g, log ++ no_location_warnings impts)).
Proof.
  induction 1 as [| impt impts Hm _ IH]; intros result log.
  - unfold no_location_warnings. cbn. rewrite app_nil_r. reflexivity.
  - cbn [imports_loop]. unfold no_location_warnings. cbn [List.filter].
    destruct (String.eqb_spec (imp_SchemaLocation impt) "") as [He | Hne].
    + unfold bind at 1. cbn [emit fst snd]. rewrite IH.
      unfold no_location_warnings. cbn [map].
      rewrite <- app_assoc. reflexivity.
    + destruct (Hm Hne) as (location & HP & Hres).
      unfold bind at 1.
      rewrite (download_resolved _ _ _ _ _ rec l _ (g, log) location HP Hres).
      rewrite app_nil_r. apply IH.
Qed.

Lemma includes_loop_again (rec : XSDSchema -> Location -> M (list XSDSchema))
    (l : Location) (g : GoWSDL) (incls : list XSDInclude) :
  List.Forall (include_marked' l g) incls ->
  forall result log,
    includes_loop (download' rec) l incls result (g, log)
    = (Ok result, (g, log)).
Proof.
  induction 1 as [| incl incls (location & HP & Hres) _ IH]; intros result log.
  - reflexivity.
  - cbn [includes_loop]. unfold bind at 1.
    rewrite (download_resolved _ _ _ _ _ rec l _ (g, log) location HP Hres).
    rewrite app_nil_r. apply IH.
Qed.

(** X19. A schema is resolved once.  After a call of
    [resolveXSDExternals] on a schema succeeded, a later call on the
    same schema and location, on a generator that kept the marks,
    returns no document, reads no file and asks for no URL, and leaves
    the generator as it is: it only logs, again, the warning for each
    import that names no location. *)
Theorem schema_resolved_once (fuel fuel' : nat) (schema : XSDSchema)
    (l : Location) (st st' st'' : state) (res : list XSDSchema)
    (Hrun : resolve' fuel schema l st = (Ok res, st'))
    (Hkept : marks_kept (fst st') (fst st'')) :
  resolve' (S fuel') schema l st''
  = (Ok [], (fst st'', snd st'' ++ no_location_warnings (Imports schema))).
Proof.
  destruct fuel as [| fuel]; [discriminate |].
  cbn [resolveXSDExternals] in Hrun.
  apply bind_inv in Hrun as (result & st1 & H1 & H2).
  apply imports_loop_marks in H1 as [_ Himp].
  apply includes_loop_marks in H2 as [Hk Hinc].
  pose proof (marked_kept_import l _ _ _ Hk Himp) as Himp'.
  pose proof (marked_kept_import l _ _ _ Hkept Himp') as Himp''.
  pose proof (marked_kept_include l _ _ _ Hkept Hinc) as Hinc''.
  cbn [resolveXSDExternals]. unfold bind.
  destruct st'' as [g log]. cbn [fst snd] in *.
  rewrite (imports_loop_again _ l g _ Himp'').
  apply (includes_loop_again _ l g _ Hinc'').
Qed.

End ResolvedSet.

Lemma schema_resolved_once_witness :
  fst again_first = Ok [outer_B; outer_A] /\
  files_read (snd (snd again_first)) = ["a.xsd"; "b.xsd"] /\
  again_resolve (snd again_first)
  = (Ok [], (fst (snd again_first),
             snd (snd again_first) ++ [LogWarnNoLocation "urn:n"])).
Proof.
  split; [vm_compute; reflexivity |]. split; [vm_compute; reflexivity |].
  apply (schema_resolved_once sample_Parse sample_String
           (sample_read [("a.xsd", "<A>"); ("b.xsd", "<B>")]) sample_download
           (sample_decode [("<A>", outer_A); ("<B>", outer_B)])
           21 20 again_schema (file "root.wsdl")
           (NewGoWSDL (file "root.wsdl") "myservice" ∅ "" false true, [])
           (snd again_first) (snd again_first) [outer_B; outer_A]).
  - vm_compute. reflexivity.
  - intros key Hk. exact Hk.
Defined.

(** *** A document cut short *)

Section Truncated.
Context `{ReflectDecoders}.

Lemma schema_loop_truncated (err : error) (cs : list SchemaChild) :
  Forall (well_read_schema err) cs ->
  forall fuel s,
    (List.length (flat_map schema_tokens cs) < fuel)%nat ->
    schema_loop fuel s {| d_toks := flat_map schema_tokens cs; d_err := err |}
    = Err err.
Proof.
  induction 1 as [| c cs Hc _ IH]; intros fuel s Hfuel.
  - destruct fuel as [| fuel]; [simpl in Hfuel; lia | reflexivity].
  - destruct fuel as [| fuel]; [simpl in Hfuel; lia |].
    cbn [flat_map] in Hfuel. rewrite length_app in Hfuel.
    destruct c as [t toks x | t toks x | t toks x | t toks x | t cs' m
                  | t toks x | t body m | tok].
    1-4, 6:
      destruct Hc as (Hspace & Hlocal & Hdec);
      cbn [schema_tokens List.length] in Hfuel;
      cbn [flat_map schema_tokens app schema_loop Token_ d_toks d_err];
      rewrite Hspace, String.eqb_refl, Hlocal;
      cbn [negb String.eqb Ascii.eqb Bool.eqb andb];
      rewrite Hdec; unfold unread; cbn [d_err];
      apply IH; lia.
    + destruct Hc as (Hspace & Hlocal & Hcs').
      cbn [schema_tokens List.length] in Hfuel. rewrite length_app in Hfuel.
      cbn [List.length] in Hfuel.
      cbn [flat_map schema_tokens app schema_loop Token_ d_toks d_err].
      rewrite Hspace, String.eqb_refl, Hlocal. cbn [negb String.eqb Ascii.eqb
        Bool.eqb andb].
      rewrite <- !app_assoc. cbn [app].
      unfold DecodeElement_XSDComplexType, XSDComplexType_UnmarshalXML.
      rewrite (complexType_loop_children err t cs' Hcs') by lia.
      apply IH. lia.
    + destruct Hc as (Hskip & Hbody).
      cbn [schema_tokens List.length] in Hfuel. rewrite length_app in Hfuel.
      cbn [flat_map schema_tokens app]. rewrite <- !app_assoc. cbn [app].
      rewrite schema_loop_skips by assumption.
      apply IH. lia.
    + cbn [schema_tokens List.length] in Hfuel. cbn in Hc.
      cbn [flat_map schema_tokens app schema_loop Token_ d_toks d_err].
      destruct tok; try discriminate Hc; apply IH; lia.
Qed.

(** X20. No schema from a document cut short.  When the tokens end
    before a start element was met, or after the start of [schema] and
    any number of whole children that decode well, but before the end
    of [schema], [xml.Unmarshal] returns the error of the token stream:
    the children decoded so far are not returned. *)
Theorem truncated_schema_is_an_error (prolog : list Token) (t : StartElement)
    (cs : list SchemaChild) (err : error)
    (Hprolog : forallb not_start prolog = true)
    (Hcs : Forall (well_read_schema err) cs) :
  xml_Unmarshal_XSDSchema {| d_toks := prolog; d_err := err |} = Err err /\
  xml_Unmarshal_XSDSchema
    {| d_toks := prolog ++ TStartElement t :: flat_map schema_tokens cs;
       d_err := err |}
  = Err err.
Proof.
  split.
  - unfold xml_Unmarshal_XSDSchema. cbn [d_toks d_err].
    rewrite <- (app_nil_r prolog) at 2.
    rewrite Unmarshal_XSDSchema_from_prolog by assumption. reflexivity.
  - unfold xml_Unmarshal_XSDSchema. cbn [d_toks d_err].
    rewrite Unmarshal_XSDSchema_from_prolog by assumption.
    cbn [Unmarshal_XSDSchema_from]. unfold XSDSchema_UnmarshalXML.
    rewrite (schema_loop_truncated err cs Hcs); [reflexivity |].
    rewrite length_app. cbn [List.length]. lia.
Qed.

End Truncated.

Lemma truncated_schema_is_an_error_witness :
  xml_Unmarshal_XSDSchema (H := leaf_decoders)
    {| d_toks := [TProcInst "xml" "version=1.0"]; d_err := io_EOF |}
  = Err io_EOF /\
  xml_Unmarshal_XSDSchema (H := leaf_decoders)
    {| d_toks := TProcInst "xml" "version=1.0"
                 :: TStartElement sample_schema_start
                 :: flat_map schema_tokens sample_schema_children;
       d_err := io_EOF |}
  = Err io_EOF.
Proof.
  exact (truncated_schema_is_an_error (H := leaf_decoders)
           [TProcInst "xml" "version=1.0"] sample_schema_start
           sample_schema_children io_EOF eq_refl sample_schema_well_read).
Defined.
